(** * cheri-dwarf-scanner: the struct layout scraper and its logger

    A shallow embedding of [struct_layout_scraper.cc], [log.cc] and [log.hh],
    followed by the properties established about them.

    Conventions.
    - [uint64_t] and [unsigned long] values are integers in [Z]; every
      arithmetic operation of the source is followed by an explicit
      reduction modulo 2^64 ([U64.wrap]).
    - [std::optional<T>] is [option T]; the contextual conversion of an
      optional to [bool] is [is_Some]/[bool_of_opt].
    - Objects reached through references are threaded explicitly. *)

From Stdlib Require Import ZArith List Bool Ascii String HexString Lia.
From stdpp Require Import base option list strings gmap pretty.

Local Open Scope Z_scope.
Local Open Scope string_scope.

(* ===================================================================== *)
(** * Machine integers *)
(* ===================================================================== *)

Module U64.

Definition modulus : Z := 2 ^ 64.

Definition wrap (z : Z) : Z := z mod modulus.

Definition add (a b : Z) : Z := wrap (a + b).
Definition sub (a b : Z) : Z := wrap (a - b).
Definition mul (a b : Z) : Z := wrap (a * b).
(** Unsigned division and remainder by a non-zero constant do not wrap. *)
Definition div (a b : Z) : Z := a / b.
Definition rem (a b : Z) : Z := a mod b.

(** The values an [uint64_t] object can hold. *)
Definition in_range (z : Z) : Prop := 0 <= z < modulus.

End U64.

(** [std::optional::operator bool]. *)
Definition bool_of_opt {A} (o : option A) : bool :=
  match o with Some _ => true | None => false end.

(** [std::optional::value_or]. *)
Definition value_or {A} (o : option A) (d : A) : A :=
  match o with Some v => v | None => d end.

(* ===================================================================== *)
(** * Logging ([log.hh], [log.cc]) *)
(* ===================================================================== *)

Module Log.

(** [enum LogLevel]: the enumerators take the values 0..4 in this order. *)
Inductive LogLevel := kError | kWarn | kInfo | kDebug | kTrace.

Definition level_value (l : LogLevel) : Z :=
  match l with
  | kError => 0 | kWarn => 1 | kInfo => 2 | kDebug => 3 | kTrace => 4
  end.

Record LogMessage := mkLogMessage { level : LogLevel; message : string }.

(** The [operator<<] on log levels. *)
Definition level_tag (l : LogLevel) : string :=
  match l with
  | kTrace => "[TRACE]"
  | kDebug => "[DEBUG]"
  | kInfo => "[INFO]"
  | kWarn => "[WARN]"
  | kError => "[ERROR]"
  end.

(** The two standard streams the console sink writes to. *)
Inductive Stream := Cerr | Cout.

(** A line written by a sink: the stream and the text before [std::endl]. *)
Definition Output : Type := Stream * string.

(** [class Sink]: the only implementation in the sources is the console. *)
Inductive Sink := ConsoleLogSink.

(** [ConsoleLogSink::Emit]; [thr] is the printed [std::this_thread::get_id()]. *)
Definition Sink_Emit (thr : string) (s : Sink) (msg : LogMessage) : Output :=
  match s with
  | ConsoleLogSink =>
      let text := "[THR " ++ thr ++ "]" ++ level_tag (level msg) ++ " " ++ message msg in
      match level msg with
      | kTrace | kDebug | kError => (Cerr, text)
      | _ => (Cout, text)
      end
  end.

Record Logger := mkLogger { level_ : LogLevel; sinks_ : list Sink }.

(** [Logger::Logger(LogLevel level) : level_{kInfo} {}]. *)
Definition Logger_ctor (lvl : LogLevel) : Logger :=
  {| level_ := kInfo; sinks_ := [] |}.

(** [Logger::AddSink]: [sinks_.emplace_back]. *)
Definition AddSink (l : Logger) (s : Sink) : Logger :=
  {| level_ := level_ l; sinks_ := sinks_ l ++ [s] |}.

(** [Logger::SetLevel]. *)
Definition SetLevel (l : Logger) (lvl : LogLevel) : Logger :=
  {| level_ := lvl; sinks_ := sinks_ l |}.

(** [Logger::Get]: the argument is [global_logger] before the call, the
    result is the object the returned reference designates, which is also
    the content of [global_logger] after the call. *)
Definition Get (global_logger : option Logger) : Logger :=
  match global_logger with
  | None => Logger_ctor kInfo
  | Some l => l
  end.

(** [Logger::Default]. *)
Definition Default (global_logger : option Logger) : Logger :=
  match global_logger with
  | Some l => l
  | None => AddSink (Logger_ctor kInfo) ConsoleLogSink
  end.

(** [Logger::Emit]: the lines written by the sinks, in order. *)
Definition Emit (thr : string) (l : Logger) (msg : LogMessage) : list Output :=
  if level_value (level msg) >? level_value (level_ l) then []
  else map (fun s => Sink_Emit thr s msg) (sinks_ l).

(** [class LogAs]; the [logger_] reference is left implicit: every call of
    [Logger::Emit] made through it is recorded by the destructor below. *)
Record LogAs := mkLogAs {
  handle_level_ : LogLevel;
  stream_ : string;
  consumed_flag_ : bool
}.

(** [LogAs::LogAs], reached through [Logger::NewStream]. *)
Definition NewStream (lvl : LogLevel) : LogAs :=
  {| handle_level_ := lvl; stream_ := ""; consumed_flag_ := false |}.

(** [LogAs::operator bool]: the returned value and the handle afterwards. *)
Definition operator_bool (h : LogAs) : bool * LogAs :=
  let is_consumed := consumed_flag_ h in
  (is_consumed,
   {| handle_level_ := handle_level_ h;
      stream_ := stream_ h;
      consumed_flag_ := consumed_flag_ h || true |}).

(** Writing to [LogAs::Stream()]: [f] is what the [<<] chain does to the
    text assembled so far. *)
Definition write (f : string -> string) (h : LogAs) : LogAs :=
  {| handle_level_ := handle_level_ h;
     stream_ := f (stream_ h);
     consumed_flag_ := consumed_flag_ h |}.

(** [LogAs::~LogAs]: the messages handed to [Logger::Emit]. *)
Definition destroy (h : LogAs) : list LogMessage :=
  if consumed_flag_ h
  then [ {| level := handle_level_ h; message := stream_ h |} ]
  else [].

(** [operator bool] invoked [n] times in a row: the values returned. *)
Fixpoint operator_bool_calls (n : nat) (h : LogAs) : list bool :=
  match n with
  | O => []
  | S n' => let '(b, h') := operator_bool h in b :: operator_bool_calls n' h'
  end.

(** The loop of the [LOG] macro,
    [for (auto log_handle = ...; !log_handle;) body], from the first test of
    its condition on. [runs] counts the executions of the body. The loop has
    no iteration expression. *)
Fixpoint LOG_loop (fuel : nat) (body : string -> string) (h : LogAs) (runs : nat)
  : option (LogAs * nat) :=
  match fuel with
  | O => None
  | S fuel' =>
      let '(b, h1) := operator_bool h in
      if negb b then LOG_loop fuel' body (write body h1) (S runs)
      else Some (h1, runs)
  end.

(** One use of [LOG(level) << ...]: the number of times the body ran and
    the messages passed to [Logger::Emit] when the handle leaves scope. *)
Definition LOG (fuel : nat) (lvl : LogLevel) (body : string -> string)
  : option (nat * list LogMessage) :=
  match LOG_loop fuel body (NewStream lvl) 0%nat with
  | None => None
  | Some (h, runs) => Some (runs, destroy h)
  end.

End Log.

(* ===================================================================== *)
(** * Rows and DWARF entries ([struct_layout_scraper.hh], LLVM's DWARFDie) *)
(* ===================================================================== *)

(** Modelled from the spec: the header that declares [StructTypeFlags] and
    [TypeInfoFlags] is not among the sources; the specification gives their
    common bit layout. The operators are those of [bit_flag_enum.hh]. *)
Module Flags.

Definition kTypeNone : Z := 0.
Definition kTypeIsStruct : Z := Z.shiftl 1 0.
Definition kTypeIsUnion : Z := Z.shiftl 1 1.
Definition kTypeIsClass : Z := Z.shiftl 1 2.
Definition kTypeIsAnonymous : Z := Z.shiftl 1 3.
Definition kTypeIsArray : Z := Z.shiftl 1 4.
Definition kTypeIsPtr : Z := Z.shiftl 1 5.
Definition kTypeIsFnPtr : Z := Z.shiftl 1 6.
Definition kTypeIsTypedef : Z := Z.shiftl 1 7.
Definition kTypeIsConst : Z := Z.shiftl 1 8.
Definition kTypeIsVolatile : Z := Z.shiftl 1 9.

(** [operator|], [operator&] and [operator!] on a bit-flag enumeration. *)
Definition or (l r : Z) : Z := Z.lor l r.
Definition and (l r : Z) : Z := Z.land l r.
Definition not (v : Z) : bool := (v =? 0)%Z.

(** [!!(flags & mask)]. *)
Definition test (flags mask : Z) : bool := negb (not (and flags mask)).

(** [record_type_mask]. *)
Definition record_type_mask : Z := or (or kTypeIsStruct kTypeIsUnion) kTypeIsClass.

End Flags.

(** Modelled from the spec: the header that declares the row structures is
    not among the sources; fields and their optionality follow the uses in
    [struct_layout_scraper.cc] and the data model of the specification. *)
Module StructTypeRow.
Record t := mk {
  id : Z;
  file : string;
  line : Z;
  name : string;
  size : Z;
  flags : Z;
  has_imprecise : bool
}.
(** A default-constructed row. *)
Definition default : t :=
  {| id := 0; file := ""; line := 0; name := ""; size := 0;
     flags := Flags.kTypeNone; has_imprecise := false |}.
End StructTypeRow.

Module StructMemberRow.
Record t := mk {
  id : Z;
  owner : Z;
  nested : option Z;
  name : string;
  type_name : string;
  line : Z;
  byte_size : Z;
  bit_size : option Z;
  byte_offset : Z;
  bit_offset : option Z;
  flags : Z;
  array_items : option Z
}.
Definition default : t :=
  {| id := 0; owner := 0; nested := None; name := ""; type_name := ""; line := 0;
     byte_size := 0; bit_size := None; byte_offset := 0; bit_offset := None;
     flags := Flags.kTypeNone; array_items := None |}.
End StructMemberRow.

Module MemberBoundsRow.
Record t := mk {
  owner : Z;
  member : Z;
  name : string;
  offset : Z;
  base : Z;
  top : Z;
  is_imprecise : bool;
  required_precision : Z
}.
End MemberBoundsRow.

Module StructTypeEntry.
Record t := mk {
  data : StructTypeRow.t;
  members : list StructMemberRow.t;
  flattened_layout : list MemberBoundsRow.t;
  skip_postprocess : bool
}.
(** [StructTypeEntry e;] *)
Definition default : t :=
  {| data := StructTypeRow.default; members := []; flattened_layout := [];
     skip_postprocess := false |}.
End StructTypeEntry.

#[local] Set Warnings "-register-all".

(** The tags the scraper distinguishes. *)
Inductive Tag :=
| DW_TAG_structure_type | DW_TAG_union_type | DW_TAG_class_type
| DW_TAG_member | DW_TAG_typedef | DW_TAG_other.

(** A debugging information entry as the scraper reads it: which of the
    attributes it looks up are present, and with what value.
    [die.find(attr)] is the presence of the attribute; [GetULongAttr] and
    [GetStrAttr] give its value when present. *)
Inductive DIE := mkDIE {
  getOffset : Z;
  getTag : Tag;
  DW_AT_declaration : bool;
  DW_AT_specification : bool;
  DW_AT_byte_size : option Z;
  DW_AT_name : option string;
  getDeclFile : string;
  getDeclLine : Z;
  DW_AT_bit_size : option Z;
  DW_AT_data_member_location : option Z;
  DW_AT_data_bit_offset : option Z;
  DW_AT_bit_offset : option Z;
  children : list DIE
}.

(** The result of [GetTypeInfo] (the type resolver is not among the
    sources; the scraper reads these five fields). *)
Record TypeInfo := mkTypeInfo {
  ti_type_name : string;
  ti_byte_size : Z;
  ti_flags : Z;
  ti_array_items : option Z;
  ti_type_die : DIE
}.

(** The key of [struct_type_map_]: [(name, file, line)]. *)
Definition StructKey : Type := string * string * Z.

(* ===================================================================== *)
(** * The scraper's state and control flow *)
(* ===================================================================== *)

(** How a call ends: by returning, by throwing [std::runtime_error] (or
    [std::out_of_range]), by a failed [assert], or, in the embedding only, by
    exhausting the recursion budget. *)
Inductive Outcome (A : Type) :=
| Returned (a : A)
| Thrown (what : string)
| AssertionFailed (what : string)
| OutOfFuel.
Arguments Returned {A} a.
Arguments Thrown {A} what.
Arguments AssertionFailed {A} what.
Arguments OutOfFuel {A}.

Definition raises {A} (o : Outcome A) : bool :=
  match o with Thrown _ => true | _ => false end.

(** The mutable state [VisitCommon] and [VisitMember] touch: the map of the
    current unit, the two static id counters, and the messages handed to
    the logger. *)
Record Scraper := mkScraper {
  struct_type_map_ : gmap StructKey StructTypeEntry.t;
  struct_id : Z;
  member_id : Z;
  emitted : list Log.LogMessage
}.

(** A fresh process: both counters are initialised to 1. *)
Definition Scraper_init : Scraper :=
  {| struct_type_map_ := ∅; struct_id := 1; member_id := 1; emitted := [] |}.

Definition M (A : Type) : Type := Scraper -> Outcome A * Scraper.

Definition ret {A} (a : A) : M A := fun s => (Returned a, s).

Definition bind {A B} (m : M A) (k : A -> M B) : M B :=
  fun s =>
    match m s with
    | (Returned a, s') => k a s'
    | (Thrown w, s') => (Thrown w, s')
    | (AssertionFailed w, s') => (AssertionFailed w, s')
    | (OutOfFuel, s') => (OutOfFuel, s')
    end.

Declare Scope scraper_scope.
Delimit Scope scraper_scope with scraper.
Notation "x <- c1 ;; c2" := (bind c1 (fun x => c2))
  (at level 100, c1 at next level, right associativity) : scraper_scope.
Notation "c1 ;;; c2" := (bind c1 (fun _ => c2))
  (at level 100, right associativity) : scraper_scope.

Definition throw {A} (what : string) : M A := fun s => (Thrown what, s).
Definition assert_fail {A} (what : string) : M A := fun s => (AssertionFailed what, s).
Definition out_of_fuel {A} : M A := fun s => (OutOfFuel, s).

(** [LOG(level) << text]: by the logger's contract one message reaches
    [Logger::Emit]. *)
Definition LOG (lvl : Log.LogLevel) (text : string) : M unit :=
  fun s =>
    (Returned tt,
     {| struct_type_map_ := struct_type_map_ s; struct_id := struct_id s;
        member_id := member_id s;
        emitted := (emitted s ++ [Log.mkLogMessage lvl text])%list |}).

(** [GetStructTypeId]: [static std::atomic<uint64_t> struct_id(1); return ++struct_id;] *)
Definition GetStructTypeId : M Z :=
  fun s =>
    let v := U64.add (struct_id s) 1 in
    (Returned v,
     {| struct_type_map_ := struct_type_map_ s; struct_id := v;
        member_id := member_id s; emitted := emitted s |}).

(** [GetStructMemberId], a counter of its own. *)
Definition GetStructMemberId : M Z :=
  fun s =>
    let v := U64.add (member_id s) 1 in
    (Returned v,
     {| struct_type_map_ := struct_type_map_ s; struct_id := struct_id s;
        member_id := v; emitted := emitted s |}).

Definition find_entry (key : StructKey) : M (option StructTypeEntry.t) :=
  fun s => (Returned (struct_type_map_ s !! key), s).

(** [struct_type_map_.insert({key, e})]: no effect when the key is taken. *)
Definition insert_entry (key : StructKey) (e : StructTypeEntry.t) : M unit :=
  fun s =>
    (Returned tt,
     {| struct_type_map_ :=
          match struct_type_map_ s !! key with
          | Some _ => struct_type_map_ s
          | None => <[key := e]> (struct_type_map_ s)
          end;
        struct_id := struct_id s; member_id := member_id s; emitted := emitted s |}).

(** [std::quoted]: the text between double quotes, with a backslash before
    every double quote and backslash. *)
Definition dquote : ascii := ascii_of_nat 34.
Definition backslash : ascii := ascii_of_nat 92.

Fixpoint quoted_body (s : string) : string :=
  match s with
  | EmptyString => EmptyString
  | String c s' =>
      if (Ascii.eqb c dquote || Ascii.eqb c backslash)%bool
      then String backslash (String c (quoted_body s'))
      else String c (quoted_body s')
  end.

Definition quoted (s : string) : string :=
  String dquote (quoted_body s ++ String dquote EmptyString).

(* ===================================================================== *)
(** * Visiting record and member entries *)
(* ===================================================================== *)

Section Visit.

(** [dwsrc_->GetContext().isLittleEndian()]. *)
Variable isLittleEndian : bool.
(** The configured path prefix, and [std::filesystem::relative]. *)
Variable strip_prefix_ : option string.
Variable fs_relative : string -> string -> string.
(** Helpers of the scraper's base class, not among the sources. *)
Variable AnonymousName : DIE -> option string -> string.
Variable GetTypeInfo : DIE -> TypeInfo.
(** [die.getAttributeValueAsReferencedDie(DW_AT_type).resolveTypeUnitReference()]. *)
Variable referenced_type : DIE -> DIE.

(** [VisitMember], the block "Extract offsets, taking into account
    bitfields": [member] arrives with the [byte_size] of its type. *)
Definition VisitMember_offsets (die : DIE) (member : StructMemberRow.t)
  : StructMemberRow.t :=
  let byte_size := value_or (DW_AT_byte_size die) (StructMemberRow.byte_size member) in
  let bit_size := DW_AT_bit_size die in
  let data_offset := value_or (DW_AT_data_member_location die) 0 in
  let bit_data_offset := DW_AT_data_bit_offset die in
  let bit_offset : option Z :=
    match bit_data_offset with
    | Some b => Some (U64.add (U64.mul data_offset 8) b)
    | None => None
    end in
  let old_style_bit_offset := DW_AT_bit_offset die in
  let bit_offset : option Z :=
    match old_style_bit_offset with
    | Some old =>
        if isLittleEndian then
          let shift := U64.add old (value_or bit_size 0) in
          Some (U64.sub (U64.add (value_or bit_offset 0) (U64.mul byte_size 8)) shift)
        else
          Some (U64.add (value_or bit_offset 0) old)
    | None => bit_offset
    end in
  {| StructMemberRow.id := StructMemberRow.id member;
     StructMemberRow.owner := StructMemberRow.owner member;
     StructMemberRow.nested := StructMemberRow.nested member;
     StructMemberRow.name := StructMemberRow.name member;
     StructMemberRow.type_name := StructMemberRow.type_name member;
     StructMemberRow.line := StructMemberRow.line member;
     StructMemberRow.byte_size := byte_size;
     StructMemberRow.bit_size := bit_size;
     StructMemberRow.byte_offset :=
       match bit_offset with Some b => U64.div b 8 | None => data_offset end;
     StructMemberRow.bit_offset :=
       match bit_offset with Some b => Some (U64.rem b 8) | None => None end;
     StructMemberRow.flags := StructMemberRow.flags member;
     StructMemberRow.array_items := StructMemberRow.array_items member |}.

(** [VisitMember], the choice of the member's name. *)
Definition VisitMember_name (die : DIE) (row : StructTypeRow.t) (member_index : Z)
  (member : StructMemberRow.t) : string :=
  let name :=
    if Flags.test (StructTypeRow.flags row) Flags.kTypeIsUnion then
      "<anon>@" ++ pretty member_index
    else
      "<anon>@" ++ pretty (StructMemberRow.byte_offset member) ++
      match StructMemberRow.bit_offset member with
      | Some b => ":" ++ pretty b
      | None => ""
      end in
  value_or (DW_AT_name die) name.

Definition set_member_name (member : StructMemberRow.t) (n : string) : StructMemberRow.t :=
  {| StructMemberRow.id := StructMemberRow.id member;
     StructMemberRow.owner := StructMemberRow.owner member;
     StructMemberRow.nested := StructMemberRow.nested member;
     StructMemberRow.name := n;
     StructMemberRow.type_name := StructMemberRow.type_name member;
     StructMemberRow.line := StructMemberRow.line member;
     StructMemberRow.byte_size := StructMemberRow.byte_size member;
     StructMemberRow.bit_size := StructMemberRow.bit_size member;
     StructMemberRow.byte_offset := StructMemberRow.byte_offset member;
     StructMemberRow.bit_offset := StructMemberRow.bit_offset member;
     StructMemberRow.flags := StructMemberRow.flags member;
     StructMemberRow.array_items := StructMemberRow.array_items member |}.

Definition set_member_nested (member : StructMemberRow.t) (n : option Z) : StructMemberRow.t :=
  {| StructMemberRow.id := StructMemberRow.id member;
     StructMemberRow.owner := StructMemberRow.owner member;
     StructMemberRow.nested := n;
     StructMemberRow.name := StructMemberRow.name member;
     StructMemberRow.type_name := StructMemberRow.type_name member;
     StructMemberRow.line := StructMemberRow.line member;
     StructMemberRow.byte_size := StructMemberRow.byte_size member;
     StructMemberRow.bit_size := StructMemberRow.bit_size member;
     StructMemberRow.byte_offset := StructMemberRow.byte_offset member;
     StructMemberRow.bit_offset := StructMemberRow.bit_offset member;
     StructMemberRow.flags := StructMemberRow.flags member;
     StructMemberRow.array_items := StructMemberRow.array_items member |}.

Local Open Scope scraper_scope.

(** [VisitMemberType]; [VisitCommon] is the recursive call. The updated
    [member] is returned with the id of the nested type. *)
Definition VisitMemberType (VisitCommon : DIE -> Z -> M (option Z))
  (die : DIE) (member : StructMemberRow.t) : M (StructMemberRow.t * option Z) :=
  let member_type := GetTypeInfo die in
  let member :=
    {| StructMemberRow.id := StructMemberRow.id member;
       StructMemberRow.owner := StructMemberRow.owner member;
       StructMemberRow.nested := StructMemberRow.nested member;
       StructMemberRow.name := StructMemberRow.name member;
       StructMemberRow.type_name := ti_type_name member_type;
       StructMemberRow.line := StructMemberRow.line member;
       StructMemberRow.byte_size := ti_byte_size member_type;
       StructMemberRow.bit_size := StructMemberRow.bit_size member;
       StructMemberRow.byte_offset := StructMemberRow.byte_offset member;
       StructMemberRow.bit_offset := StructMemberRow.bit_offset member;
       StructMemberRow.flags := ti_flags member_type;
       StructMemberRow.array_items := ti_array_items member_type |} in
  if Flags.test (StructMemberRow.flags member) Flags.record_type_mask then
    let flags :=
      if Flags.test (StructMemberRow.flags member) Flags.kTypeIsStruct
      then Flags.or Flags.kTypeNone Flags.kTypeIsStruct
      else if Flags.test (StructMemberRow.flags member) Flags.kTypeIsUnion
      then Flags.or Flags.kTypeNone Flags.kTypeIsUnion
      else if Flags.test (StructMemberRow.flags member) Flags.kTypeIsClass
      then Flags.or Flags.kTypeNone Flags.kTypeIsClass
      else Flags.kTypeNone in
    nested <- VisitCommon (ti_type_die member_type) flags ;;
    let member := set_member_nested member nested in
    match nested with
    | Some n =>
        if (n =? 0)%Z then assert_fail "Structure type ID must be set"
        else ret (member, nested)
    | None => assert_fail "Structure type ID must be set"
    end
  else ret (member, None).

(** [VisitMember]. *)
Definition VisitMember (VisitCommon : DIE -> Z -> M (option Z))
  (die : DIE) (row : StructTypeRow.t) (member_index : Z) : M StructMemberRow.t :=
  let member := StructMemberRow.default in
  let member :=
    {| StructMemberRow.id := StructMemberRow.id member;
       StructMemberRow.owner := StructTypeRow.id row;
       StructMemberRow.nested := StructMemberRow.nested member;
       StructMemberRow.name := StructMemberRow.name member;
       StructMemberRow.type_name := StructMemberRow.type_name member;
       StructMemberRow.line := getDeclLine die;
       StructMemberRow.byte_size := StructMemberRow.byte_size member;
       StructMemberRow.bit_size := StructMemberRow.bit_size member;
       StructMemberRow.byte_offset := StructMemberRow.byte_offset member;
       StructMemberRow.bit_offset := StructMemberRow.bit_offset member;
       StructMemberRow.flags := StructMemberRow.flags member;
       StructMemberRow.array_items := StructMemberRow.array_items member |} in
  if (StructMemberRow.owner member =? 0)%Z then
    LOG Log.kError ("Can not visit member of " ++ quoted (StructTypeRow.name row) ++
                    " with invalid owner ID") ;;;
    throw "Invalid member owner ID"
  else
    mid <- GetStructMemberId ;;
    let member :=
      {| StructMemberRow.id := mid;
         StructMemberRow.owner := StructMemberRow.owner member;
         StructMemberRow.nested := StructMemberRow.nested member;
         StructMemberRow.name := StructMemberRow.name member;
         StructMemberRow.type_name := StructMemberRow.type_name member;
         StructMemberRow.line := StructMemberRow.line member;
         StructMemberRow.byte_size := StructMemberRow.byte_size member;
         StructMemberRow.bit_size := StructMemberRow.bit_size member;
         StructMemberRow.byte_offset := StructMemberRow.byte_offset member;
         StructMemberRow.bit_offset := StructMemberRow.bit_offset member;
         StructMemberRow.flags := StructMemberRow.flags member;
         StructMemberRow.array_items := StructMemberRow.array_items member |} in
    let member_type_die := referenced_type die in
    r <- VisitMemberType VisitCommon member_type_die member ;;
    let member := VisitMember_offsets die (fst r) in
    ret (set_member_name member (VisitMember_name die row member_index member)).

(** The loop over [die.children()] in [VisitCommon]: [members] is
    [e.members] so far. *)
Fixpoint visit_children (VisitCommon : DIE -> Z -> M (option Z))
  (cs : list DIE) (row : StructTypeRow.t) (member_index : Z)
  (members : list StructMemberRow.t) : M (list StructMemberRow.t) :=
  match cs with
  | [] => ret members
  | child :: cs' =>
      match getTag child with
      | DW_TAG_member =>
          m <- VisitMember VisitCommon child row member_index ;;
          visit_children VisitCommon cs' row (member_index + 1) (members ++ [m])%list
      | _ => visit_children VisitCommon cs' row member_index members
      end
  end.

(** [VisitCommon]. The recursion through [VisitMember] and
    [VisitMemberType] follows type references, so it is bounded by [fuel]. *)
Fixpoint VisitCommon (fuel : nat) (die : DIE) (kind : Z) : M (option Z) :=
  match fuel with
  | O => out_of_fuel
  | S fuel' =>
      if DW_AT_declaration die then ret None
      else if DW_AT_specification die then
        LOG Log.kError "DW_AT_specification unsupported" ;;;
        throw "Unsupported"
      else
        let flags := Flags.or (StructTypeRow.flags StructTypeRow.default) kind in
        match DW_AT_byte_size die with
        | None =>
            LOG Log.kWarn ("Missing struct size for DIE @ " ++ HexString.of_Z (getOffset die)) ;;;
            ret None
        | Some size =>
            let file := getDeclFile die in
            let file :=
              match strip_prefix_ with
              | Some prefix => fs_relative file prefix
              | None => file
              end in
            let name_flags :=
              match DW_AT_name die with
              | Some n => (n, flags)
              | None => (AnonymousName die strip_prefix_, Flags.or flags Flags.kTypeIsAnonymous)
              end in
            let row id :=
              {| StructTypeRow.id := id;
                 StructTypeRow.file := file;
                 StructTypeRow.line := getDeclLine die;
                 StructTypeRow.name := fst name_flags;
                 StructTypeRow.size := size;
                 StructTypeRow.flags := snd name_flags;
                 StructTypeRow.has_imprecise :=
                   StructTypeRow.has_imprecise StructTypeRow.default |} in
            let key : StructKey := (fst name_flags, file, getDeclLine die) in
            entry <- find_entry key ;;
            match entry with
            | None =>
                id <- GetStructTypeId ;;
                members <- visit_children (VisitCommon fuel') (children die) (row id) 0 [] ;;
                let e :=
                  {| StructTypeEntry.data := row id;
                     StructTypeEntry.members := members;
                     StructTypeEntry.flattened_layout :=
                       StructTypeEntry.flattened_layout StructTypeEntry.default;
                     StructTypeEntry.skip_postprocess :=
                       StructTypeEntry.skip_postprocess StructTypeEntry.default |} in
                insert_entry key e ;;;
                ret (Some id)
            | Some e => ret (Some (StructTypeRow.id (StructTypeEntry.data e)))
            end
        end
  end.

End Visit.

(* ===================================================================== *)
(** * Flattening: [FindSubobjectCapabilities] *)
(* ===================================================================== *)

(** [std::string::substr(pos)]: throws [std::out_of_range] past the end. *)
Definition substr (s : string) (pos : nat) : Outcome string :=
  if (pos <=? String.length s)%nat
  then Returned (String.substring pos (String.length s - pos) s)
  else Thrown "basic_string::substr".

(** [entry.flattened_layout.push_back(row)] / [emplace_back]. *)
Definition push_back (entry : StructTypeEntry.t) (row : MemberBoundsRow.t)
  : StructTypeEntry.t :=
  {| StructTypeEntry.data := StructTypeEntry.data entry;
     StructTypeEntry.members := StructTypeEntry.members entry;
     StructTypeEntry.flattened_layout :=
       (StructTypeEntry.flattened_layout entry ++ [row])%list;
     StructTypeEntry.skip_postprocess := StructTypeEntry.skip_postprocess entry |}.

(** [v.back()] of a vector known to be non-empty; [d] is never used then. *)
Definition back (v : list MemberBoundsRow.t) (d : MemberBoundsRow.t) : MemberBoundsRow.t :=
  List.last v d.

(** [v.empty()]. *)
Definition empty {A} (v : list A) : bool :=
  match v with [] => true | _ => false end.

Section Flatten.

(** The capability encoder of the DWARF source, not among the sources:
    [dwsrc_->FindRepresentableRange] and [dwsrc_->FindRequiredPrecision]. *)
Variable FindRepresentableRange : Z -> Z -> Z * Z.
Variable FindRequiredPrecision : Z -> Z -> Z.

(** [entry_by_id]: the entries of [struct_type_map_], reached by pointer. *)
Variable entry_by_id : gmap Z StructTypeEntry.t.

(** [req_length] for a member. *)
Definition req_length (m : StructMemberRow.t) : Z :=
  U64.add (StructMemberRow.byte_size m)
          (if bool_of_opt (StructMemberRow.bit_size m) then 1 else 0).

(** The row [mb_row] the loop body builds for member [m]; [owner] is
    [entry.data.id]. *)
Definition member_row (owner : Z) (m : StructMemberRow.t) (offset : Z) (prefix : string)
  : MemberBoundsRow.t :=
  let row_offset := U64.add offset (StructMemberRow.byte_offset m) in
  let range := FindRepresentableRange row_offset (req_length m) in
  let base := fst range in
  let length := snd range in
  {| MemberBoundsRow.owner := owner;
     MemberBoundsRow.member := StructMemberRow.id m;
     MemberBoundsRow.name := prefix ++ "::" ++ StructMemberRow.name m;
     MemberBoundsRow.offset := row_offset;
     MemberBoundsRow.base := base;
     MemberBoundsRow.top := U64.add base length;
     MemberBoundsRow.is_imprecise :=
       (negb (row_offset =? base)%Z || negb (length =? req_length m)%Z)%bool;
     MemberBoundsRow.required_precision :=
       FindRequiredPrecision row_offset (req_length m) |}.

(** The statement [if (mb_row.is_imprecise) { entry.data.has_imprecise; }]:
    under the condition the field is read and the value discarded; nothing
    is assigned, so the entry after the statement is the entry before it. *)
Definition read_has_imprecise (cond : bool) (entry : StructTypeEntry.t)
  : StructTypeEntry.t :=
  let discarded :=
    if cond then Some (StructTypeRow.has_imprecise (StructTypeEntry.data entry))
    else None in
  entry.

(** "Merge the nested flat layout back here": each row of the nested
    layout is appended to [entry.flattened_layout]; [flat_curr] is declared
    [auto], so it is a copy of the appended element, and the new offset and
    name are written to that copy, which dies at the end of the iteration. *)
Fixpoint merge_nested (rows : list MemberBoundsRow.t) (offset : Z) (prefix : string)
  (nested_name : string) (entry : StructTypeEntry.t) : Outcome StructTypeEntry.t :=
  match rows with
  | [] => Returned entry
  | flat_nested :: rows' =>
      let entry := push_back entry flat_nested in
      let flat_curr := back (StructTypeEntry.flattened_layout entry) flat_nested in
      match substr (MemberBoundsRow.name flat_curr) (String.length nested_name) with
      | Returned tail =>
          let flat_curr :=
            {| MemberBoundsRow.owner := MemberBoundsRow.owner flat_curr;
               MemberBoundsRow.member := MemberBoundsRow.member flat_curr;
               MemberBoundsRow.name := prefix ++ tail;
               MemberBoundsRow.offset := U64.add (MemberBoundsRow.offset flat_curr) offset;
               MemberBoundsRow.base := MemberBoundsRow.base flat_curr;
               MemberBoundsRow.top := MemberBoundsRow.top flat_curr;
               MemberBoundsRow.is_imprecise := MemberBoundsRow.is_imprecise flat_curr;
               MemberBoundsRow.required_precision :=
                 MemberBoundsRow.required_precision flat_curr |} in
          let _ := flat_curr in
          merge_nested rows' offset prefix nested_name entry
      | Thrown w => Thrown w
      | AssertionFailed w => AssertionFailed w
      | OutOfFuel => OutOfFuel
      end
  end.

(** The loop [for (auto m : curr.members)] of the lambda [FlattenedLayout];
    [FlattenedLayout] is the recursive call and [entry] the object captured
    by reference, the only one the lambda writes to. *)
Fixpoint flatten_members
  (FlattenedLayout : StructTypeEntry.t -> Z -> string -> StructTypeEntry.t ->
                     Outcome StructTypeEntry.t)
  (ms : list StructMemberRow.t) (offset : Z) (prefix : string)
  (entry : StructTypeEntry.t) : Outcome StructTypeEntry.t :=
  match ms with
  | [] => Returned entry
  | m :: ms' =>
      let mb_row :=
        member_row (StructTypeRow.id (StructTypeEntry.data entry)) m offset prefix in
      let entry := read_has_imprecise (MemberBoundsRow.is_imprecise mb_row) entry in
      match StructMemberRow.nested m with
      | Some nid =>
          if (nid =? 0)%Z then AssertionFailed "Missing member nested ID" else
          match entry_by_id !! nid with
          | None => AssertionFailed "Entry is not in the compilation unit?"
          | Some nested =>
              let scanned :=
                if empty (StructTypeEntry.flattened_layout nested)
                then FlattenedLayout nested 0
                       (StructTypeRow.name (StructTypeEntry.data nested)) entry
                else Returned entry in
              match scanned with
              | Returned entry =>
                  match merge_nested (StructTypeEntry.flattened_layout nested) offset prefix
                          (StructTypeRow.name (StructTypeEntry.data nested)) entry with
                  | Returned entry =>
                      flatten_members FlattenedLayout ms' offset prefix (push_back entry mb_row)
                  | failure => failure
                  end
              | failure => failure
              end
          end
      | None =>
          flatten_members FlattenedLayout ms' offset prefix (push_back entry mb_row)
      end
  end.

(** The lambda [FlattenedLayout(curr, offset, prefix)]. *)
Fixpoint FlattenedLayout (fuel : nat) (curr : StructTypeEntry.t) (offset : Z)
  (prefix : string) (entry : StructTypeEntry.t) : Outcome StructTypeEntry.t :=
  match fuel with
  | O => OutOfFuel
  | S fuel' =>
      flatten_members (FlattenedLayout fuel') (StructTypeEntry.members curr)
        offset prefix entry
  end.

(** [FindSubobjectCapabilities(entry_by_id, entry)]. Its one caller,
    [EndUnit], passes [p.second] of a loop variable declared [auto p]: a
    copy of the map's element. So [entry] is an object of its own, and the
    entries [entry_by_id] points to are only read. The outermost call of
    the lambda has [curr] and [entry] the same object, whose [members] the
    lambda never writes. *)
Definition FindSubobjectCapabilities (fuel : nat) (entry : StructTypeEntry.t)
  : Outcome StructTypeEntry.t :=
  if negb (empty (StructTypeEntry.flattened_layout entry)) then Returned entry
  else FlattenedLayout fuel entry 0 (StructTypeRow.name (StructTypeEntry.data entry)) entry.

(** [EndUnit], the loop "generate the flattened layout":
    [for (auto p : struct_type_map_)]. The copy [p] that
    [FindSubobjectCapabilities] fills is destroyed when the iteration ends;
    the result is [struct_type_map_] after the loop. *)
Fixpoint EndUnit_flatten (fuel : nat) (ps : list (StructKey * StructTypeEntry.t))
  (map_ : gmap StructKey StructTypeEntry.t)
  : Outcome (gmap StructKey StructTypeEntry.t) :=
  match ps with
  | [] => Returned map_
  | p :: ps' =>
      if StructTypeEntry.skip_postprocess (snd p) then EndUnit_flatten fuel ps' map_
      else
        match FindSubobjectCapabilities fuel (snd p) with
        | Returned p_second => let _ := p_second in EndUnit_flatten fuel ps' map_
        | Thrown w => Thrown w
        | AssertionFailed w => AssertionFailed w
        | OutOfFuel => OutOfFuel
        end
  end.

End Flatten.

(* ===================================================================== *)
(** * The relational store: schema, view and queries of [InitSchema] *)
(* ===================================================================== *)

Module Sql.

(** The [LIKE] operator of the storage engine (SQLite: [likeFunc],
    [patternCompare], [sqlite3Utf8Read]), with the default case folding and
    no [ESCAPE]. Both operands are read as zero-terminated UTF-8 texts,
    character by character. In the pattern [%] matches any run of
    characters and [_] any one character; other characters match
    themselves, ASCII letters without regard to case. *)
Definition tolower (c : ascii) : ascii :=
  let n := nat_of_ascii c in
  if ((65 <=? n)%nat && (n <=? 90)%nat)%bool then ascii_of_nat (n + 32) else c.

(** The value of a byte of a text. *)
Definition byte (c : ascii) : Z := Z.of_N (N_of_ascii c).

(** A UTF-8 continuation byte, [0x80..0xBF]. *)
Definition is_continuation (n : Z) : bool := (Z.land n 192 =? 128)%Z.

(** [sqlite3Utf8Trans1[lead - 0xC0]]: the payload bits of a lead byte
    [0xC0..0xFF]. *)
Definition sqlite3Utf8Trans1 (lead : Z) : Z :=
  if (lead <? 224)%Z then lead - 192
  else if (lead <? 240)%Z then lead - 224
  else if (lead <? 248)%Z then lead - 240
  else if (lead <? 252)%Z then lead - 248
  else if (lead <? 254)%Z then lead - 252
  else 0.

(** The character [sqlite3Utf8Read] returns for a lead byte and its
    continuation bytes whose bits add up to [c]: U+FFFD when [c] is below
    0x80, a surrogate, 0xFFFE or 0xFFFF. *)
Definition utf8_value (c : Z) : Z :=
  if ((c <? 128)%Z || (Z.land c 4294965248 =? 55296)%Z ||
      (Z.land c 4294967294 =? 65534)%Z)%bool
  then 65533 else c.

(** The characters of the text [z], [sqlite3Utf8Read] applied until the
    zero byte or the end. A byte below 0xC0 is a character by itself. A
    byte from 0xC0 on starts a character that takes in every continuation
    byte that follows, six bits each, in 32-bit unsigned arithmetic;
    [unfinished] holds the bits of such a character while its continuation
    bytes are read. *)
Fixpoint utf8_read (unfinished : option Z) (z : string) : list Z :=
  match z with
  | EmptyString =>
      match unfinished with Some c => [utf8_value c] | None => [] end
  | String b z' =>
      let n := byte b in
      let next :=
        if (n =? 0)%Z then []
        else if (n <? 192)%Z then n :: utf8_read None z'
        else utf8_read (Some (sqlite3Utf8Trans1 n)) z' in
      match unfinished with
      | Some c =>
          if is_continuation n
          then utf8_read (Some ((Z.shiftl c 6 + Z.land 63 n) mod 2 ^ 32)) z'
          else utf8_value c :: next
      | None => next
      end
  end.

(** [sqlite3Tolower], used on characters below 0x80 only. *)
Definition sqlite3Tolower (c : Z) : Z :=
  if ((65 <=? c)%Z && (c <=? 90)%Z)%bool then c + 32 else c.

(** One pattern character other than [%] against one character of the
    text: equal, or equal ASCII letters but for case, or the pattern
    character is [_]. *)
Definition matches (c c2 : Z) : bool :=
  ((c =? c2)%Z ||
   ((c <? 128)%Z && (c2 <? 128)%Z && (sqlite3Tolower c =? sqlite3Tolower c2)%Z) ||
   (c =? 95)%Z)%bool.

(** [patternCompare] on the characters of the pattern and of the text. *)
Fixpoint patternCompare (pattern s : list Z) : bool :=
  match pattern with
  | [] => match s with [] => true | _ => false end
  | c :: pattern' =>
      if (c =? 37)%Z then
        (fix any (s : list Z) : bool :=
           (patternCompare pattern' s ||
            match s with [] => false | _ :: s' => any s' end)%bool) s
      else
        match s with
        | [] => false
        | c2 :: s' => (matches c c2 && patternCompare pattern' s')%bool
        end
  end.

(** The longest pattern [likeFunc] accepts, in bytes. *)
Definition SQLITE_MAX_LIKE_PATTERN_LENGTH : Z := 50000.

(** [s LIKE pattern]; [None] when the engine refuses the pattern ("LIKE or
    GLOB pattern too complex"). The names the scraper stores come from
    zero-terminated strings and hold no zero byte; a text that holds one is
    read as the engine's [LIKE] reads it, up to that byte. *)
Definition like (pattern s : string) : option bool :=
  if (SQLITE_MAX_LIKE_PATTERN_LENGTH <? Z.of_nat (String.length pattern))%Z then None
  else Some (patternCompare (utf8_read None pattern) (utf8_read None s)).

(** [IIF(x, a, b)] on a nullable integer: NULL and 0 are false. *)
Definition IIF {A} (x : option Z) (a b : A) : A :=
  match x with
  | Some v => if (v =? 0)%Z then b else a
  | None => b
  end.

(** A row of [member_bounds]: the [id] column and the bound columns. *)
Record MemberBounds := mkMemberBounds { id : Z; row : MemberBoundsRow.t }.

(** The four tables. Integer columns hold the values bound to them.
    [subobject_alias] has no column besides its primary key [(subobj,
    alias)] and no row order of its own: it is the set of its pairs. *)
Record Db := mkDb {
  struct_type : list StructTypeRow.t;
  struct_member : list StructMemberRow.t;
  member_bounds : list MemberBounds;
  subobject_alias : gset (Z * Z)
}.

(** A row of the common table expression [impl] of view [alias_bounds]. *)
Record Impl := mkImpl {
  owner : Z;
  impl_id : Z;
  alias_id : Z;
  name : string;
  alias_name : string;
  base : Z;
  check_base : Z;
  top : Z;
  check_top : Z
}.

(** [FROM member_bounds alb JOIN struct_member alm ON alb.member = alm.id
     JOIN member_bounds mb ON mb.owner = alb.owner AND mb.id != alb.id].
    The engine is free in the order in which it yields the rows; the order
    of this list reaches no table, since the rows selected from it end in
    the set [subobject_alias]. *)
Definition impl (db : Db) : list Impl :=
  flat_map (fun alb =>
    flat_map (fun alm =>
      map (fun mb =>
             {| owner := MemberBoundsRow.owner (row mb);
                impl_id := id mb;
                alias_id := id alb;
                name := MemberBoundsRow.name (row mb);
                alias_name := MemberBoundsRow.name (row alb);
                base := MemberBoundsRow.base (row mb);
                check_base := MemberBoundsRow.offset (row alb);
                top := MemberBoundsRow.top (row mb);
                check_top :=
                  MemberBoundsRow.offset (row alb) + StructMemberRow.byte_size alm +
                  IIF (StructMemberRow.bit_size alm) 1 0 |})
          (List.filter
             (fun mb =>
                ((MemberBoundsRow.owner (row mb) =? MemberBoundsRow.owner (row alb))%Z &&
                 negb (id mb =? id alb)%Z)%bool)
             (member_bounds db)))
      (List.filter
         (fun alm => (MemberBoundsRow.member (row alb) =? StructMemberRow.id alm)%Z)
         (struct_member db)))
    (member_bounds db).

Definition pattern_too_complex : string := "LIKE or GLOB pattern too complex".

(** The [WHERE] clause of the view on one row: the three terms are tested
    in the order written and the test stops at the first one that is false;
    a [LIKE] that is reached with a pattern too long fails the statement. *)
Definition alias_where (r : Impl) : Outcome bool :=
  if negb (Z.max (check_base r) (base r) <? Z.min (check_top r) (top r))%Z
  then Returned false
  else
    match like (alias_name r ++ "%") (name r) with
    | None => Thrown pattern_too_complex
    | Some true => Returned false
    | Some false =>
        match like (name r ++ "%") (alias_name r) with
        | None => Thrown pattern_too_complex
        | Some matched => Returned (negb matched)
        end
    end.

(** The rows of [rows] that pass the [WHERE] clause. *)
Fixpoint select_where (rows : list Impl) : Outcome (list Impl) :=
  match rows with
  | [] => Returned []
  | r :: rows' =>
      match alias_where r with
      | Returned keep =>
          match select_where rows' with
          | Returned kept => Returned (if keep then r :: kept else kept)
          | failure => failure
          end
      | Thrown w => Thrown w
      | AssertionFailed w => AssertionFailed w
      | OutOfFuel => OutOfFuel
      end
  end.

(** View [alias_bounds] as [find_imprecise_alias_query_] reads it,
    [(owner, subobj_id, alias_id)] for [ab.owner = @owner], from the rows
    [rows] of [impl]: the engine tests the owner before the terms of the
    view, so rows of other owners never reach a [LIKE]. *)
Definition alias_bounds_of (rows : list Impl) (owner_id : Z)
  : Outcome (list (Z * Z * Z)) :=
  match select_where (List.filter (fun r => (owner r =? owner_id)%Z) rows) with
  | Returned rows => Returned (map (fun r => (owner r, impl_id r, alias_id r)) rows)
  | Thrown w => Thrown w
  | AssertionFailed w => AssertionFailed w
  | OutOfFuel => OutOfFuel
  end.

Definition alias_bounds (db : Db) (owner_id : Z) : Outcome (list (Z * Z * Z)) :=
  alias_bounds_of (impl db) owner_id.

(** Inserting rows into [subobject_alias], whose primary key is the pair:
    a pair already present is a constraint violation. *)
Fixpoint insert_alias (rows : list (Z * Z)) (table : gset (Z * Z))
  : Outcome (gset (Z * Z)) :=
  match rows with
  | [] => Returned table
  | r :: rows' =>
      if bool_decide (r ∈ table)
      then Thrown "UNIQUE constraint failed: subobject_alias.subobj, subobject_alias.alias"
      else insert_alias rows' ({[ r ]} ∪ table)
  end.

(** [find_imprecise_alias_query_] bound to [@owner] and run, the engine
    yielding the rows of [impl] in the order of [rows]. A statement that
    fails leaves the table as it was. The text of the exception is made by
    the storage manager, which is not among the sources; the engine's
    message stands for it. When a pattern is too long and a pair is already
    present, which of the two failures the engine meets first depends on
    its row order; here it is the pattern. *)
Definition find_imprecise_alias_of (rows : list Impl) (db : Db) (owner_id : Z)
  : Outcome Db :=
  match alias_bounds_of rows owner_id with
  | Returned selected =>
      match insert_alias (map (fun r => (snd (fst r), snd r)) selected)
              (subobject_alias db) with
      | Returned table =>
          Returned {| struct_type := struct_type db; struct_member := struct_member db;
                      member_bounds := member_bounds db; subobject_alias := table |}
      | Thrown w => Thrown w
      | AssertionFailed w => AssertionFailed w
      | OutOfFuel => OutOfFuel
      end
  | Thrown w => Thrown w
  | AssertionFailed w => AssertionFailed w
  | OutOfFuel => OutOfFuel
  end.

Definition find_imprecise_alias (db : Db) (owner_id : Z) : Outcome Db :=
  find_imprecise_alias_of (impl db) db owner_id.


(** [InsertMemberBounds]: the statement names no [id], so the engine gives
    the row the next one after the largest in the table. *)
Definition next_id (table : list MemberBounds) : Z :=
  fold_right (fun r acc => Z.max (id r) acc) 0 table + 1.

Definition InsertMemberBounds (db : Db) (r : MemberBoundsRow.t) : Db :=
  {| struct_type := struct_type db; struct_member := struct_member db;
     member_bounds :=
       (member_bounds db ++ [ {| id := next_id (member_bounds db); row := r |} ])%list;
     subobject_alias := subobject_alias db |}.

(** [EndUnit], the second transaction, over the entries of
    [struct_type_map_] in iteration order. *)
Fixpoint EndUnit_bounds (entries : list StructTypeEntry.t) (db : Db) : Outcome Db :=
  match entries with
  | [] => Returned db
  | entry :: entries' =>
      if StructTypeEntry.skip_postprocess entry then EndUnit_bounds entries' db
      else
        let db := fold_left InsertMemberBounds (StructTypeEntry.flattened_layout entry) db in
        match find_imprecise_alias db (StructTypeRow.id (StructTypeEntry.data entry)) with
        | Returned db => EndUnit_bounds entries' db
        | failure => failure
        end
  end.

(** The unique constraints of [struct_type]: the primary key [id] and
    [UNIQUE(name, file, line)]. *)
Definition struct_type_conflict (r new : StructTypeRow.t) : bool :=
  ((StructTypeRow.id r =? StructTypeRow.id new)%Z ||
   (String.eqb (StructTypeRow.name r) (StructTypeRow.name new) &&
    String.eqb (StructTypeRow.file r) (StructTypeRow.file new) &&
    (StructTypeRow.line r =? StructTypeRow.line new)%Z))%bool.

(** [select_struct_query_]. *)
Definition select_struct (db : Db) (file : string) (line : Z) (name : string)
  : list StructTypeRow.t :=
  List.filter
    (fun r =>
       (String.eqb (StructTypeRow.file r) file && (StructTypeRow.line r =? line)%Z &&
        String.eqb (StructTypeRow.name r) name)%bool)
    (struct_type db).

Definition set_id (r : StructTypeRow.t) (i : Z) : StructTypeRow.t :=
  {| StructTypeRow.id := i; StructTypeRow.file := StructTypeRow.file r;
     StructTypeRow.line := StructTypeRow.line r; StructTypeRow.name := StructTypeRow.name r;
     StructTypeRow.size := StructTypeRow.size r; StructTypeRow.flags := StructTypeRow.flags r;
     StructTypeRow.has_imprecise := StructTypeRow.has_imprecise r |}.

(** [InsertStructLayout]: [new_entry], the row with its id fixed up, and
    the store. [insert_struct_query_] binds six columns; [has_imprecise] is
    not one of them and takes the column's default, 0. *)
Definition InsertStructLayout (db : Db) (r : StructTypeRow.t)
  : bool * StructTypeRow.t * Db :=
  if existsb (fun old => struct_type_conflict old r) (struct_type db) then
    let r := fold_left (fun r found => set_id r (StructTypeRow.id found))
                       (select_struct db (StructTypeRow.file r) (StructTypeRow.line r)
                                      (StructTypeRow.name r)) r in
    (false, r, db)
  else
    let stored :=
      {| StructTypeRow.id := StructTypeRow.id r; StructTypeRow.file := StructTypeRow.file r;
         StructTypeRow.line := StructTypeRow.line r; StructTypeRow.name := StructTypeRow.name r;
         StructTypeRow.size := StructTypeRow.size r; StructTypeRow.flags := StructTypeRow.flags r;
         StructTypeRow.has_imprecise := false |} in
    (true, set_id r (StructTypeRow.id stored),
     {| struct_type := (struct_type db ++ [stored])%list;
        struct_member := struct_member db;
        member_bounds := member_bounds db;
        subobject_alias := subobject_alias db |}).

End Sql.

(* ===================================================================== *)
(** * The statements of the specification, and sample inputs *)
(* ===================================================================== *)

(** The bit position of a member as the specification words it: [P] is
    [DW_AT_data_member_location * 8] plus [DW_AT_data_bit_offset] when
    present, and a legacy [DW_AT_bit_offset] is folded into it according to
    the byte order. [byte_size] is the size of the storage unit. *)
Definition spec_bit_position (little_endian : bool) (die : DIE) (byte_size : Z) : Z :=
  let P := value_or (DW_AT_data_member_location die) 0 * 8 +
           value_or (DW_AT_data_bit_offset die) 0 in
  match DW_AT_bit_offset die with
  | Some bit_offset =>
      if little_endian
      then P + byte_size * 8 - (bit_offset + value_or (DW_AT_bit_size die) 0)
      else P + bit_offset
  | None => P
  end.

(** The required length as the specification words it: one extra byte
    exactly when [bit_size] is greater than zero. *)
Definition spec_required_length (m : StructMemberRow.t) : Z :=
  StructMemberRow.byte_size m +
  (if (0 <? value_or (StructMemberRow.bit_size m) 0)%Z then 1 else 0).

(** [a] is a prefix of [b]. *)
Definition is_prefix (a b : string) : Prop := exists t, b = a ++ t.

(** The members [FindSubobjectCapabilities] can reach: those of [entry]
    and of the entries [entry_by_id] points to. *)
Definition known_member (entry_by_id : gmap Z StructTypeEntry.t)
  (entry : StructTypeEntry.t) (m : StructMemberRow.t) : Prop :=
  In m (StructTypeEntry.members entry) \/
  exists nid e, entry_by_id !! nid = Some e /\ In m (StructTypeEntry.members e).

(** The encoder returns [uint64_t] values. *)
Definition encoder_u64 (FindRepresentableRange : Z -> Z -> Z * Z) : Prop :=
  forall b l, U64.in_range (fst (FindRepresentableRange b l)) /\
              U64.in_range (snd (FindRepresentableRange b l)).

(** [entry] with [rows] appended to its flattened layout. *)
Definition append_rows (entry : StructTypeEntry.t) (rows : list MemberBoundsRow.t)
  : StructTypeEntry.t :=
  {| StructTypeEntry.data := StructTypeEntry.data entry;
     StructTypeEntry.members := StructTypeEntry.members entry;
     StructTypeEntry.flattened_layout :=
       (StructTypeEntry.flattened_layout entry ++ rows)%list;
     StructTypeEntry.skip_postprocess := StructTypeEntry.skip_postprocess entry |}.

(** A row consistent with its member: it belongs to a member [m] reached by
    the flattening, and with [required_length] the byte size of [m] plus one
    exactly when [m] has a bit size, the row is flagged imprecise iff its
    base differs from its offset or its extent from [required_length]
    (64-bit arithmetic throughout). *)
Definition row_bounds_consistent (entry_by_id : gmap Z StructTypeEntry.t)
  (entry : StructTypeEntry.t) (row : MemberBoundsRow.t) : Prop :=
  exists m,
    known_member entry_by_id entry m /\
    MemberBoundsRow.member row = StructMemberRow.id m /\
    let required_length :=
      U64.wrap (StructMemberRow.byte_size m +
                match StructMemberRow.bit_size m with Some _ => 1 | None => 0 end) in
    (MemberBoundsRow.is_imprecise row = true <->
     MemberBoundsRow.base row <> MemberBoundsRow.offset row \/
     U64.sub (MemberBoundsRow.top row) (MemberBoundsRow.base row) <> required_length).

(** The hypothesis of C5 on the encoder's answer [rep] to the request
    [(offset, length)]: its base is at most the offset and its interval
    [[rep_base, rep_base + rep_length)] covers [[offset, offset + length)]. *)
Definition covers (rep : Z * Z) (offset length : Z) : Prop :=
  fst rep <= offset /\
  offset + length <= fst rep + snd rep.

(** The answer's interval ends below 2^64, so that the 64-bit sum of its
    base and length is its end. *)
Definition ends_in_range (rep : Z * Z) : Prop :=
  fst rep + snd rep < U64.modulus.

(** A row bounded by the encoder's answer: it belongs to a member [m]
    reached by the flattening and, if the encoder's answer for its offset
    and required length covers the request and ends below 2^64, then the
    stored base is at most the offset and the stored top at least the
    offset plus the required length. *)
Definition row_covers_member (rr : Z -> Z -> Z * Z)
  (entry_by_id : gmap Z StructTypeEntry.t)
  (entry : StructTypeEntry.t) (row : MemberBoundsRow.t) : Prop :=
  exists m,
    known_member entry_by_id entry m /\
    MemberBoundsRow.member row = StructMemberRow.id m /\
    (covers (rr (MemberBoundsRow.offset row) (req_length m))
            (MemberBoundsRow.offset row) (req_length m) ->
     ends_in_range (rr (MemberBoundsRow.offset row) (req_length m)) ->
     MemberBoundsRow.base row <= MemberBoundsRow.offset row /\
     MemberBoundsRow.top row >= MemberBoundsRow.offset row + req_length m).

(** [t] begins with a UTF-8 continuation byte: a text that ends where [t]
    begins ends inside a character. *)
Definition continues_character (t : string) : bool :=
  match t with
  | String b _ => Sql.is_continuation (Sql.byte b)
  | EmptyString => false
  end.

(** A text holds a zero byte: the engine reads it up to there. *)
Fixpoint has_zero (z : string) : bool :=
  match z with
  | EmptyString => false
  | String b z' => ((Sql.byte b =? 0)%Z || has_zero z')%bool
  end.

(** [a] is a prefix of [b] that does not end inside a character of [b]. *)
Definition is_whole_prefix (a b : string) : Prop :=
  exists t, b = a ++ t /\ continues_character t = false.

(** A well-formed pair [(subobj, alias)] of [subobject_alias]: the two
    ids are those of rows of [member_bounds] with the same owner, [m] is the
    [struct_member] row of the alias, the byte ranges overlap, and neither
    name is a prefix of the other ending on a character of it. *)
Definition alias_pair_ok (db : Sql.Db) (p : Z * Z) : Prop :=
  exists subobj alias m,
    In subobj (Sql.member_bounds db) /\
    In alias (Sql.member_bounds db) /\
    In m (Sql.struct_member db) /\
    p = (Sql.id subobj, Sql.id alias) /\
    StructMemberRow.id m = MemberBoundsRow.member (Sql.row alias) /\
    MemberBoundsRow.owner (Sql.row subobj) = MemberBoundsRow.owner (Sql.row alias) /\
    Sql.id subobj <> Sql.id alias /\
    Z.max (MemberBoundsRow.base (Sql.row subobj)) (MemberBoundsRow.offset (Sql.row alias)) <
    Z.min (MemberBoundsRow.top (Sql.row subobj))
          (MemberBoundsRow.offset (Sql.row alias) + StructMemberRow.byte_size m +
           (if (value_or (StructMemberRow.bit_size m) 0 =? 0)%Z then 0 else 1)) /\
    ~ is_whole_prefix (MemberBoundsRow.name (Sql.row subobj))
                      (MemberBoundsRow.name (Sql.row alias)) /\
    ~ is_whole_prefix (MemberBoundsRow.name (Sql.row alias))
                      (MemberBoundsRow.name (Sql.row subobj)).

(** [f] only appends rows to [entry], each satisfying [P], when the
    members of [curr] satisfy [Q]. *)
Definition appends_good_rows (Q : StructMemberRow.t -> Prop)
  (P : MemberBoundsRow.t -> Prop)
  (f : StructTypeEntry.t -> Z -> string -> StructTypeEntry.t -> Outcome StructTypeEntry.t)
  : Prop :=
  forall curr offset prefix entry e',
    Forall Q (StructTypeEntry.members curr) ->
    f curr offset prefix entry = Returned e' ->
    exists rows, Forall P rows /\ e' = append_rows entry rows.

Module Sample.

Definition member_die (off : Z) (nm : string) (loc : Z) : DIE :=
  {| getOffset := off; getTag := DW_TAG_member; DW_AT_declaration := false;
     DW_AT_specification := false; DW_AT_byte_size := None; DW_AT_name := Some nm;
     getDeclFile := "/src/foo.c"; getDeclLine := 1; DW_AT_bit_size := None;
     DW_AT_data_member_location := Some loc; DW_AT_data_bit_offset := None;
     DW_AT_bit_offset := None; children := [] |}.

Definition record_die (off : Z) (nm : string) (size : Z) (cs : list DIE) : DIE :=
  {| getOffset := off; getTag := DW_TAG_structure_type; DW_AT_declaration := false;
     DW_AT_specification := false; DW_AT_byte_size := Some size; DW_AT_name := Some nm;
     getDeclFile := "/src/foo.c"; getDeclLine := 1; DW_AT_bit_size := None;
     DW_AT_data_member_location := None; DW_AT_data_bit_offset := None;
     DW_AT_bit_offset := None; children := cs |}.

Definition int_die : DIE :=
  {| getOffset := 100; getTag := DW_TAG_other; DW_AT_declaration := false;
     DW_AT_specification := false; DW_AT_byte_size := Some 4; DW_AT_name := Some "int";
     getDeclFile := ""; getDeclLine := 0; DW_AT_bit_size := None;
     DW_AT_data_member_location := None; DW_AT_data_bit_offset := None;
     DW_AT_bit_offset := None; children := [] |}.

(** Scenario D: [struct Outer { struct Inner { int a; int b; } inner; int c; };] *)
Definition Inner_die : DIE :=
  record_die 50 "Inner" 8 [member_die 51 "a" 0; member_die 52 "b" 4].
Definition Outer_die : DIE :=
  record_die 10 "Outer" 12 [member_die 11 "inner" 0; member_die 12 "c" 8].

(** The same with the members swapped:
    [struct Outer2 { int c; struct Inner inner; };], [inner] at offset 4. *)
Definition Outer2_die : DIE :=
  record_die 20 "Outer2" 12 [member_die 21 "c" 0; member_die 22 "inner" 4].

(** A record entry that names a specification and has no byte size, and a
    record [Holder] with one member of that type. *)
Definition specification_die : DIE :=
  {| getOffset := 80; getTag := DW_TAG_structure_type; DW_AT_declaration := false;
     DW_AT_specification := true; DW_AT_byte_size := None; DW_AT_name := Some "Spec";
     getDeclFile := "/src/foo.c"; getDeclLine := 7; DW_AT_bit_size := None;
     DW_AT_data_member_location := None; DW_AT_data_bit_offset := None;
     DW_AT_bit_offset := None; children := [] |}.
Definition Holder_die : DIE :=
  record_die 30 "Holder" 8 [member_die 31 "s" 0].

(** [DW_AT_type] of the member entries above, and the resolver's answer
    for the types. *)
Definition referenced_type (d : DIE) : DIE :=
  if ((getOffset d =? 11) || (getOffset d =? 22))%Z then Inner_die
  else if (getOffset d =? 31)%Z then specification_die
  else int_die.

Definition GetTypeInfo (d : DIE) : TypeInfo :=
  if (getOffset d =? 50)%Z
  then mkTypeInfo "Inner" 8 Flags.kTypeIsStruct None Inner_die
  else if (getOffset d =? 80)%Z
  then mkTypeInfo "Spec" 8 Flags.kTypeIsStruct None specification_die
  else mkTypeInfo "int" 4 Flags.kTypeNone None int_die.

(** [VisitCommon] on a little-endian target with no prefix to strip. *)
Definition visit : nat -> DIE -> Z -> M (option Z) :=
  VisitCommon true None (fun file _ => file) (fun _ _ => "<anon>")
    GetTypeInfo referenced_type.

Definition member (id owner : Z) (nested : option Z) (name type_name : string)
  (byte_size byte_offset flags : Z) : StructMemberRow.t :=
  {| StructMemberRow.id := id; StructMemberRow.owner := owner;
     StructMemberRow.nested := nested; StructMemberRow.name := name;
     StructMemberRow.type_name := type_name; StructMemberRow.line := 1;
     StructMemberRow.byte_size := byte_size; StructMemberRow.bit_size := None;
     StructMemberRow.byte_offset := byte_offset; StructMemberRow.bit_offset := None;
     StructMemberRow.flags := flags; StructMemberRow.array_items := None |}.

Definition entry (id : Z) (name : string) (size : Z) (ms : list StructMemberRow.t)
  : StructTypeEntry.t :=
  {| StructTypeEntry.data :=
       {| StructTypeRow.id := id; StructTypeRow.file := "/src/foo.c";
          StructTypeRow.line := 1; StructTypeRow.name := name;
          StructTypeRow.size := size; StructTypeRow.flags := Flags.kTypeIsStruct;
          StructTypeRow.has_imprecise := false |};
     StructTypeEntry.members := ms;
     StructTypeEntry.flattened_layout := [];
     StructTypeEntry.skip_postprocess := false |}.

(** The entries [VisitCommon] builds for scenario D in a fresh process. *)
Definition Inner_entry : StructTypeEntry.t :=
  entry 3 "Inner" 8 [member 3 3 None "a" "int" 4 0 0; member 4 3 None "b" "int" 4 4 0].
Definition Outer_entry : StructTypeEntry.t :=
  entry 2 "Outer" 12
    [member 2 2 (Some 3) "inner" "Inner" 8 0 Flags.kTypeIsStruct;
     member 5 2 None "c" "int" 4 8 0].
Definition Outer2_entry : StructTypeEntry.t :=
  entry 2 "Outer2" 12
    [member 2 2 None "c" "int" 4 0 0;
     member 3 2 (Some 3) "inner" "Inner" 8 4 Flags.kTypeIsStruct].
(** For [Outer2] the nested type is visited after [c]: its members get the
    ids 4 and 5. *)
Definition Inner_entry2 : StructTypeEntry.t :=
  entry 3 "Inner" 8 [member 4 3 None "a" "int" 4 0 0; member 5 3 None "b" "int" 4 4 0].

(** [entry_by_id] for the two units. *)
Definition by_id_D : gmap Z StructTypeEntry.t :=
  <[2 := Outer_entry]> (<[3 := Inner_entry]> ∅).
Definition by_id_D2 : gmap Z StructTypeEntry.t :=
  <[2 := Outer2_entry]> (<[3 := Inner_entry2]> ∅).

(** Scenario C:
    [struct U { char pre[0x0FFF]; int misaligned; char post[0x1002]; };] *)
Definition misaligned : StructMemberRow.t := member 3 2 None "misaligned" "int" 4 4095 0.
Definition U_entry : StructTypeEntry.t :=
  entry 2 "U" 8197
    [member 2 2 None "pre" "char [4095]" 4095 0 Flags.kTypeIsArray;
     misaligned;
     member 4 2 None "post" "char [4098]" 4098 4099 Flags.kTypeIsArray].

(** A bit-field described the DWARF 2 way: [unsigned f : 3;] in the 4-byte
    storage unit at byte 4, with [DW_AT_bit_offset] counted from the most
    significant bit of the unit. *)
Definition legacy_bitfield_die : DIE :=
  {| getOffset := 60; getTag := DW_TAG_member; DW_AT_declaration := false;
     DW_AT_specification := false; DW_AT_byte_size := Some 4; DW_AT_name := Some "f";
     getDeclFile := "/src/foo.c"; getDeclLine := 3; DW_AT_bit_size := Some 3;
     DW_AT_data_member_location := Some 4; DW_AT_data_bit_offset := None;
     DW_AT_bit_offset := Some 29; children := [] |}.

(** The same bit-field described the DWARF 4 way: bit 5 of the unit. *)
Definition data_bitfield_die : DIE :=
  {| getOffset := 61; getTag := DW_TAG_member; DW_AT_declaration := false;
     DW_AT_specification := false; DW_AT_byte_size := Some 4; DW_AT_name := Some "f";
     getDeclFile := "/src/foo.c"; getDeclLine := 3; DW_AT_bit_size := Some 3;
     DW_AT_data_member_location := Some 4; DW_AT_data_bit_offset := Some 5;
     DW_AT_bit_offset := None; children := [] |}.

(** A record entry that is a declaration and names a specification. *)
Definition declared_specification_die : DIE :=
  {| getOffset := 70; getTag := DW_TAG_structure_type; DW_AT_declaration := true;
     DW_AT_specification := true; DW_AT_byte_size := None; DW_AT_name := Some "Fwd";
     getDeclFile := "/src/foo.c"; getDeclLine := 5; DW_AT_bit_size := None;
     DW_AT_data_member_location := None; DW_AT_data_bit_offset := None;
     DW_AT_bit_offset := None; children := [] |}.

(** A member whose [DW_AT_bit_size] is present with value 0. *)
Definition zero_width : StructMemberRow.t :=
  {| StructMemberRow.id := 7; StructMemberRow.owner := 2;
     StructMemberRow.nested := None; StructMemberRow.name := "z";
     StructMemberRow.type_name := "int"; StructMemberRow.line := 1;
     StructMemberRow.byte_size := 4; StructMemberRow.bit_size := Some 0;
     StructMemberRow.byte_offset := 0; StructMemberRow.bit_offset := Some 0;
     StructMemberRow.flags := 0; StructMemberRow.array_items := None |}.

(** A bit-field of 3 bits in a 4-byte unit, and the records [Z], with the
    zero-width member alone, and [F], with both. *)
Definition three_bits : StructMemberRow.t :=
  {| StructMemberRow.id := 6; StructMemberRow.owner := 2;
     StructMemberRow.nested := None; StructMemberRow.name := "f";
     StructMemberRow.type_name := "unsigned"; StructMemberRow.line := 1;
     StructMemberRow.byte_size := 4; StructMemberRow.bit_size := Some 3;
     StructMemberRow.byte_offset := 4; StructMemberRow.bit_offset := Some 5;
     StructMemberRow.flags := 0; StructMemberRow.array_items := None |}.
Definition Z_entry : StructTypeEntry.t := entry 2 "Z" 4 [zero_width].
Definition F_entry : StructTypeEntry.t := entry 2 "F" 8 [zero_width; three_bits].

(** An encoder that answers every request exactly. *)
Definition exact_range (base length : Z) : Z * Z := (base, length).

(** A record that reaches the end of the address space: its member [last]
    takes the bytes from [2^64 - 6] to [2^64 - 3]. *)
Definition last_member : StructMemberRow.t :=
  member 2 2 None "last" "int" 4 (2 ^ 64 - 6) 0.
Definition High_entry : StructTypeEntry.t := entry 2 "High" (2 ^ 64 - 2) [last_member].

(** An encoder for the examples: bounds rounded outward to multiples of 8,
    computed in 64-bit arithmetic; and one that asks for no precision. *)
Definition granule_range (base length : Z) : Z * Z :=
  let rep_base := base - base mod 8 in
  let rep_top := base + length + (- (base + length)) mod 8 in
  (U64.wrap rep_base, U64.wrap (rep_top - rep_base)).
Definition no_precision (base length : Z) : Z := 0.

(** A store for the alias query: [union V { uint64_t w; struct { uint32_t
    lo; uint32_t hi; } s; };] with the three rows [V::w], [V::s::lo] and
    [V::s], whose byte ranges overlap. *)
Definition bounds (owner member : Z) (name : string) (offset base top : Z)
  : MemberBoundsRow.t :=
  {| MemberBoundsRow.owner := owner; MemberBoundsRow.member := member;
     MemberBoundsRow.name := name; MemberBoundsRow.offset := offset;
     MemberBoundsRow.base := base; MemberBoundsRow.top := top;
     MemberBoundsRow.is_imprecise := false; MemberBoundsRow.required_precision := 0 |}.

Definition V_entry : StructTypeEntry.t :=
  {| StructTypeEntry.data :=
       {| StructTypeRow.id := 2; StructTypeRow.file := "/src/foo.c";
          StructTypeRow.line := 1; StructTypeRow.name := "V";
          StructTypeRow.size := 8; StructTypeRow.flags := Flags.kTypeIsUnion;
          StructTypeRow.has_imprecise := false |};
     StructTypeEntry.members := [];
     StructTypeEntry.flattened_layout :=
       [bounds 2 2 "V::w" 0 0 8; bounds 2 4 "V::s::lo" 0 0 4; bounds 2 3 "V::s" 0 0 8];
     StructTypeEntry.skip_postprocess := false |}.

(** Two names that differ in their last character, [é] in UTF-8 (bytes
    0xC3 0xA9): the second is the first cut after the byte 0xC3. *)
Definition cafe : string :=
  "W::caf" ++ String (ascii_of_nat 195) (String (ascii_of_nat 169) "").


Definition V_db : Sql.Db :=
  {| Sql.struct_type := [StructTypeEntry.data V_entry];
     Sql.struct_member :=
       [member 2 2 None "w" "uint64_t" 8 0 0;
        member 3 2 (Some 3) "s" "<anon>" 8 0 Flags.kTypeIsStruct;
        member 4 3 None "lo" "uint32_t" 4 0 0];
     Sql.member_bounds := [];
     Sql.subobject_alias := ∅ |}.

End Sample.

(* ===================================================================== *)
(** * Further notions used by the properties of the scraper *)
(* ===================================================================== *)

(** The key under which [VisitCommon] looks a record entry up:
    [(row.name, row.file, row.line)] as computed before the lookup. *)
Definition die_key (strip_prefix_ : option string)
  (fs_relative : string -> string -> string)
  (AnonymousName : DIE -> option string -> string) (die : DIE) : StructKey :=
  (match DW_AT_name die with
   | Some n => n
   | None => AnonymousName die strip_prefix_
   end,
   match strip_prefix_ with
   | Some prefix => fs_relative (getDeclFile die) prefix
   | None => getDeclFile die
   end,
   getDeclLine die).

(** The three guards of [VisitCommon] let the entry through. *)
Definition passes_guards (die : DIE) : Prop :=
  DW_AT_declaration die = false /\ DW_AT_specification die = false /\
  DW_AT_byte_size die <> None.

(** The key of an entry, read off its row. *)
Definition entry_key (e : StructTypeEntry.t) : StructKey :=
  (StructTypeRow.name (StructTypeEntry.data e),
   StructTypeRow.file (StructTypeEntry.data e),
   StructTypeRow.line (StructTypeEntry.data e)).

(** The kinds the three tag visitors pass to [VisitCommon]. *)
Definition record_kind (kind : Z) : Prop :=
  kind = Flags.kTypeIsStruct \/ kind = Flags.kTypeIsUnion \/ kind = Flags.kTypeIsClass.

(** The flags of a record row: one kind, with or without the anonymous
    bit, and no other bit. *)
Definition record_flags (flags : Z) : Prop :=
  exists kind, record_kind kind /\
               (flags = kind \/ flags = Flags.or kind Flags.kTypeIsAnonymous).

(** An entry as [VisitCommon] records it: filed under the key of its row,
    flagged with one record kind, its members owned by it, not yet
    flattened, not marked to be skipped. *)
Definition entry_wf (k : StructKey) (e : StructTypeEntry.t) : Prop :=
  entry_key e = k /\
  record_flags (StructTypeRow.flags (StructTypeEntry.data e)) /\
  Forall (fun m => StructMemberRow.owner m = StructTypeRow.id (StructTypeEntry.data e))
         (StructTypeEntry.members e) /\
  StructTypeEntry.flattened_layout e = [] /\
  StructTypeEntry.skip_postprocess e = false.

Definition map_wf (s : Scraper) : Prop :=
  forall k e, struct_type_map_ s !! k = Some e -> entry_wf k e.

(** [s'] has every entry of [s], unchanged, and the log of [s] followed by
    further messages. *)
Definition grows (s s' : Scraper) : Prop :=
  struct_type_map_ s ⊆ struct_type_map_ s' /\
  exists l, emitted s' = (emitted s ++ l)%list.

(** A computation that only adds to the state and keeps [map_wf]. *)
Definition keeps_state {A} (m : M A) : Prop :=
  forall s, grows s (snd (m s)) /\ (map_wf s -> map_wf (snd (m s))).

(** What [VisitMember] takes from the member entry [child] of the record
    row [row]. *)
Definition collected (row : StructTypeRow.t) (child : DIE) (m : StructMemberRow.t) : Prop :=
  StructMemberRow.owner m = StructTypeRow.id row /\
  StructMemberRow.line m = getDeclLine child /\
  StructMemberRow.bit_size m = DW_AT_bit_size child /\
  (forall n, DW_AT_name child = Some n -> StructMemberRow.name m = n).

Definition is_member (d : DIE) : bool :=
  match getTag d with DW_TAG_member => true | _ => false end.

(** No entry of [entry_by_id] has been flattened yet: the state in which
    [EndUnit] calls [FindSubobjectCapabilities]. *)
Definition unscanned (entry_by_id : gmap Z StructTypeEntry.t) : Prop :=
  forall nid e, entry_by_id !! nid = Some e -> StructTypeEntry.flattened_layout e = [].

Section Expected.

Variable FindRepresentableRange : Z -> Z -> Z * Z.
Variable FindRequiredPrecision : Z -> Z -> Z.
Variable entry_by_id : gmap Z StructTypeEntry.t.

(** The rows the lambda appends for the members [ms], as a list: for each
    member the rows of its nested type, if it has one, then its own row.
    [nested_rows] stands for the recursive call. *)
Fixpoint expected_members (nested_rows : StructTypeEntry.t -> list MemberBoundsRow.t)
  (owner : Z) (ms : list StructMemberRow.t) (offset : Z) (prefix : string)
  : list MemberBoundsRow.t :=
  match ms with
  | [] => []
  | m :: ms' =>
      (match StructMemberRow.nested m with
       | Some nid =>
           match entry_by_id !! nid with
           | Some nested => nested_rows nested
           | None => []
           end
       | None => []
       end ++
       [member_row FindRepresentableRange FindRequiredPrecision owner m offset prefix] ++
       expected_members nested_rows owner ms' offset prefix)%list
  end.

(** The rows appended by [FlattenedLayout(curr, offset, prefix)] when no
    entry has been flattened before: the nested rows are built with offset
    0 and the nested type's name as prefix. *)
Fixpoint expected_layout (fuel : nat) (owner : Z) (curr : StructTypeEntry.t)
  (offset : Z) (prefix : string) : list MemberBoundsRow.t :=
  match fuel with
  | O => []
  | S fuel' =>
      expected_members
        (fun nested =>
           expected_layout fuel' owner nested 0
             (StructTypeRow.name (StructTypeEntry.data nested)))
        owner (StructTypeEntry.members curr) offset prefix
  end.

(** Every nested id met from [curr] is non-zero and resolves in
    [entry_by_id], and the nesting is less than [fuel] deep. *)
Fixpoint nests_within (fuel : nat) (curr : StructTypeEntry.t) : Prop :=
  match fuel with
  | O => False
  | S fuel' =>
      Forall
        (fun m =>
           match StructMemberRow.nested m with
           | None => True
           | Some nid =>
               nid <> 0 /\
               exists nested, entry_by_id !! nid = Some nested /\
                              nests_within fuel' nested
           end)
        (StructTypeEntry.members curr)
  end.

End Expected.

(* ===================================================================== *)
(** * [BeginUnit], the first loop of [EndUnit], and [Join] *)
(* ===================================================================== *)

(** What [unit_die.find(DW_AT_name)] and [getAsCString] yield for the
    entry of a compilation unit: no attribute, an attribute that is not a
    string, or the name. *)
Inductive NameAttr := NameAbsent | NameNotString | NameString (name : string).

(** [BeginUnit]. *)
Definition BeginUnit (at_name : NameAttr) : M unit :=
  match at_name with
  | NameString unit_name => LOG Log.kDebug ("Enter compilation unit " ++ unit_name)
  | NameNotString =>
      bind (LOG Log.kError "Invalid compilation unit, can't extract AT_name")
           (fun _ => throw "Invalid compliation unit")
  | NameAbsent =>
      bind (LOG Log.kError "Invalid compliation unit, missing AT_name")
           (fun _ => throw "Invalid compliation unit")
  end.

(** [unordered_map::insert]: no effect when the key is taken. *)
Definition insert_if_absent {V} (k : Z) (v : V) (m : gmap Z V) : gmap Z V :=
  match m !! k with
  | Some _ => m
  | None => <[k := v]> m
  end.

Definition set_data_skip (entry : StructTypeEntry.t) (data : StructTypeRow.t)
  (skip : bool) : StructTypeEntry.t :=
  {| StructTypeEntry.data := data;
     StructTypeEntry.members := StructTypeEntry.members entry;
     StructTypeEntry.flattened_layout := StructTypeEntry.flattened_layout entry;
     StructTypeEntry.skip_postprocess := skip |}.

(** What the first loop of [EndUnit] builds: the entries as it leaves
    them, the store, [remap_id] and [entry_by_id]. Since [entry_by_id] holds
    pointers to the elements of [struct_type_map_], an element is named here
    by its key. *)
Record Inserted := mkInserted {
  entries : list (StructKey * StructTypeEntry.t);
  store : Sql.Db;
  remap_id : gmap Z Z;
  entry_by_id : gmap Z StructKey
}.

(** [EndUnit], the loop "Insert structure layouts first", over the
    elements of [struct_type_map_] in iteration order; [acc] is the state
    reached so far. Log messages and statistics are left out. *)
Fixpoint EndUnit_structs (ps : list (StructKey * StructTypeEntry.t)) (acc : Inserted)
  : Outcome Inserted :=
  match ps with
  | [] => Returned acc
  | (key, entry) :: ps' =>
      let local_id := StructTypeRow.id (StructTypeEntry.data entry) in
      if (local_id =? 0)%Z then AssertionFailed "Unassigned local ID" else
      let '(new_entry, data, db) :=
        Sql.InsertStructLayout (store acc) (StructTypeEntry.data entry) in
      if (StructTypeRow.id data =? 0)%Z then AssertionFailed "Unassigned global ID" else
      let remap := if new_entry then remap_id acc
                   else insert_if_absent local_id (StructTypeRow.id data) (remap_id acc) in
      let entry := set_data_skip entry data
                     (if new_entry then StructTypeEntry.skip_postprocess entry else true) in
      EndUnit_structs ps'
        {| entries := (entries acc ++ [(key, entry)])%list;
           store := db;
           remap_id := remap;
           entry_by_id := insert_if_absent (StructTypeRow.id data) key (entry_by_id acc) |}
  end.

(** The uniqueness key of a [struct_type] row. *)
Definition row_key (r : StructTypeRow.t) : StructKey :=
  (StructTypeRow.name r, StructTypeRow.file r, StructTypeRow.line r).

(** The constraints of table [struct_type]: ids and keys are unique. *)
Definition struct_type_wf (table : list StructTypeRow.t) : Prop :=
  NoDup (map StructTypeRow.id table) /\ NoDup (map row_key table).

(** How the first loop of [EndUnit] leaves the entry [p], as [p'], with
    respect to the table [table] reached at the end. *)
Definition inserted_entry (table : list StructTypeRow.t)
  (p p' : StructKey * StructTypeEntry.t) : Prop :=
  fst p' = fst p /\
  StructTypeEntry.members (snd p') = StructTypeEntry.members (snd p) /\
  row_key (StructTypeEntry.data (snd p')) = row_key (StructTypeEntry.data (snd p)) /\
  (forall x, In x table ->
             row_key x = row_key (StructTypeEntry.data (snd p)) ->
             StructTypeRow.id x = StructTypeRow.id (StructTypeEntry.data (snd p'))) /\
  (StructTypeEntry.skip_postprocess (snd p') = false ->
   StructTypeEntry.skip_postprocess (snd p) = false /\
   StructTypeRow.id (StructTypeEntry.data (snd p')) =
     StructTypeRow.id (StructTypeEntry.data (snd p)) /\
   exists x, In x table /\
             StructTypeRow.id x = StructTypeRow.id (StructTypeEntry.data (snd p)) /\
             row_key x = row_key (StructTypeEntry.data (snd p))).

(** [Join<std::string, S>] of [utils.hh]: the empty string for an empty
    vector, otherwise [std::accumulate] from the second element on, starting
    from the first, with [left + S + right]. *)
Definition Join (S : ascii) (vec : list string) : string :=
  match vec with
  | [] => ""
  | first :: rest => fold_left (fun left right => left ++ String S right) rest first
  end.

(** [Join<T, S>] for an unsigned integer type [T]: the elements after the
    first go through [std::to_string]; the first is assigned to the
    [std::string] [acc] as it is, which selects [operator=(char)]. *)
Definition Join_unsigned (S : ascii) (vec : list Z) : string :=
  match vec with
  | [] => ""
  | first :: rest =>
      fold_left (fun left right => left ++ String S (pretty right)) rest
        (String (ascii_of_N (Z.to_N (first mod 256))) "")
  end.

(** The pieces of [s] between occurrences of [S]. *)
Fixpoint split_on (S : ascii) (s : string) : list string :=
  match s with
  | EmptyString => [""]
  | String c s' =>
      if Ascii.eqb c S then "" :: split_on S s'
      else match split_on S s' with
           | [] => [String c ""]
           | piece :: pieces => String c piece :: pieces
           end
  end.

Fixpoint contains (S : ascii) (s : string) : bool :=
  match s with
  | EmptyString => false
  | String c s' => (Ascii.eqb c S || contains S s')%bool
  end.

(** A character of a plain name: ASCII, not zero, and not one of the
    [LIKE] wildcards [%] and [_]. *)
Definition plain_char (c : ascii) : bool :=
  ((0 <? Sql.byte c)%Z && (Sql.byte c <? 128)%Z &&
   negb (Sql.byte c =? 37)%Z && negb (Sql.byte c =? 95)%Z)%bool.

Fixpoint plain_name (s : string) : bool :=
  match s with
  | EmptyString => true
  | String c s' => (plain_char c && plain_name s')%bool
  end.

(** A name made of such characters, short enough to be a [LIKE] pattern
    with [%] appended; and a name in lower case. *)
Definition plain (s : string) : Prop :=
  plain_name s = true /\
  Z.of_nat (String.length s) < Sql.SQLITE_MAX_LIKE_PATTERN_LENGTH.

(** The 256 bytes. *)
Definition all_ascii : list ascii := map ascii_of_nat (seq 0 256).

(** A plain pattern character [c] against the first byte [d] of a text:
    when [d] is zero or starts a multi-byte character the two differ even
    in lower case; otherwise [d] is a character, which [c] matches exactly
    when the two are equal in lower case. *)
Definition plain_char_agrees (c d : ascii) : bool :=
  if plain_char c then
    if ((Sql.byte d =? 0)%Z || (192 <=? Sql.byte d)%Z)%bool
    then negb (Ascii.eqb (Sql.tolower c) (Sql.tolower d))
    else Bool.eqb (Sql.matches (Sql.byte c) (Sql.byte d))
                  (Ascii.eqb (Sql.tolower c) (Sql.tolower d))
  else true.

Fixpoint lower (s : string) : string :=
  match s with
  | EmptyString => EmptyString
  | String c s' => String (Sql.tolower c) (lower s')
  end.

(** The lines a use of [LOG(level) << text] writes through [logger]. *)
Definition log_lines (thr : string) (logger : Log.Logger) (lvl : Log.LogLevel)
  (text : string) : list Log.Output :=
  match Log.LOG 2 lvl (fun stream => stream ++ text) with
  | Some (_, messages) => flat_map (Log.Emit thr logger) messages
  | None => []
  end.

(** [EndUnit] from the loop that generates the flattened layouts to the
    end of the second transaction; the elements of [struct_type_map_] are
    taken in one iteration order for both loops. *)
Definition EndUnit_postprocess (FindRepresentableRange : Z -> Z -> Z * Z)
  (FindRequiredPrecision : Z -> Z -> Z) (entry_by_id : gmap Z StructTypeEntry.t)
  (fuel : nat) (map_ : gmap StructKey StructTypeEntry.t) (db : Sql.Db)
  : Outcome Sql.Db :=
  match EndUnit_flatten FindRepresentableRange FindRequiredPrecision entry_by_id fuel
          (map_to_list map_) map_ with
  | Returned map' => Sql.EndUnit_bounds (map snd (map_to_list map')) db
  | Thrown w => Thrown w
  | AssertionFailed w => AssertionFailed w
  | OutOfFuel => OutOfFuel
  end.

(** The map of scenario D after [VisitCommon]. *)
Definition map_D : gmap StructKey StructTypeEntry.t :=
  <[("Outer", "/src/foo.c", 1) := Sample.Outer_entry]>
    (<[("Inner", "/src/foo.c", 1) := Sample.Inner_entry]> ∅).

(** Further sample inputs. *)
Module More.

(** A member entry without [DW_AT_name]. *)
Definition anonymous_member_die : DIE :=
  {| getOffset := 90; getTag := DW_TAG_member; DW_AT_declaration := false;
     DW_AT_specification := false; DW_AT_byte_size := None; DW_AT_name := None;
     getDeclFile := "/src/foo.c"; getDeclLine := 1; DW_AT_bit_size := None;
     DW_AT_data_member_location := Some 0; DW_AT_data_bit_offset := None;
     DW_AT_bit_offset := None; children := [] |}.

(** An entry one of whose members names the entry itself as its nested
    type, and the [entry_by_id] that holds it. *)
Definition Loop_entry : StructTypeEntry.t :=
  Sample.entry 2 "Loop" 8
    [Sample.member 2 2 None "n" "int" 4 0 0;
     Sample.member 3 2 (Some 2) "self" "Loop" 8 0 Flags.kTypeIsStruct].
Definition by_id_Loop : gmap Z StructTypeEntry.t := <[2 := Loop_entry]> ∅.

(** A [struct_type] table with one row, and rows to insert: the same
    definition seen again with another local id, and another type whose local
    id is the id of the stored row. *)
Definition S_row (id : Z) (name : string) : StructTypeRow.t :=
  {| StructTypeRow.id := id; StructTypeRow.file := "/src/foo.c";
     StructTypeRow.line := 1; StructTypeRow.name := name; StructTypeRow.size := 8;
     StructTypeRow.flags := Flags.kTypeIsStruct; StructTypeRow.has_imprecise := false |}.
Definition one_type_db : Sql.Db := Sql.mkDb [S_row 2 "S"] [] [] ∅.

(** The elements of [struct_type_map_] for a unit that defines [S] again,
    under local id 7, and a new type [T] under local id 8. *)
Definition S_again : StructKey * StructTypeEntry.t :=
  (("S", "/src/foo.c", 1),
   {| StructTypeEntry.data := S_row 7 "S"; StructTypeEntry.members := [];
      StructTypeEntry.flattened_layout := []; StructTypeEntry.skip_postprocess := false |}).
Definition T_new : StructKey * StructTypeEntry.t :=
  (("T", "/src/foo.c", 1),
   {| StructTypeEntry.data := S_row 8 "T"; StructTypeEntry.members := [];
      StructTypeEntry.flattened_layout := []; StructTypeEntry.skip_postprocess := false |}).

(** A [member_bounds] table with two rows that alias each other. *)
Definition two_bounds_db : Sql.Db :=
  {| Sql.struct_type := [S_row 2 "S"];
     Sql.struct_member :=
       [Sample.member 2 2 None "a" "int" 4 0 0; Sample.member 3 2 None "b" "int" 4 2 0];
     Sql.member_bounds :=
       [Sql.mkMemberBounds 1 (Sample.bounds 2 2 "S::a" 0 0 8);
        Sql.mkMemberBounds 2 (Sample.bounds 2 3 "S::b" 2 0 8)];
     Sql.subobject_alias := ∅ |}.

End More.

(* ===================================================================== *)
(** * Properties of the logger *)
(* ===================================================================== *)

Lemma operator_bool_calls_consumed (n : nat) (h : Log.LogAs) :
  Log.consumed_flag_ h = true ->
  Log.operator_bool_calls n h = repeat true n.
Proof.
  revert h; induction n as [|n IH]; intros h Hc; [reflexivity|].
  cbn [Log.operator_bool_calls Log.operator_bool repeat].
  rewrite Hc. f_equal. apply IH. reflexivity.
Qed.

(** C9. The private constructor ignores its argument: a logger made by
    [Get] or [Default] filters at [kInfo]; until [SetLevel] is called (sinks
    may be attached in between) [Emit] writes nothing for a [kDebug] or
    [kTrace] message; and the logger made by [Get] has no sink. *)
Theorem logger_created_at_info :
  (forall lvl, Log.level_ (Log.Logger_ctor lvl) = Log.kInfo) /\
  Log.level_ (Log.Get None) = Log.kInfo /\
  Log.level_ (Log.Default None) = Log.kInfo /\
  Log.sinks_ (Log.Get None) = [] /\
  (forall thr (extra : list Log.Sink) text,
      let attached l := fold_left Log.AddSink extra l in
      Log.Emit thr (attached (Log.Get None)) (Log.mkLogMessage Log.kDebug text) = [] /\
      Log.Emit thr (attached (Log.Get None)) (Log.mkLogMessage Log.kTrace text) = [] /\
      Log.Emit thr (attached (Log.Default None)) (Log.mkLogMessage Log.kDebug text) = [] /\
      Log.Emit thr (attached (Log.Default None)) (Log.mkLogMessage Log.kTrace text) = []).
Proof.
  assert (Hlvl : forall extra l, Log.level_ (fold_left Log.AddSink extra l) = Log.level_ l).
  { induction extra as [|s extra IH]; intros l; [reflexivity|].
    cbn [fold_left]. rewrite IH. reflexivity. }
  repeat split; try reflexivity;
    unfold Log.Emit; rewrite Hlvl; reflexivity.
Qed.

(** C10. On a fresh handle [operator bool] answers [false] once and [true]
    ever after, so the body of the [LOG] loop runs exactly once, and the
    destructor passes exactly one message, the assembled text at the
    requested level, to [Logger::Emit]. *)
Theorem LOG_runs_body_once (lvl : Log.LogLevel) (body : string -> string) (n : nat) :
  Log.operator_bool_calls (S n) (Log.NewStream lvl) = false :: repeat true n /\
  Log.LOG (S (S n)) lvl body =
    Some (1%nat, [ Log.mkLogMessage lvl (body "") ]).
Proof.
  split.
  - cbn [Log.operator_bool_calls Log.operator_bool Log.NewStream Log.consumed_flag_].
    f_equal. apply operator_bool_calls_consumed. reflexivity.
  - reflexivity.
Qed.

(* ===================================================================== *)
(** * Properties of [VisitCommon] and [VisitMember] *)
(* ===================================================================== *)

(** Visiting scenario D in a fresh process builds the two sample entries
    and returns the id of [Outer]. *)
Lemma visit_scenario_D :
  let r := Sample.visit 2 Sample.Outer_die Flags.kTypeIsStruct Scraper_init in
  fst r = Returned (Some 2) /\
  struct_type_map_ (snd r) !! ("Outer", "/src/foo.c", 1) = Some Sample.Outer_entry /\
  struct_type_map_ (snd r) !! ("Inner", "/src/foo.c", 1) = Some Sample.Inner_entry.
Proof. vm_compute. repeat split; reflexivity. Qed.

Lemma visit_Outer2 :
  let r := Sample.visit 2 Sample.Outer2_die Flags.kTypeIsStruct Scraper_init in
  fst r = Returned (Some 2) /\
  struct_type_map_ (snd r) !! ("Outer2", "/src/foo.c", 1) = Some Sample.Outer2_entry /\
  struct_type_map_ (snd r) !! ("Inner", "/src/foo.c", 1) = Some Sample.Inner_entry2.
Proof. vm_compute. repeat split; reflexivity. Qed.

(** C3. For the DWARF 2 bit-field [Sample.legacy_bitfield_die] (storage
    unit of 4 bytes at byte 4, 3 bits, [DW_AT_bit_offset] 29) the
    specification's position is bit 32 on a little-endian target and bit 61
    on a big-endian one, that is byte 4 and byte 7; [VisitMember] stores
    byte 0, bit 0 and byte 3, bit 5: the member location is left out of the
    sum whenever [DW_AT_data_bit_offset] is absent. *)
Theorem legacy_bit_offset_drops_member_location :
  let die := Sample.legacy_bitfield_die in
  let le := VisitMember_offsets true die StructMemberRow.default in
  let be := VisitMember_offsets false die StructMemberRow.default in
  spec_bit_position true die 4 = 32 /\
  spec_bit_position false die 4 = 61 /\
  StructMemberRow.byte_offset le = 0 /\
  StructMemberRow.bit_offset le = Some 0 /\
  StructMemberRow.byte_offset be = 3 /\
  StructMemberRow.bit_offset be = Some 5 /\
  StructMemberRow.byte_offset le <> spec_bit_position true die 4 / 8 /\
  StructMemberRow.byte_offset be <> spec_bit_position false die 4 / 8.
Proof. vm_compute. repeat split; congruence. Qed.

(** With a legacy [DW_AT_bit_offset] and no [DW_AT_data_bit_offset] the
    stored offsets do not depend on [DW_AT_data_member_location] at all. *)
Lemma legacy_bit_offset_ignores_location (le : bool) (die : DIE) (loc : option Z)
  (member : StructMemberRow.t) :
  DW_AT_data_bit_offset die = None ->
  DW_AT_bit_offset die <> None ->
  VisitMember_offsets le die member =
  VisitMember_offsets le
    {| getOffset := getOffset die; getTag := getTag die;
       DW_AT_declaration := DW_AT_declaration die;
       DW_AT_specification := DW_AT_specification die;
       DW_AT_byte_size := DW_AT_byte_size die; DW_AT_name := DW_AT_name die;
       getDeclFile := getDeclFile die; getDeclLine := getDeclLine die;
       DW_AT_bit_size := DW_AT_bit_size die;
       DW_AT_data_member_location := loc;
       DW_AT_data_bit_offset := DW_AT_data_bit_offset die;
       DW_AT_bit_offset := DW_AT_bit_offset die; children := children die |}
    member.
Proof.
  intros Hdbo Hold. unfold VisitMember_offsets. cbn [DW_AT_data_bit_offset
    DW_AT_bit_offset DW_AT_byte_size DW_AT_bit_size DW_AT_data_member_location].
  rewrite Hdbo. destruct (DW_AT_bit_offset die) as [old|]; [|congruence].
  destruct le; reflexivity.
Qed.

(** X4. When [DW_AT_data_bit_offset] is present the stored offsets are those
    of the specification's position, as long as it fits 64 bits. *)
Lemma bit_offset_with_data_bit_offset (le : bool) (die : DIE) (member : StructMemberRow.t) :
  let byte_size := value_or (DW_AT_byte_size die) (StructMemberRow.byte_size member) in
  let P := spec_bit_position le die byte_size in
  let stored := VisitMember_offsets le die member in
  is_Some (DW_AT_data_bit_offset die) ->
  U64.in_range (value_or (DW_AT_data_member_location die) 0 * 8) ->
  U64.in_range (value_or (DW_AT_data_member_location die) 0 * 8 +
                value_or (DW_AT_data_bit_offset die) 0) ->
  U64.in_range (byte_size * 8) ->
  U64.in_range (value_or (DW_AT_bit_offset die) 0 + value_or (DW_AT_bit_size die) 0) ->
  U64.in_range (value_or (DW_AT_data_member_location die) 0 * 8 +
                value_or (DW_AT_data_bit_offset die) 0 + byte_size * 8) ->
  U64.in_range P ->
  StructMemberRow.byte_offset stored = P / 8 /\
  StructMemberRow.bit_offset stored = Some (P mod 8).
Proof.
  intros byte_size P stored [dbo Hdbo] Hloc Hp Hbs Hshift Hsum HP.
  subst stored P. unfold VisitMember_offsets, spec_bit_position in *.
  fold byte_size. rewrite Hdbo in *. cbn [value_or] in *.
  unfold U64.in_range, U64.add, U64.sub, U64.mul, U64.div, U64.rem, U64.wrap in *.
  destruct (DW_AT_bit_offset die) as [old|]; cbn [value_or] in *.
  - destruct le.
    + rewrite (Z.mod_small (_ * 8)) by lia.
      rewrite (Z.mod_small (_ + dbo)) by lia.
      rewrite (Z.mod_small (byte_size * 8)) by lia.
      rewrite (Z.mod_small (_ + byte_size * 8)) by lia.
      rewrite (Z.mod_small (old + _)) by lia.
      rewrite (Z.mod_small (_ - _)) by lia.
      split; reflexivity.
    + rewrite (Z.mod_small (_ * 8)) by lia.
      rewrite (Z.mod_small (_ + dbo)) by lia.
      rewrite (Z.mod_small (_ + old)) by lia.
      split; reflexivity.
  - rewrite (Z.mod_small (_ * 8)) by lia.
    rewrite (Z.mod_small (_ + dbo)) by lia.
    split; reflexivity.
Qed.

(** The DWARF 4 bit-field of the samples: byte 4, bit 5. *)
Lemma bit_offset_with_data_bit_offset_witness :
  StructMemberRow.byte_offset
    (VisitMember_offsets true Sample.data_bitfield_die StructMemberRow.default) = 4 /\
  StructMemberRow.bit_offset
    (VisitMember_offsets true Sample.data_bitfield_die StructMemberRow.default) = Some 5.
Proof.
  apply (bit_offset_with_data_bit_offset true Sample.data_bitfield_die
           StructMemberRow.default);
    first [ eexists; reflexivity
          | unfold U64.in_range, U64.modulus; cbn; lia ].
Defined.

(** C8, as stated, fails. An entry with both [DW_AT_declaration] and
    [DW_AT_specification] is skipped by the first guard: no id, nothing
    raised, although a specification is present. An entry with
    [DW_AT_specification] and no [DW_AT_byte_size] is not skipped with a
    warning: the call throws. And [Holder], which names no specification,
    makes the call throw through its member's type. *)
Lemma specification_behind_declaration_not_raised :
  let r := Sample.visit 1 Sample.declared_specification_die Flags.kTypeIsStruct
             Scraper_init in
  let r' := Sample.visit 1 Sample.specification_die Flags.kTypeIsStruct Scraper_init in
  let r'' := Sample.visit 2 Sample.Holder_die Flags.kTypeIsStruct Scraper_init in
  (DW_AT_specification Sample.declared_specification_die = true /\
   r = (Returned None, Scraper_init) /\
   raises (fst r) = false) /\
  (DW_AT_byte_size Sample.specification_die = None /\
   fst r' = Thrown "Unsupported") /\
  (DW_AT_specification Sample.Holder_die = false /\
   raises (fst r'') = true).
Proof. vm_compute. repeat split; reflexivity. Qed.

Section VisitCommonGuards.

Variable isLittleEndian : bool.
Variable strip_prefix_ : option string.
Variable fs_relative : string -> string -> string.
Variable AnonymousName : DIE -> option string -> string.
Variable GetTypeInfo : DIE -> TypeInfo.
Variable referenced_type : DIE -> DIE.

Let visit := VisitCommon isLittleEndian strip_prefix_ fs_relative AnonymousName
               GetTypeInfo referenced_type.

(** C8, amended. The guards of [VisitCommon] are tried in order. With
    [DW_AT_declaration] present the call returns no id and changes nothing.
    Otherwise, with [DW_AT_specification] present, it logs one error and
    throws, recording no entry. Otherwise, with [DW_AT_byte_size] missing,
    it logs one warning, returns no id and records no entry. *)
Theorem VisitCommon_guards (n : nat) (die : DIE) (kind : Z) (s : Scraper) :
  let r := visit (S n) die kind s in
  (DW_AT_declaration die = true -> r = (Returned None, s)) /\
  (DW_AT_declaration die = false -> DW_AT_specification die = true ->
   fst r = Thrown "Unsupported" /\
   struct_type_map_ (snd r) = struct_type_map_ s /\
   emitted (snd r) =
     (emitted s ++ [Log.mkLogMessage Log.kError "DW_AT_specification unsupported"])%list) /\
  (DW_AT_declaration die = false -> DW_AT_specification die = false ->
   DW_AT_byte_size die = None ->
   fst r = Returned None /\
   struct_type_map_ (snd r) = struct_type_map_ s /\
   exists text, emitted (snd r) = (emitted s ++ [Log.mkLogMessage Log.kWarn text])%list).
Proof.
  subst visit. cbn zeta. cbn [VisitCommon].
  split; [|split].
  - intros ->. reflexivity.
  - intros -> ->. repeat split; reflexivity.
  - intros -> -> ->. repeat split; try reflexivity. eexists. reflexivity.
Qed.

End VisitCommonGuards.

(** The first guard at [Sample.declared_specification_die]. *)
Lemma VisitCommon_guards_witness :
  let r := Sample.visit 1 Sample.declared_specification_die Flags.kTypeIsStruct
             Scraper_init in
  DW_AT_declaration Sample.declared_specification_die = true /\
  r = (Returned None, Scraper_init).
Proof.
  cbn zeta. split; [reflexivity|].
  apply (VisitCommon_guards true None (fun file _ => file) (fun _ _ => "<anon>")
           Sample.GetTypeInfo Sample.referenced_type 0
           Sample.declared_specification_die Flags.kTypeIsStruct Scraper_init).
  reflexivity.
Defined.

(* ===================================================================== *)
(** * Properties of the flattening *)
(* ===================================================================== *)

Lemma append_rows_nil (entry : StructTypeEntry.t) : append_rows entry [] = entry.
Proof. destruct entry. unfold append_rows. cbn. rewrite app_nil_r. reflexivity. Qed.

Lemma append_rows_app (entry : StructTypeEntry.t) (r1 r2 : list MemberBoundsRow.t) :
  append_rows (append_rows entry r1) r2 = append_rows entry (r1 ++ r2).
Proof. unfold append_rows. cbn. rewrite <- app_assoc. reflexivity. Qed.

Lemma push_back_append (entry : StructTypeEntry.t) (row : MemberBoundsRow.t) :
  push_back entry row = append_rows entry [row].
Proof. reflexivity. Qed.

(** The merge loop appends the nested rows as they are: the rewritten
    offset and name never reach the vector. *)
Lemma merge_nested_appends (rows : list MemberBoundsRow.t) (offset : Z)
  (prefix nested_name : string) (entry e' : StructTypeEntry.t) :
  merge_nested rows offset prefix nested_name entry = Returned e' ->
  e' = append_rows entry rows.
Proof.
  revert entry. induction rows as [|r rows IH]; intros entry H.
  - cbn in H. inversion H. symmetry. apply append_rows_nil.
  - cbn [merge_nested] in H.
    destruct (substr _ _); try discriminate.
    apply IH in H. rewrite H, push_back_append, append_rows_app. reflexivity.
Qed.

Section FlattenRows.

Variable FindRepresentableRange : Z -> Z -> Z * Z.
Variable FindRequiredPrecision : Z -> Z -> Z.
Variable entry_by_id : gmap Z StructTypeEntry.t.

(** [Q] holds of the members met, [P] of the rows built from them and of
    the rows already stored in the entries of [entry_by_id]. *)
Variable Q : StructMemberRow.t -> Prop.
Variable P : MemberBoundsRow.t -> Prop.
Hypothesis P_member_row : forall owner m offset prefix,
  Q m -> P (member_row FindRepresentableRange FindRequiredPrecision owner m offset prefix).
Hypothesis Q_store : forall nid e,
  entry_by_id !! nid = Some e -> Forall Q (StructTypeEntry.members e).
Hypothesis P_store : forall nid e,
  entry_by_id !! nid = Some e -> Forall P (StructTypeEntry.flattened_layout e).


Lemma flatten_members_rows f :
  appends_good_rows Q P f ->
  forall ms offset prefix entry e',
    Forall Q ms ->
    flatten_members FindRepresentableRange FindRequiredPrecision entry_by_id f
      ms offset prefix entry = Returned e' ->
    exists rows, Forall P rows /\ e' = append_rows entry rows.
Proof.
  intros Hf ms. induction ms as [|m ms IH]; intros offset prefix entry e' HQ H.
  - cbn in H. inversion H. exists []. split; [constructor|].
    symmetry. apply append_rows_nil.
  - inversion HQ as [|? ? Hm Hms]; subst.
    cbn [flatten_members] in H.
    set (mb_row := member_row _ _ _ m offset prefix) in *.
    assert (Hrow : P mb_row) by (apply P_member_row; exact Hm).
    change (read_has_imprecise (MemberBoundsRow.is_imprecise mb_row) entry)
      with entry in H.
    destruct (StructMemberRow.nested m) as [nid|].
    + destruct (nid =? 0)%Z; [discriminate|].
      destruct (entry_by_id !! nid) as [nested|] eqn:Hnested; [|discriminate].
      destruct (empty (StructTypeEntry.flattened_layout nested)).
      * destruct (f nested 0 _ entry) as [e1| | |] eqn:Hrec; try discriminate.
        apply Hf in Hrec; [|eapply Q_store; exact Hnested].
        destruct Hrec as (rows1 & HP1 & ->).
        destruct (merge_nested _ _ _ _ _) as [e2| | |] eqn:Hmerge; try discriminate.
        apply merge_nested_appends in Hmerge. subst e2.
        apply IH in H; [|exact Hms]. destruct H as (rows3 & HP3 & ->).
        rewrite push_back_append, !append_rows_app.
        eexists. split; [|reflexivity].
        repeat apply Forall_app_2; auto. eapply P_store; exact Hnested.
      * destruct (merge_nested _ _ _ _ _) as [e2| | |] eqn:Hmerge; try discriminate.
        apply merge_nested_appends in Hmerge. subst e2.
        apply IH in H; [|exact Hms]. destruct H as (rows3 & HP3 & ->).
        rewrite push_back_append, !append_rows_app.
        eexists. split; [|reflexivity].
        repeat apply Forall_app_2; auto. eapply P_store; exact Hnested.
    + apply IH in H; [|exact Hms]. destruct H as (rows3 & HP3 & ->).
      rewrite push_back_append, !append_rows_app.
      eexists. split; [|reflexivity].
      repeat apply Forall_app_2; auto.
Qed.

Lemma FlattenedLayout_rows (fuel : nat) :
  appends_good_rows Q P
    (FlattenedLayout FindRepresentableRange FindRequiredPrecision entry_by_id fuel).
Proof.
  induction fuel as [|fuel IH]; intros curr offset prefix entry e' HQ H.
  - discriminate H.
  - cbn [FlattenedLayout] in H. eapply flatten_members_rows; eauto.
Qed.

(** What [FindSubobjectCapabilities] returns is [entry] with rows
    appended, every one of which satisfies [P]. *)
Lemma FindSubobjectCapabilities_rows (fuel : nat) (entry e' : StructTypeEntry.t) :
  Forall Q (StructTypeEntry.members entry) ->
  FindSubobjectCapabilities FindRepresentableRange FindRequiredPrecision entry_by_id
    fuel entry = Returned e' ->
  exists rows, Forall P rows /\ e' = append_rows entry rows.
Proof.
  intros HQ H. unfold FindSubobjectCapabilities in H.
  destruct (negb (empty (StructTypeEntry.flattened_layout entry))).
  - inversion H. exists []. split; [constructor|]. symmetry. apply append_rows_nil.
  - eapply FlattenedLayout_rows; eauto.
Qed.

End FlattenRows.

(** [FindSubobjectCapabilities] changes nothing of [entry] but its
    flattened layout, to which it only appends. *)
Lemma FindSubobjectCapabilities_appends rr rp entry_by_id fuel entry e' :
  FindSubobjectCapabilities rr rp entry_by_id fuel entry = Returned e' ->
  exists rows, e' = append_rows entry rows.
Proof.
  intros H.
  assert (Htrue : forall A (l : list A), Forall (fun _ => True) l)
    by (intros; apply Forall_forall; intros; exact I).
  destruct (FindSubobjectCapabilities_rows rr rp entry_by_id
              (fun _ => True) (fun _ => True) (fun _ _ _ _ _ => I)
              (fun _ _ _ => Htrue _ _) (fun _ _ _ => Htrue _ _)
              fuel entry e' (Htrue _ _) H) as (rows & _ & Hrows).
  exists rows. exact Hrows.
Qed.

(** X5. One turn of the loop over the members. For a member without
    nested type its own row is appended. For a member with one, the rows
    appended before its own row are: when the stored layout of the nested
    entry is empty, the rows the recursive call appends for the nested type
    at offset 0 under that type's name; then the stored layout of the
    nested entry, as it is. The members after it are processed from
    there. *)
Lemma own_row_after_nested_expansion rr rp entry_by_id fuel m ms offset prefix entry e' :
  flatten_members rr rp entry_by_id (FlattenedLayout rr rp entry_by_id fuel)
    (m :: ms) offset prefix entry = Returned e' ->
  exists expansion,
    match StructMemberRow.nested m with
    | None => expansion = []
    | Some nid =>
        exists nested scanned,
          entry_by_id !! nid = Some nested /\
          expansion = (scanned ++ StructTypeEntry.flattened_layout nested)%list /\
          if empty (StructTypeEntry.flattened_layout nested)
          then FlattenedLayout rr rp entry_by_id fuel nested 0
                 (StructTypeRow.name (StructTypeEntry.data nested)) entry
               = Returned (append_rows entry scanned)
          else scanned = []
    end /\
    flatten_members rr rp entry_by_id (FlattenedLayout rr rp entry_by_id fuel)
      ms offset prefix
      (append_rows entry
         (expansion ++
          [member_row rr rp (StructTypeRow.id (StructTypeEntry.data entry))
             m offset prefix])) = Returned e'.
Proof.
  intros H. cbn [flatten_members] in H.
  change (read_has_imprecise _ entry) with entry in H.
  assert (Htrue : forall A (l : list A), Forall (fun _ => True) l)
    by (intros; apply Forall_forall; intros; exact I).
  destruct (StructMemberRow.nested m) as [nid|].
  - destruct (nid =? 0)%Z; [discriminate|].
    destruct (entry_by_id !! nid) as [nested|]; [|discriminate].
    destruct (empty (StructTypeEntry.flattened_layout nested)) eqn:Hempty.
    + destruct (FlattenedLayout _ _ _ _ nested 0 _ entry) as [e1| | |] eqn:Hrec;
        try discriminate.
      pose proof Hrec as Hrows.
      apply (FlattenedLayout_rows rr rp entry_by_id (fun _ => True) (fun _ => True)
               (fun _ _ _ _ _ => I) (fun _ _ _ => Htrue _ _) (fun _ _ _ => Htrue _ _))
        in Hrows; [|apply Htrue].
      destruct Hrows as (rows1 & _ & ->).
      destruct (merge_nested _ _ _ _ _) as [e2| | |] eqn:Hmerge; try discriminate.
      apply merge_nested_appends in Hmerge. subst e2.
      rewrite push_back_append, !append_rows_app in H.
      exists (rows1 ++ StructTypeEntry.flattened_layout nested)%list.
      split; [|rewrite <- app_assoc; exact H].
      exists nested, rows1. rewrite Hempty. auto.
    + destruct (merge_nested _ _ _ _ _) as [e2| | |] eqn:Hmerge; try discriminate.
      apply merge_nested_appends in Hmerge. subst e2.
      rewrite push_back_append, !append_rows_app in H.
      exists (StructTypeEntry.flattened_layout nested).
      split; [|exact H].
      exists nested, []. rewrite Hempty. auto.
  - exists []. split; [reflexivity|]. exact H.
Qed.

(** Scenario D: [Outer::inner] follows the two rows of [Inner], which the
    recursive call on [Inner] appends. *)
Lemma own_row_after_nested_expansion_witness :
  let inner := Sample.member 2 2 (Some 3) "inner" "Inner" 8 0 Flags.kTypeIsStruct in
  let flatten :=
    flatten_members Sample.granule_range Sample.no_precision Sample.by_id_D
      (FlattenedLayout Sample.granule_range Sample.no_precision Sample.by_id_D 1) in
  exists e',
    flatten (StructTypeEntry.members Sample.Outer_entry) 0 "Outer" Sample.Outer_entry
      = Returned e' /\
    exists expansion,
      (exists nested scanned,
         Sample.by_id_D !! 3 = Some nested /\
         expansion = (scanned ++ StructTypeEntry.flattened_layout nested)%list /\
         if empty (StructTypeEntry.flattened_layout nested)
         then FlattenedLayout Sample.granule_range Sample.no_precision Sample.by_id_D 1
                nested 0 (StructTypeRow.name (StructTypeEntry.data nested))
                Sample.Outer_entry
              = Returned (append_rows Sample.Outer_entry scanned)
         else scanned = []) /\
      flatten [Sample.member 5 2 None "c" "int" 4 8 0] 0 "Outer"
        (append_rows Sample.Outer_entry
           (expansion ++
            [member_row Sample.granule_range Sample.no_precision 2 inner 0 "Outer"]))
        = Returned e'.
Proof.
  cbn zeta. eexists. split; [vm_compute; reflexivity|].
  apply (own_row_after_nested_expansion Sample.granule_range Sample.no_precision
           Sample.by_id_D 1
           (Sample.member 2 2 (Some 3) "inner" "Inner" 8 0 Flags.kTypeIsStruct)
           [Sample.member 5 2 None "c" "int" 4 8 0] 0 "Outer" Sample.Outer_entry).
  vm_compute. reflexivity.
Defined.

(** X1. No run of [FindSubobjectCapabilities] changes [entry.data], and with
    it [has_imprecise], whatever rows it computes. *)
Lemma FindSubobjectCapabilities_keeps_data rr rp entry_by_id fuel entry :
  match FindSubobjectCapabilities rr rp entry_by_id fuel entry with
  | Returned e' => StructTypeEntry.data e' = StructTypeEntry.data entry
  | _ => True
  end.
Proof.
  destruct (FindSubobjectCapabilities _ _ _ _ _) as [e'| | |] eqn:H; try exact I.
  apply FindSubobjectCapabilities_appends in H. destruct H as (rows & ->). reflexivity.
Qed.

(** Every row [InsertStructLayout] adds to [struct_type] has
    [has_imprecise] false, whatever the in-memory row holds. *)
Lemma InsertStructLayout_stores_default (db : Sql.Db) (r : StructTypeRow.t) :
  Forall (fun x => StructTypeRow.has_imprecise x = false) (Sql.struct_type db) ->
  Forall (fun x => StructTypeRow.has_imprecise x = false)
         (Sql.struct_type (snd (Sql.InsertStructLayout db r))).
Proof.
  intros H. unfold Sql.InsertStructLayout.
  destruct (existsb _ _); cbn [snd Sql.struct_type]; [exact H|].
  apply Forall_app_2; [exact H|]. constructor; [reflexivity|constructor].
Qed.

(** X2. The loop of [EndUnit] that calls [FindSubobjectCapabilities] leaves
    [struct_type_map_] as it found it: the layouts are built in copies. *)
Lemma EndUnit_flatten_keeps_map rr rp entry_by_id fuel ps map_ :
  match EndUnit_flatten rr rp entry_by_id fuel ps map_ with
  | Returned map' => map' = map_
  | _ => True
  end.
Proof.
  induction ps as [|p ps IH]; cbn [EndUnit_flatten].
  - reflexivity.
  - destruct (StructTypeEntry.skip_postprocess (snd p)); [exact IH|].
    destruct (FindSubobjectCapabilities _ _ _ _ _); try exact I. exact IH.
Qed.

(** For scenario D the loop completes, and the entries keep their empty
    layouts. *)
Lemma EndUnit_flatten_scenario_D :
  let map_ : gmap StructKey StructTypeEntry.t :=
    <[("Outer", "/src/foo.c", 1) := Sample.Outer_entry]>
      (<[("Inner", "/src/foo.c", 1) := Sample.Inner_entry]> ∅) in
  EndUnit_flatten Sample.granule_range Sample.no_precision Sample.by_id_D 2
    (map_to_list map_) map_ = Returned map_.
Proof. vm_compute. reflexivity. Qed.

(** C1. Scenario C, any encoder: [FindSubobjectCapabilities] returns, the
    row of [misaligned] is in the layout, it is imprecise as soon as the
    encoder moves its base, and [has_imprecise] of the entry is still
    false; so is the column of the row [InsertStructLayout] stores. *)
Theorem has_imprecise_never_set (rr : Z -> Z -> Z * Z) (rp : Z -> Z -> Z) :
  exists e',
    FindSubobjectCapabilities rr rp ∅ 1 Sample.U_entry = Returned e' /\
    In (member_row rr rp 2 Sample.misaligned 0 "U")
       (StructTypeEntry.flattened_layout e') /\
    (fst (rr 4095 4) <> 4095 ->
     MemberBoundsRow.is_imprecise (member_row rr rp 2 Sample.misaligned 0 "U") = true) /\
    StructTypeRow.has_imprecise (StructTypeEntry.data e') = false /\
    Forall (fun x => StructTypeRow.has_imprecise x = false)
      (Sql.struct_type
         (snd (Sql.InsertStructLayout (Sql.mkDb [] [] [] ∅) (StructTypeEntry.data e')))).
Proof.
  eexists. split; [reflexivity|]. split; [|split; [|split]].
  - cbn. right. left. reflexivity.
  - intros Hbase. unfold member_row. cbn [MemberBoundsRow.is_imprecise].
    change (U64.add 0 (StructMemberRow.byte_offset Sample.misaligned)) with 4095.
    change (req_length Sample.misaligned) with 4.
    apply orb_true_iff. left. apply negb_true_iff. apply Z.eqb_neq. congruence.
  - reflexivity.
  - repeat constructor.
Qed.

(** C2. [Outer2], any encoder: the rows of the nested [Inner] enter the
    layout of [Outer2] under the names and offsets they have in [Inner];
    the rows the claim describes, [Outer2::a] at 4 and [Outer2::b] at 8,
    are not there. *)
Theorem nested_rows_keep_name_and_offset (rr : Z -> Z -> Z * Z) (rp : Z -> Z -> Z) :
  exists e',
    FindSubobjectCapabilities rr rp Sample.by_id_D2 2 Sample.Outer2_entry = Returned e' /\
    map (fun r => (MemberBoundsRow.name r, MemberBoundsRow.offset r))
        (StructTypeEntry.flattened_layout e') =
      [("Outer2::c", 0); ("Inner::a", 0); ("Inner::b", 4); ("Outer2::inner", 4)].
Proof. eexists. split; reflexivity. Qed.

(** The same when the nested entry already carries its layout and the
    merge loop runs: the rows are copied as they are. *)
Lemma merged_rows_keep_name_and_offset (rr : Z -> Z -> Z * Z) (rp : Z -> Z -> Z) :
  let Inner_scanned :=
    append_rows Sample.Inner_entry2
      [Sample.bounds 3 4 "Inner::a" 0 0 4; Sample.bounds 3 5 "Inner::b" 4 4 8] in
  exists e',
    FindSubobjectCapabilities rr rp (<[3 := Inner_scanned]> ∅) 1 Sample.Outer2_entry
      = Returned e' /\
    map (fun r => (MemberBoundsRow.name r, MemberBoundsRow.offset r))
        (StructTypeEntry.flattened_layout e') =
      [("Outer2::c", 0); ("Inner::a", 0); ("Inner::b", 4); ("Outer2::inner", 4)].
Proof. eexists. split; reflexivity. Qed.

(** C7. Scenario D, any encoder: the layout of [Outer] lists, in this
    order, [Inner::a], [Inner::b], [Outer::inner], [Outer::c]. The member's
    own row does follow its expansion, but the expansion keeps the names
    of the nested type. *)
Theorem scenario_D_row_names (rr : Z -> Z -> Z * Z) (rp : Z -> Z -> Z) :
  exists e',
    FindSubobjectCapabilities rr rp Sample.by_id_D 2 Sample.Outer_entry = Returned e' /\
    map MemberBoundsRow.name (StructTypeEntry.flattened_layout e') =
      ["Inner::a"; "Inner::b"; "Outer::inner"; "Outer::c"] /\
    map MemberBoundsRow.name (StructTypeEntry.flattened_layout e') <>
      ["Outer::inner::a"; "Outer::inner::b"; "Outer::inner"; "Outer::c"].
Proof. eexists. split; [reflexivity|]. split; [reflexivity|]. cbn. discriminate. Qed.

(** C4. The record [Z], whose one member has [DW_AT_bit_size] present
    with value 0 and takes 4 bytes at offset 0. Its bit size is not greater
    than zero, so the required length of the claim is 4, and 4 is also what
    the view [alias_bounds] takes for the same member ([IIF(alm.bit_size, 1,
    0)] is 0). The code asks the encoder, whichever it is, for 5 bytes. With
    an encoder that answers every request exactly the row comes out with
    [top - base = 5], which differs from the required length 4, and is not
    flagged imprecise. *)
Theorem zero_bit_size_gets_extra_byte (rp : Z -> Z -> Z) :
  let row := member_row Sample.exact_range rp 2 Sample.zero_width 0 "Z" in
  StructMemberRow.bit_size Sample.zero_width = Some 0 /\
  spec_required_length Sample.zero_width = 4 /\
  StructMemberRow.byte_size Sample.zero_width +
    Sql.IIF (StructMemberRow.bit_size Sample.zero_width) 1 0 = 4 /\
  req_length Sample.zero_width = 5 /\
  (forall rr : Z -> Z -> Z * Z,
     MemberBoundsRow.base (member_row rr rp 2 Sample.zero_width 0 "Z") = fst (rr 0 5) /\
     MemberBoundsRow.top (member_row rr rp 2 Sample.zero_width 0 "Z") =
       U64.add (fst (rr 0 5)) (snd (rr 0 5))) /\
  FindSubobjectCapabilities Sample.exact_range rp ∅ 1 Sample.Z_entry =
    Returned (append_rows Sample.Z_entry [row]) /\
  MemberBoundsRow.base row = MemberBoundsRow.offset row /\
  MemberBoundsRow.top row - MemberBoundsRow.base row = 5 /\
  MemberBoundsRow.is_imprecise row = false.
Proof.
  cbn zeta. repeat split; reflexivity.
Qed.


Lemma member_row_bounds_consistent rr rp entry_by_id entry owner m offset prefix :
  encoder_u64 rr ->
  known_member entry_by_id entry m ->
  row_bounds_consistent entry_by_id entry (member_row rr rp owner m offset prefix).
Proof.
  intros Henc Hm. exists m. split; [exact Hm|]. split; [reflexivity|].
  cbn zeta. unfold member_row.
  cbn [MemberBoundsRow.is_imprecise MemberBoundsRow.base MemberBoundsRow.offset
       MemberBoundsRow.top].
  set (o := U64.add offset (StructMemberRow.byte_offset m)).
  assert (Hreq : req_length m =
                 U64.wrap (StructMemberRow.byte_size m +
                           match StructMemberRow.bit_size m with
                           | Some _ => 1 | None => 0 end)).
  { unfold req_length, U64.add. destruct (StructMemberRow.bit_size m); reflexivity. }
  rewrite <- Hreq.
  destruct (Henc o (req_length m)) as [Hb Hl].
  set (b := fst (rr o (req_length m))) in *.
  set (l := snd (rr o (req_length m))) in *.
  assert (Hext : U64.sub (U64.add b l) b = l).
  { unfold U64.sub, U64.add, U64.wrap, U64.in_range in *.
    rewrite Zminus_mod_idemp_l. replace (b + l - b) with l by lia.
    apply Z.mod_small. exact Hl. }
  rewrite Hext, orb_true_iff, !negb_true_iff, !Z.eqb_neq.
  split; intros [H|H]; auto.
Qed.

(** X28. Every row of the layout [FindSubobjectCapabilities] returns is
    flagged imprecise exactly when its base differs from its offset or its
    extent, [top - base] in 64 bits, differs from the length asked of the
    encoder: the byte size of its member, plus one when the member has a bit
    size. This holds given that the encoder answers in 64 bits and that the
    rows present before the call are such rows. *)
Theorem flattened_rows_imprecise_iff rr rp entry_by_id fuel entry e' :
  encoder_u64 rr ->
  (forall nid e, entry_by_id !! nid = Some e ->
     Forall (row_bounds_consistent entry_by_id entry) (StructTypeEntry.flattened_layout e)) ->
  Forall (row_bounds_consistent entry_by_id entry) (StructTypeEntry.flattened_layout entry) ->
  FindSubobjectCapabilities rr rp entry_by_id fuel entry = Returned e' ->
  Forall (row_bounds_consistent entry_by_id entry) (StructTypeEntry.flattened_layout e').
Proof.
  intros Henc Hstore Hentry H.
  destruct (FindSubobjectCapabilities_rows rr rp entry_by_id
              (known_member entry_by_id entry) (row_bounds_consistent entry_by_id entry))
    with (fuel := fuel) (entry := entry) (e' := e') as (rows & Hrows & ->).
  - intros owner m offset prefix Hm. apply member_row_bounds_consistent; assumption.
  - intros nid e He. apply Forall_forall. intros m Hm. right. exists nid, e.
    split; [exact He|]. apply list_elem_of_In. exact Hm.
  - exact Hstore.
  - apply Forall_forall. intros m Hm. left. apply list_elem_of_In. exact Hm.
  - exact H.
  - cbn. apply Forall_app_2; assumption.
Qed.



Lemma member_row_covers_member rr rp entry_by_id entry owner m offset prefix :
  known_member entry_by_id entry m ->
  row_covers_member rr entry_by_id entry (member_row rr rp owner m offset prefix).
Proof.
  intros Hm. exists m. split; [exact Hm|]. split; [reflexivity|].
  unfold member_row, covers, ends_in_range.
  cbn [MemberBoundsRow.base MemberBoundsRow.offset MemberBoundsRow.top].
  set (o := U64.add offset (StructMemberRow.byte_offset m)).
  intros (Hbase & Hcover) Htop.
  assert (Ho : 0 <= o) by (apply Z.mod_pos_bound; reflexivity).
  assert (Hr : 0 <= req_length m) by (apply Z.mod_pos_bound; reflexivity).
  split; [exact Hbase|].
  unfold U64.add at 1. unfold U64.wrap. rewrite Z.mod_small; lia.
Qed.

(** C5, as stated, fails where the encoder's interval ends at 2^64. For
    [last], 4 bytes at offset [2^64 - 6], the sample encoder answers
    [(2^64 - 8, 8)], which starts at or below the offset and covers the
    request; the stored top is the 64-bit sum of base and length, 0, and is
    not at or above [offset + required_length]. *)
Lemma top_wraps_to_zero :
  let row := member_row Sample.granule_range Sample.no_precision 2
               Sample.last_member 0 "High" in
  FindSubobjectCapabilities Sample.granule_range Sample.no_precision ∅ 1
    Sample.High_entry = Returned (append_rows Sample.High_entry [row]) /\
  MemberBoundsRow.offset row = 2 ^ 64 - 6 /\
  req_length Sample.last_member = 4 /\
  Sample.granule_range (2 ^ 64 - 6) 4 = (2 ^ 64 - 8, 8) /\
  covers (Sample.granule_range (2 ^ 64 - 6) 4) (2 ^ 64 - 6) 4 /\
  MemberBoundsRow.base row = 2 ^ 64 - 8 /\
  MemberBoundsRow.top row = 0 /\
  ~ MemberBoundsRow.top row >= MemberBoundsRow.offset row + req_length Sample.last_member.
Proof.
  cbn zeta. split; [reflexivity|]. split; [reflexivity|]. split; [reflexivity|].
  split; [reflexivity|]. split; [split; vm_compute; discriminate|].
  split; [reflexivity|]. split; [reflexivity|].
  vm_compute. intros H. apply H. reflexivity.
Qed.

(** C5, amended. Every row of the layout [FindSubobjectCapabilities]
    returns satisfies [row_covers_member]: if the encoder's answer for the
    row starts at or below the offset, covers the request and ends below
    2^64, then [base <= offset] and [top >= offset + required_length]. This
    holds given that the rows present before the call are such rows. *)
Theorem flattened_rows_cover_member rr rp entry_by_id fuel entry e' :
  (forall nid e, entry_by_id !! nid = Some e ->
     Forall (row_covers_member rr entry_by_id entry) (StructTypeEntry.flattened_layout e)) ->
  Forall (row_covers_member rr entry_by_id entry) (StructTypeEntry.flattened_layout entry) ->
  FindSubobjectCapabilities rr rp entry_by_id fuel entry = Returned e' ->
  Forall (row_covers_member rr entry_by_id entry) (StructTypeEntry.flattened_layout e').
Proof.
  intros Hstore Hentry H.
  destruct (FindSubobjectCapabilities_rows rr rp entry_by_id
              (known_member entry_by_id entry) (row_covers_member rr entry_by_id entry))
    with (fuel := fuel) (entry := entry) (e' := e') as (rows & Hrows & ->).
  - intros owner m offset prefix Hm. apply member_row_covers_member; assumption.
  - intros nid e He. apply Forall_forall. intros m Hm. right. exists nid, e.
    split; [exact He|]. apply list_elem_of_In. exact Hm.
  - exact Hstore.
  - apply Forall_forall. intros m Hm. left. apply list_elem_of_In. exact Hm.
  - exact H.
  - cbn. apply Forall_app_2; assumption.
Qed.

Lemma granule_range_u64 : encoder_u64 Sample.granule_range.
Proof.
  intros b l. unfold Sample.granule_range, U64.in_range, U64.wrap. cbn [fst snd].
  split; apply Z.mod_pos_bound; reflexivity.
Qed.

Lemma by_id_D_unscanned (nid : Z) (e : StructTypeEntry.t) :
  Sample.by_id_D !! nid = Some e -> StructTypeEntry.flattened_layout e = [].
Proof.
  unfold Sample.by_id_D. intros H.
  apply lookup_insert_Some in H. destruct H as [[_ <-]|[_ H]]; [reflexivity|].
  apply lookup_insert_Some in H. destruct H as [[_ <-]|[_ H]]; [reflexivity|].
  rewrite lookup_empty in H. discriminate H.
Qed.

(** The record [F], with a bit-field and a zero-width member, and the
    sample encoder: the two rows are rounded outward and flagged. *)
Lemma flattened_rows_imprecise_iff_witness :
  exists e',
    FindSubobjectCapabilities Sample.granule_range Sample.no_precision
      ∅ 1 Sample.F_entry = Returned e' /\
    map (fun r => (MemberBoundsRow.base r, MemberBoundsRow.top r,
                   MemberBoundsRow.is_imprecise r))
        (StructTypeEntry.flattened_layout e') = [(0, 8, true); (0, 16, true)] /\
    Forall (row_bounds_consistent ∅ Sample.F_entry)
           (StructTypeEntry.flattened_layout e').
Proof.
  eexists. split; [vm_compute; reflexivity|]. split; [reflexivity|].
  apply (flattened_rows_imprecise_iff Sample.granule_range Sample.no_precision
           ∅ 1 Sample.F_entry).
  - exact granule_range_u64.
  - intros nid e He. rewrite lookup_empty in He. discriminate He.
  - constructor.
  - vm_compute. reflexivity.
Defined.

(** Scenario D with the sample encoder: the layout of [Outer]. *)
Lemma flattened_rows_cover_member_witness :
  exists e',
    FindSubobjectCapabilities Sample.granule_range Sample.no_precision
      Sample.by_id_D 2 Sample.Outer_entry = Returned e' /\
    Forall (row_covers_member Sample.granule_range Sample.by_id_D Sample.Outer_entry)
           (StructTypeEntry.flattened_layout e').
Proof.
  eexists. split; [vm_compute; reflexivity|].
  apply (flattened_rows_cover_member Sample.granule_range Sample.no_precision
           Sample.by_id_D 2 Sample.Outer_entry).
  - intros nid e He. rewrite (by_id_D_unscanned nid e He). constructor.
  - constructor.
  - vm_compute. reflexivity.
Defined.

(** With the sample encoder the premise of [row_covers_member] holds for
    [Outer::c], and the row is bounded as C5 says. *)
Lemma Outer_c_covered :
  let row := member_row Sample.granule_range Sample.no_precision 2
               (Sample.member 5 2 None "c" "int" 4 8 0) 0 "Outer" in
  covers (Sample.granule_range 8 4) 8 4 /\
  ends_in_range (Sample.granule_range 8 4) /\
  MemberBoundsRow.base row <= MemberBoundsRow.offset row /\
  MemberBoundsRow.top row >= MemberBoundsRow.offset row + 4.
Proof. vm_compute. repeat split; try discriminate; reflexivity. Qed.

(* ===================================================================== *)
(** * Properties of the alias query *)
(* ===================================================================== *)

(** A pattern that ends in [%] matches whatever follows its own text. *)
Lemma patternCompare_percent (s : list Z) : Sql.patternCompare [37] s = true.
Proof.
  induction s as [|c s IH]; [reflexivity|].
  cbn in *. exact IH.
Qed.

Lemma patternCompare_any_suffix (pattern : list Z) (c : Z) (s : list Z) :
  Sql.patternCompare pattern s = true ->
  Sql.patternCompare (37 :: pattern) (c :: s) = true.
Proof.
  intros H. cbn. destruct (Sql.patternCompare pattern (c :: s)); [reflexivity|].
  cbn. destruct s; cbn; rewrite H; reflexivity.
Qed.

Lemma matches_refl (c : Z) : Sql.matches c c = true.
Proof. unfold Sql.matches. rewrite Z.eqb_refl. reflexivity. Qed.

(** Every character of a pattern matches itself, the wildcards too. *)
Lemma patternCompare_step (c : Z) (pattern s : list Z) :
  Sql.patternCompare pattern s = true ->
  Sql.patternCompare (c :: pattern) (c :: s) = true.
Proof.
  intros H. destruct (c =? 37)%Z eqn:Hc.
  - apply Z.eqb_eq in Hc. subst c. apply patternCompare_any_suffix. exact H.
  - cbn [Sql.patternCompare]. rewrite Hc, matches_refl, H. reflexivity.
Qed.

Lemma patternCompare_refl (cs : list Z) : Sql.patternCompare cs cs = true.
Proof.
  induction cs as [|c cs IH]; [reflexivity|]. apply patternCompare_step. exact IH.
Qed.

Lemma patternCompare_prefix (cs ts : list Z) :
  Sql.patternCompare (cs ++ [37]) (cs ++ ts) = true.
Proof.
  induction cs as [|c cs IH]; [apply patternCompare_percent|].
  cbn [app]. apply patternCompare_step. exact IH.
Qed.

(** Reading [a] followed by [t], when [a] does not end inside a character
    of the whole: the characters of [a], then those of [t], unless [a]
    holds a zero byte. *)
Lemma utf8_read_app (unfinished : option Z) (a t : string) :
  continues_character t = false ->
  Sql.utf8_read unfinished (a ++ t) =
    if has_zero a then Sql.utf8_read unfinished a
    else (Sql.utf8_read unfinished a ++ Sql.utf8_read None t)%list.
Proof.
  intros Ht. revert unfinished. induction a as [|b a IH]; intros unfinished.
  - change ("" ++ t) with t. cbn [has_zero Sql.utf8_read].
    destruct t as [|d t]; [destruct unfinished; reflexivity|].
    cbn [continues_character] in Ht. cbn [Sql.utf8_read].
    destruct unfinished as [c|]; [|reflexivity]. rewrite Ht. reflexivity.
  - change (String b a ++ t) with (String b (a ++ t)).
    cbn [has_zero Sql.utf8_read]. cbn zeta.
    destruct (Sql.byte b =? 0)%Z eqn:Hz; cbn [orb].
    + destruct unfinished as [c|]; [|reflexivity].
      apply Z.eqb_eq in Hz. rewrite Hz. reflexivity.
    + destruct unfinished as [c|]; rewrite !IH; destruct (has_zero a);
        repeat match goal with
               | |- context [if ?cond then _ else _] => destruct cond
               end; reflexivity.
Qed.

Lemma string_length_app (a b : string) :
  String.length (a ++ b) = (String.length a + String.length b)%nat.
Proof.
  induction a as [|c a IH]; [reflexivity|].
  change (String c a ++ b) with (String c (a ++ b)). cbn. rewrite IH. reflexivity.
Qed.

(** A pattern the engine accepts. *)
Lemma like_accepted (pattern s : string) (matched : bool) :
  Sql.like pattern s = Some matched ->
  Z.of_nat (String.length pattern) <= Sql.SQLITE_MAX_LIKE_PATTERN_LENGTH.
Proof.
  unfold Sql.like. destruct (_ <? _)%Z eqn:Hlen; [discriminate|].
  intros _. apply Z.ltb_ge in Hlen. exact Hlen.
Qed.

(** [name LIKE prefix || '%'] holds whenever [prefix] is a prefix of
    [name] that does not end inside a character: the wildcards and the
    case folding only add matches. *)
Lemma like_of_whole_prefix (p t : string) :
  Z.of_nat (String.length p) < Sql.SQLITE_MAX_LIKE_PATTERN_LENGTH ->
  continues_character t = false ->
  Sql.like (p ++ "%") (p ++ t) = Some true.
Proof.
  intros Hlen Ht. unfold Sql.like.
  rewrite string_length_app. cbn [String.length].
  destruct (_ <? _)%Z eqn:Hlong; [apply Z.ltb_lt in Hlong; lia|].
  rewrite (utf8_read_app None p "%" eq_refl), (utf8_read_app None p t Ht).
  destruct (has_zero p).
  - rewrite patternCompare_refl. reflexivity.
  - change (Sql.utf8_read None "%") with [37].
    rewrite patternCompare_prefix. reflexivity.
Qed.

(** X3. The [LIKE] test of the view accepts every name that starts with
    the other name, when that one is short enough for a pattern and does
    not stop inside a character of the longer. And it accepts more: [_] in
    a name stands for any one character, a multi-byte one included, and
    ASCII letters match without regard to case. *)
Theorem like_accepts_prefix_and_more (p t : string) :
  Z.of_nat (String.length p) < Sql.SQLITE_MAX_LIKE_PATTERN_LENGTH ->
  continues_character t = false ->
  Sql.like (p ++ "%") (p ++ t) = Some true /\
  Sql.like ("W::caf_" ++ "%") Sample.cafe = Some true /\
  Sql.like ("S::f" ++ "%") "s::F::g" = Some true.
Proof.
  intros Hlen Ht. split; [apply like_of_whole_prefix; assumption|].
  split; vm_compute; reflexivity.
Qed.

(** [V::s] against [V::s::lo]. *)
Lemma like_accepts_prefix_and_more_witness :
  Sql.like ("V::s" ++ "%") ("V::s" ++ "::lo") = Some true /\
  Sql.like ("W::caf_" ++ "%") Sample.cafe = Some true /\
  Sql.like ("S::f" ++ "%") "s::F::g" = Some true.
Proof.
  apply (like_accepts_prefix_and_more "V::s" "::lo"); [vm_compute|]; reflexivity.
Defined.

(** In a name of ASCII characters every prefix ends on a character. *)
Lemma prefix_of_ascii_is_whole (a b : string) :
  (forall c, In c (list_ascii_of_string b) -> Sql.byte c < 128) ->
  is_prefix a b -> is_whole_prefix a b.
Proof.
  intros Hb [t ->]. exists t. split; [reflexivity|].
  destruct t as [|d t]; [reflexivity|]. cbn [continues_character].
  assert (Hd : Sql.byte d < 128).
  { apply Hb. clear Hb. induction a as [|x a IH]; [left; reflexivity|].
    right. exact IH. }
  assert (H0 : 0 <= Sql.byte d) by (unfold Sql.byte; lia).
  unfold Sql.is_continuation. apply Z.eqb_neq. intros H.
  assert (Hbit : Z.testbit (Z.land (Sql.byte d) 192) 7 = true) by (rewrite H; reflexivity).
  rewrite Z.land_spec in Hbit. apply andb_true_iff in Hbit. destruct Hbit as [Hbit _].
  assert (Hsmall : Sql.byte d < 2 ^ 7) by (change (2 ^ 7) with 128; lia).
  assert (Hclear : Z.testbit (Sql.byte d) 7 = false).
  { apply Z.testbit_false; [lia|]. rewrite Z.div_small by lia. reflexivity. }
  rewrite Hclear in Hbit. discriminate Hbit.
Qed.

Lemma not_like_not_whole_prefix (a b : string) :
  Sql.like (a ++ "%") b = Some false -> ~ is_whole_prefix a b.
Proof.
  intros H [t [-> Ht]].
  pose proof (like_accepted _ _ _ H) as Hlen.
  rewrite string_length_app in Hlen. cbn [String.length] in Hlen.
  rewrite like_of_whole_prefix in H; [discriminate H| lia | exact Ht].
Qed.

Lemma IIF_nonzero (x : option Z) :
  Sql.IIF x 1 0 = (if (value_or x 0 =? 0)%Z then 0 else 1).
Proof. destruct x as [v|]; cbn; [destruct (v =? 0)%Z|]; reflexivity. Qed.

(** The row of [impl] built from the rows [mb], [alb] and [alm]. *)
Lemma impl_In (db : Sql.Db) (r : Sql.Impl) :
  In r (Sql.impl db) <->
  exists mb alb alm,
    In mb (Sql.member_bounds db) /\ In alb (Sql.member_bounds db) /\
    In alm (Sql.struct_member db) /\
    StructMemberRow.id alm = MemberBoundsRow.member (Sql.row alb) /\
    MemberBoundsRow.owner (Sql.row mb) = MemberBoundsRow.owner (Sql.row alb) /\
    Sql.id mb <> Sql.id alb /\
    r = {| Sql.owner := MemberBoundsRow.owner (Sql.row mb);
           Sql.impl_id := Sql.id mb;
           Sql.alias_id := Sql.id alb;
           Sql.name := MemberBoundsRow.name (Sql.row mb);
           Sql.alias_name := MemberBoundsRow.name (Sql.row alb);
           Sql.base := MemberBoundsRow.base (Sql.row mb);
           Sql.check_base := MemberBoundsRow.offset (Sql.row alb);
           Sql.top := MemberBoundsRow.top (Sql.row mb);
           Sql.check_top :=
             MemberBoundsRow.offset (Sql.row alb) + StructMemberRow.byte_size alm +
             Sql.IIF (StructMemberRow.bit_size alm) 1 0 |}.
Proof.
  unfold Sql.impl. rewrite in_flat_map. split.
  - intros (alb & Halb & H). apply in_flat_map in H. destruct H as (alm & Halm & H).
    apply in_map_iff in H. destruct H as (mb & <- & Hmb).
    apply filter_In in Halm. destruct Halm as (Halm & Hjoin1).
    apply filter_In in Hmb. destruct Hmb as (Hmb & Hjoin2).
    apply andb_true_iff in Hjoin2. destruct Hjoin2 as (Howner & Hid).
    apply Z.eqb_eq in Hjoin1, Howner. apply negb_true_iff, Z.eqb_neq in Hid.
    exists mb, alb, alm. repeat (split; [first [assumption | congruence]|]). reflexivity.
  - intros (mb & alb & alm & Hmb & Halb & Halm & Hid & Howner & Hne & ->).
    exists alb. split; [exact Halb|]. apply in_flat_map. exists alm. split.
    + apply filter_In. split; [exact Halm|]. apply Z.eqb_eq. symmetry. exact Hid.
    + apply in_map_iff. exists mb. split; [reflexivity|].
      apply filter_In. split; [exact Hmb|].
      apply andb_true_iff. split; [apply Z.eqb_eq; exact Howner|].
      apply negb_true_iff, Z.eqb_neq. exact Hne.
Qed.

(** The rows the [WHERE] clause lets through: the ranges overlap and both
    [LIKE] tests were made and failed. *)
Lemma alias_where_true (r : Sql.Impl) :
  Sql.alias_where r = Returned true <->
  Z.max (Sql.check_base r) (Sql.base r) < Z.min (Sql.check_top r) (Sql.top r) /\
  Sql.like (Sql.alias_name r ++ "%") (Sql.name r) = Some false /\
  Sql.like (Sql.name r ++ "%") (Sql.alias_name r) = Some false.
Proof.
  unfold Sql.alias_where.
  destruct (_ <? _)%Z eqn:Hcmp; cbn [negb].
  - apply Z.ltb_lt in Hcmp.
    destruct (Sql.like (Sql.alias_name r ++ "%") (Sql.name r)) as [[|]|].
    + split; [discriminate|]. intros (_ & H & _). discriminate H.
    + destruct (Sql.like (Sql.name r ++ "%") (Sql.alias_name r)) as [[|]|].
      * split; [discriminate|]. intros (_ & _ & H). discriminate H.
      * split; auto.
      * split; [discriminate|]. intros (_ & _ & H). discriminate H.
    + split; [discriminate|]. intros (_ & H & _). discriminate H.
  - apply Z.ltb_ge in Hcmp. split; [discriminate|]. intros (H & _). lia.
Qed.

Lemma select_where_kept (rows kept : list Sql.Impl) :
  Sql.select_where rows = Returned kept ->
  forall r, In r kept <-> In r rows /\ Sql.alias_where r = Returned true.
Proof.
  revert kept. induction rows as [|r0 rows IH]; intros kept H r; cbn in H.
  - inversion H. cbn. tauto.
  - destruct (Sql.alias_where r0) as [keep| | |] eqn:Hw; try discriminate.
    destruct (Sql.select_where rows) as [kept'| | |]; try discriminate.
    inversion H; subst kept; clear H. specialize (IH kept' eq_refl r).
    destruct keep; cbn [In]; rewrite IH; split.
    + intros [<-|[Hin Hr]]; auto.
    + intros [[<-|Hin] Hr]; auto.
    + intros [Hin Hr]; auto.
    + intros [[<-|Hin] Hr]; [congruence|auto].
Qed.

(** The rows of view [alias_bounds] for one owner, when the query
    completes. *)
Lemma alias_bounds_In (db : Sql.Db) (owner_id : Z) (l : list (Z * Z * Z))
  (o s a : Z) :
  Sql.alias_bounds db owner_id = Returned l ->
  (In (o, s, a) l <->
   exists r, In r (Sql.impl db) /\ Sql.owner r = owner_id /\
             Sql.alias_where r = Returned true /\
             (o, s, a) = (Sql.owner r, Sql.impl_id r, Sql.alias_id r)).
Proof.
  unfold Sql.alias_bounds, Sql.alias_bounds_of.
  destruct (Sql.select_where _) as [rows| | |] eqn:Hsel; try discriminate.
  intros H. inversion H; subst l; clear H.
  pose proof (select_where_kept _ _ Hsel) as Hkept.
  rewrite in_map_iff. split.
  - intros (r & Hr & Hin). apply Hkept in Hin. destruct Hin as (Hin & Hw).
    apply filter_In in Hin. destruct Hin as (Hin & Ho). apply Z.eqb_eq in Ho.
    exists r. auto.
  - intros (r & Hin & Ho & Hw & Hr). exists r. split; [auto|].
    apply Hkept. split; [|exact Hw]. apply filter_In. split; [exact Hin|].
    apply Z.eqb_eq. exact Ho.
Qed.

(** Every row of view [alias_bounds] is a pair as C6, amended, describes. *)
Lemma alias_bounds_ok (db : Sql.Db) (owner_id : Z) (l : list (Z * Z * Z)) (o s a : Z) :
  Sql.alias_bounds db owner_id = Returned l ->
  In (o, s, a) l -> alias_pair_ok db (s, a).
Proof.
  intros Hl H. apply (alias_bounds_In db owner_id l o s a Hl) in H.
  destruct H as (r & Himpl & _ & Hwhere & Hr).
  apply impl_In in Himpl.
  destruct Himpl as (mb & alb & alm & Hmb & Halb & Halm & Hid & Howner & Hne & ->).
  apply alias_where_true in Hwhere.
  cbn [Sql.owner Sql.impl_id Sql.alias_id Sql.name Sql.alias_name Sql.base
       Sql.check_base Sql.top Sql.check_top] in Hwhere, Hr.
  destruct Hwhere as (Hcmp & Hlike1 & Hlike2).
  inversion Hr; subst o s a.
  exists mb, alb, alm.
  repeat (split; [first [assumption | reflexivity | congruence]|]).
  split.
  - rewrite <- IIF_nonzero. rewrite Z.max_comm, Z.min_comm. exact Hcmp.
  - split.
    + apply not_like_not_whole_prefix. exact Hlike2.
    + apply not_like_not_whole_prefix. exact Hlike1.
Qed.

(** A statement that completes added its rows to the set; none of them
    was there before or came twice. *)
Lemma insert_alias_elem (rows : list (Z * Z)) (table table' : gset (Z * Z)) :
  Sql.insert_alias rows table = Returned table' ->
  (forall p, p ∈ table' <-> p ∈ table \/ In p rows) /\
  (forall p, In p rows -> p ∉ table).
Proof.
  revert table. induction rows as [|r rows IH]; intros table H; cbn in H.
  - inversion H. split; [|intros p []]. intros p. cbn. tauto.
  - destruct (bool_decide (r ∈ table)) eqn:Hr; [discriminate|].
    apply bool_decide_eq_false in Hr.
    apply IH in H. destruct H as (Hiff & Hnew). split.
    + intros p. rewrite Hiff. cbn [In]. rewrite elem_of_union, elem_of_singleton.
      split; [intros [[->|Hp]|Hp]|intros [Hp|[<-|Hp]]]; auto.
    + intros p [<-|Hp]; [exact Hr|].
      intros Hin. apply (Hnew p Hp). apply elem_of_union. right. exact Hin.
Qed.








(** One run of [find_imprecise_alias_query_]: the other tables are left
    alone and every pair added is as C6, amended, describes. *)
Lemma find_imprecise_alias_ok (db db' : Sql.Db) (owner_id : Z) :
  Sql.find_imprecise_alias db owner_id = Returned db' ->
  Sql.member_bounds db' = Sql.member_bounds db /\
  Sql.struct_member db' = Sql.struct_member db /\
  forall p, p ∈ Sql.subobject_alias db' ->
            p ∈ Sql.subobject_alias db \/ alias_pair_ok db p.
Proof.
  unfold Sql.find_imprecise_alias, Sql.find_imprecise_alias_of.
  fold (Sql.alias_bounds db owner_id). intros H.
  destruct (Sql.alias_bounds db owner_id) as [selected| | |] eqn:Hsel; try discriminate.
  destruct (Sql.insert_alias _ _) as [table| | |] eqn:Hins; try discriminate.
  inversion H; subst db'; clear H. cbn.
  split; [reflexivity|]. split; [reflexivity|].
  apply insert_alias_elem in Hins. destruct Hins as (Hiff & _).
  intros p Hp. apply Hiff in Hp. destruct Hp as [Hp|Hp]; [left; exact Hp|].
  right. apply in_map_iff in Hp. destruct Hp as ([[o s] a] & <- & Hin).
  cbn. eapply alias_bounds_ok; eassumption.
Qed.






(* ===================================================================== *)
(** * Invariants of [VisitCommon] *)
(* ===================================================================== *)

Lemma grows_refl (s : Scraper) : grows s s.
Proof. split; [reflexivity|]. exists []. rewrite app_nil_r. reflexivity. Qed.

Lemma grows_trans (s1 s2 s3 : Scraper) : grows s1 s2 -> grows s2 s3 -> grows s1 s3.
Proof.
  intros [Hm1 [l1 Hl1]] [Hm2 [l2 Hl2]]. split.
  - etransitivity; eassumption.
  - exists (l1 ++ l2)%list. rewrite Hl2, Hl1, <- app_assoc. reflexivity.
Qed.

Lemma keeps_state_ret {A} (a : A) : keeps_state (ret a).
Proof. intros s. split; [apply grows_refl|auto]. Qed.

Lemma keeps_state_throw {A} (w : string) : keeps_state (@throw A w).
Proof. intros s. split; [apply grows_refl|auto]. Qed.

Lemma keeps_state_assert_fail {A} (w : string) : keeps_state (@assert_fail A w).
Proof. intros s. split; [apply grows_refl|auto]. Qed.

Lemma keeps_state_out_of_fuel {A} : keeps_state (@out_of_fuel A).
Proof. intros s. split; [apply grows_refl|auto]. Qed.

Lemma keeps_state_LOG (lvl : Log.LogLevel) (text : string) : keeps_state (LOG lvl text).
Proof.
  intros s. split; [split; [reflexivity|eexists; reflexivity]|].
  intros H. exact H.
Qed.

Lemma keeps_state_GetStructTypeId : keeps_state GetStructTypeId.
Proof.
  intros s. split; [split; [reflexivity|exists []; cbn; rewrite app_nil_r; reflexivity]|].
  intros H. exact H.
Qed.

Lemma keeps_state_GetStructMemberId : keeps_state GetStructMemberId.
Proof.
  intros s. split; [split; [reflexivity|exists []; cbn; rewrite app_nil_r; reflexivity]|].
  intros H. exact H.
Qed.

Lemma keeps_state_find_entry (key : StructKey) : keeps_state (find_entry key).
Proof. intros s. split; [apply grows_refl|auto]. Qed.

Lemma keeps_state_insert_entry (key : StructKey) (e : StructTypeEntry.t) :
  entry_wf key e -> keeps_state (insert_entry key e).
Proof.
  intros He s. cbn. destruct (struct_type_map_ s !! key) eqn:Hk.
  - split; [split; [reflexivity|exists []; rewrite app_nil_r; reflexivity]|].
    intros H. exact H.
  - split.
    + split; [apply insert_subseteq; exact Hk|exists []; rewrite app_nil_r; reflexivity].
    + intros H k e' Hl. cbn in Hl.
      apply lookup_insert_Some in Hl. destruct Hl as [[<- <-]|[_ Hl]]; [exact He|].
      exact (H k e' Hl).
Qed.

Lemma keeps_state_bind_post {A B} (m : M A) (k : A -> M B) (Q : A -> Prop) :
  keeps_state m ->
  (forall s a, fst (m s) = Returned a -> Q a) ->
  (forall a, Q a -> keeps_state (k a)) ->
  keeps_state (bind m k).
Proof.
  intros Hm HQ Hk s. unfold bind.
  destruct (Hm s) as [Hg Hw]. specialize (HQ s).
  destruct (m s) as [[a|w|w|] s1]; cbn [fst snd] in *; try (split; assumption).
  destruct (Hk a (HQ a eq_refl) s1) as [Hg' Hw'].
  split; [eapply grows_trans; eassumption|auto].
Qed.

Lemma keeps_state_bind {A B} (m : M A) (k : A -> M B) :
  keeps_state m -> (forall a, keeps_state (k a)) -> keeps_state (bind m k).
Proof.
  intros Hm Hk. apply keeps_state_bind_post with (Q := fun _ => True); auto.
Qed.

Section VisitInvariants.

Variable isLittleEndian : bool.
Variable strip_prefix_ : option string.
Variable fs_relative : string -> string -> string.
Variable AnonymousName : DIE -> option string -> string.
Variable GetTypeInfo : DIE -> TypeInfo.
Variable referenced_type : DIE -> DIE.

Lemma VisitMemberType_owner rec die member s r s' :
  VisitMemberType GetTypeInfo rec die member s = (Returned r, s') ->
  StructMemberRow.owner (fst r) = StructMemberRow.owner member /\
  StructMemberRow.line (fst r) = StructMemberRow.line member /\
  StructMemberRow.id (fst r) = StructMemberRow.id member.
Proof.
  unfold VisitMemberType. destruct (Flags.test _ _).
  - unfold bind. destruct (rec _ _ s) as [[nested|w|w|] s1]; try discriminate.
    destruct nested as [n|]; [|discriminate].
    destruct (n =? 0)%Z; [discriminate|].
    intros H. inversion H. repeat split.
  - intros H. inversion H. repeat split.
Qed.

(** A value with a bit of [record_type_mask] has the struct, the union or
    the class bit. *)
Lemma record_type_mask_cases (flags : Z) :
  Flags.test flags Flags.record_type_mask = true ->
  Flags.test flags Flags.kTypeIsStruct = true \/
  Flags.test flags Flags.kTypeIsUnion = true \/
  Flags.test flags Flags.kTypeIsClass = true.
Proof.
  unfold Flags.test, Flags.not, Flags.and, Flags.record_type_mask, Flags.or.
  rewrite !negb_true_iff, !Z.eqb_neq. intros H.
  destruct (Z.eq_dec (Z.land flags Flags.kTypeIsStruct) 0) as [H1|H1]; [|auto].
  destruct (Z.eq_dec (Z.land flags Flags.kTypeIsUnion) 0) as [H2|H2]; [|auto].
  destruct (Z.eq_dec (Z.land flags Flags.kTypeIsClass) 0) as [H3|H3]; [|auto].
  exfalso. apply H. rewrite !Z.land_lor_distr_r, H1, H2, H3. reflexivity.
Qed.

Lemma keeps_state_VisitMemberType rec die member :
  (forall d k, record_kind k -> keeps_state (rec d k)) ->
  keeps_state (VisitMemberType GetTypeInfo rec die member).
Proof.
  intros Hrec. unfold VisitMemberType. cbn [StructMemberRow.flags].
  destruct (Flags.test _ Flags.record_type_mask) eqn:Hmask; [|apply keeps_state_ret].
  apply keeps_state_bind.
  - apply Hrec. apply record_type_mask_cases in Hmask.
    destruct (Flags.test _ Flags.kTypeIsStruct); [left; reflexivity|].
    destruct (Flags.test _ Flags.kTypeIsUnion); [right; left; reflexivity|].
    destruct (Flags.test _ Flags.kTypeIsClass); [right; right; reflexivity|].
    destruct Hmask as [H|[H|H]]; discriminate H.
  - intros [n|].
    + destruct (n =? 0)%Z; [apply keeps_state_assert_fail|apply keeps_state_ret].
    + apply keeps_state_assert_fail.
Qed.

Lemma VisitMember_collected rec die row member_index s m s' :
  VisitMember isLittleEndian GetTypeInfo referenced_type rec die row member_index s
    = (Returned m, s') ->
  collected row die m.
Proof.
  unfold VisitMember. cbn [StructMemberRow.owner].
  destruct (StructTypeRow.id row =? 0)%Z; [discriminate|].
  unfold bind at 1. cbn [GetStructMemberId].
  unfold bind.
  destruct (VisitMemberType _ _ _ _ _) as [[r|w|w|] s1] eqn:Hty; try discriminate.
  apply VisitMemberType_owner in Hty. destruct Hty as (Ho & Hl & _).
  cbn in Ho, Hl. intros H. inversion H; subst m; clear H.
  unfold collected, set_member_name, VisitMember_offsets, VisitMember_name.
  cbn [StructMemberRow.owner StructMemberRow.line StructMemberRow.bit_size
       StructMemberRow.name].
  repeat split; try assumption.
  intros n Hn. rewrite Hn. reflexivity.
Qed.

Lemma keeps_state_VisitMember rec die row member_index :
  (forall d k, record_kind k -> keeps_state (rec d k)) ->
  keeps_state
    (VisitMember isLittleEndian GetTypeInfo referenced_type rec die row member_index).
Proof.
  intros Hrec. unfold VisitMember.
  destruct (_ =? 0)%Z.
  - apply keeps_state_bind; [apply keeps_state_LOG|]. intros _. apply keeps_state_throw.
  - apply keeps_state_bind; [apply keeps_state_GetStructMemberId|]. intros mid.
    apply keeps_state_bind; [apply keeps_state_VisitMemberType; exact Hrec|].
    intros r. apply keeps_state_ret.
Qed.

Lemma visit_children_rows rec cs row member_index members s members' s' :
  visit_children isLittleEndian GetTypeInfo referenced_type rec cs row member_index
    members s = (Returned members', s') ->
  exists rows,
    members' = (members ++ rows)%list /\
    Forall2 (collected row) (List.filter is_member cs) rows.
Proof.
  revert member_index members s.
  induction cs as [|child cs IH]; intros member_index members s H.
  - cbn in H. inversion H. exists []. rewrite app_nil_r. split; [reflexivity|constructor].
  - cbn [visit_children] in H. cbn [List.filter]. unfold is_member at 1.
    destruct (getTag child); try (exact (IH _ _ _ H)).
    unfold bind in H.
    destruct (VisitMember _ _ _ _ _ _ _ _) as [[m|w|w|] s1] eqn:Hm; try discriminate.
    apply VisitMember_collected in Hm.
    apply IH in H. destruct H as (rows & -> & Hrows).
    exists (m :: rows). rewrite <- app_assoc. split; [reflexivity|].
    constructor; assumption.
Qed.

(** X6. The loop over the children in [VisitCommon]: when it completes,
    the members appended are, in order, one per [DW_TAG_member] child, each
    owned by the record, with the child's line and bit size, and with the
    child's name when it has one. *)
Theorem visit_children_collects rec cs row member_index members s members' s' :
  visit_children isLittleEndian GetTypeInfo referenced_type rec cs row member_index
    members s = (Returned members', s') ->
  exists rows,
    members' = (members ++ rows)%list /\
    Forall2 (collected row) (List.filter is_member cs) rows.
Proof. apply visit_children_rows. Qed.

Lemma keeps_state_visit_children rec cs row member_index members :
  (forall d k, record_kind k -> keeps_state (rec d k)) ->
  keeps_state
    (visit_children isLittleEndian GetTypeInfo referenced_type rec cs row member_index
       members).
Proof.
  intros Hrec. revert member_index members.
  induction cs as [|child cs IH]; intros member_index members; cbn [visit_children].
  - apply keeps_state_ret.
  - destruct (getTag child); try apply IH.
    apply keeps_state_bind; [apply keeps_state_VisitMember; exact Hrec|].
    intros m. apply IH.
Qed.

Lemma keeps_state_VisitCommon fuel die kind :
  record_kind kind ->
  keeps_state
    (VisitCommon isLittleEndian strip_prefix_ fs_relative AnonymousName GetTypeInfo
       referenced_type fuel die kind).
Proof.
  revert die kind. induction fuel as [|fuel IH]; intros die kind Hkind; cbn [VisitCommon].
  - apply keeps_state_out_of_fuel.
  - destruct (DW_AT_declaration die); [apply keeps_state_ret|].
    destruct (DW_AT_specification die).
    { apply keeps_state_bind; [apply keeps_state_LOG|]. intros _. apply keeps_state_throw. }
    destruct (DW_AT_byte_size die) as [size|].
    2:{ apply keeps_state_bind; [apply keeps_state_LOG|]. intros _. apply keeps_state_ret. }
    apply keeps_state_bind; [apply keeps_state_find_entry|]. intros [e|].
    { apply keeps_state_ret. }
    apply keeps_state_bind; [apply keeps_state_GetStructTypeId|]. intros id.
    eapply keeps_state_bind_post with
      (Q := fun ms => Forall (fun m => StructMemberRow.owner m = id) ms).
    + apply keeps_state_visit_children. intros d k Hk. apply IH. exact Hk.
    + intros s ms Hms.
      destruct (visit_children _ _ _ _ _ _ _ _ s) as [o s1] eqn:Hv. cbn in Hms. subst o.
      apply visit_children_rows in Hv. destruct Hv as (rows & -> & Hrows).
      cbn [app]. clear -Hrows.
      induction Hrows as [|c m cs' rows Hc _ IHr]; constructor; [|exact IHr].
      destruct Hc as (Ho & _). exact Ho.
    + intros ms Hms.
      apply keeps_state_bind; [|intros _; apply keeps_state_ret].
      apply keeps_state_insert_entry.
      split; [reflexivity|]. split; [|split; [exact Hms|split; reflexivity]].
      cbn [StructTypeEntry.data StructTypeRow.flags].
      exists kind. split; [exact Hkind|].
      assert (Hk : Flags.or (StructTypeRow.flags StructTypeRow.default) kind = kind)
        by (destruct Hkind as [-> | [-> | ->]]; reflexivity).
      rewrite Hk. destruct (DW_AT_name die); cbn [snd]; auto.
Qed.

(** X7. Whatever the outcome (an id, no id, an exception, a failed
    assertion), a visit started by one of the three tag visitors leaves
    every entry already in [struct_type_map_] as it was and only appends to
    the log. *)
Theorem VisitCommon_only_adds fuel die kind s :
  record_kind kind ->
  grows s
    (snd (VisitCommon isLittleEndian strip_prefix_ fs_relative AnonymousName
            GetTypeInfo referenced_type fuel die kind s)).
Proof. intros Hkind. apply keeps_state_VisitCommon. exact Hkind. Qed.

(** X8. Whatever the outcome, such a visit keeps the map well formed: every
    entry, those of nested types included, is filed under the key of its
    row, carries exactly one of the struct, union and class bits and at
    most the anonymous bit besides (the flags of the member's type do not
    leak into it), owns its members, has an empty flattened layout and is
    not marked to be skipped. *)
Theorem VisitCommon_keeps_map_wf fuel die kind s :
  record_kind kind ->
  map_wf s ->
  map_wf
    (snd (VisitCommon isLittleEndian strip_prefix_ fs_relative AnonymousName
            GetTypeInfo referenced_type fuel die kind s)).
Proof. intros Hkind. apply keeps_state_VisitCommon. exact Hkind. Qed.

(** X9. Visiting an entry again. If a visit returned an id, the entry's
    key is in the map afterwards, and any later visit of the same entry,
    with any kind and any budget, returns the id filed under that key and
    changes nothing: no id is drawn, nothing is logged. *)
Theorem VisitCommon_revisit n die kind id s s' :
  VisitCommon isLittleEndian strip_prefix_ fs_relative AnonymousName GetTypeInfo
    referenced_type (S n) die kind s = (Returned (Some id), s') ->
  exists e,
    struct_type_map_ s' !! die_key strip_prefix_ fs_relative AnonymousName die = Some e /\
    forall n' kind',
      VisitCommon isLittleEndian strip_prefix_ fs_relative AnonymousName GetTypeInfo
        referenced_type (S n') die kind' s'
      = (Returned (Some (StructTypeRow.id (StructTypeEntry.data e))), s').
Proof.
  intros H.
  assert (Hkey : exists e,
            struct_type_map_ s' !! die_key strip_prefix_ fs_relative AnonymousName die
            = Some e /\ passes_guards die).
  { cbn [VisitCommon] in H. unfold passes_guards.
    destruct (DW_AT_declaration die); [discriminate|].
    destruct (DW_AT_specification die); [discriminate|].
    destruct (DW_AT_byte_size die) as [size|] eqn:Hsize; [|discriminate].
    unfold die_key. unfold bind at 1 in H. cbn [find_entry fst snd] in H.
    destruct (DW_AT_name die) as [nm|]; cbn [fst snd] in H.
    - destruct (struct_type_map_ s !! _) as [e|] eqn:Hf.
      + inversion H; subst. exists e. repeat split; congruence.
      + unfold bind in H. cbn [GetStructTypeId] in H.
        destruct (visit_children _ _ _ _ _ _ _ _ _) as [[ms|w|w|] s1]; try discriminate.
        cbn [insert_entry ret] in H. inversion H; subst; clear H. cbn [struct_type_map_].
        destruct (struct_type_map_ s1 !! _) as [e|] eqn:Hk.
        * exists e. repeat split; congruence.
        * eexists. rewrite lookup_insert_eq. repeat split; congruence.
    - destruct (struct_type_map_ s !! _) as [e|] eqn:Hf.
      + inversion H; subst. exists e. repeat split; congruence.
      + unfold bind in H. cbn [GetStructTypeId] in H.
        destruct (visit_children _ _ _ _ _ _ _ _ _) as [[ms|w|w|] s1]; try discriminate.
        cbn [insert_entry ret] in H. inversion H; subst; clear H. cbn [struct_type_map_].
        destruct (struct_type_map_ s1 !! _) as [e|] eqn:Hk.
        * exists e. repeat split; congruence.
        * eexists. rewrite lookup_insert_eq. repeat split; congruence. }
  destruct Hkey as (e & He & Hd & Hs & Hb).
  exists e. split; [exact He|]. intros n' kind'.
  cbn [VisitCommon]. rewrite Hd, Hs.
  destruct (DW_AT_byte_size die) as [size|]; [|congruence].
  unfold die_key in He. unfold bind. cbn [find_entry fst snd].
  destruct (DW_AT_name die) as [nm|]; cbn [fst snd]; rewrite He; reflexivity.
Qed.

End VisitInvariants.

(* ===================================================================== *)
(** * The flattened layout in closed form *)
(* ===================================================================== *)

Section ExpectedLayout.

Variable rr : Z -> Z -> Z * Z.
Variable rp : Z -> Z -> Z.
Variable entry_by_id : gmap Z StructTypeEntry.t.
Hypothesis store_unscanned : unscanned entry_by_id.

Lemma append_rows_id (entry : StructTypeEntry.t) (rows : list MemberBoundsRow.t) :
  StructTypeRow.id (StructTypeEntry.data (append_rows entry rows)) =
  StructTypeRow.id (StructTypeEntry.data entry).
Proof. reflexivity. Qed.

Lemma flatten_members_complete fuel :
  (forall curr offset prefix entry,
     nests_within entry_by_id fuel curr ->
     FlattenedLayout rr rp entry_by_id fuel curr offset prefix entry =
     Returned (append_rows entry
                 (expected_layout rr rp entry_by_id fuel
                    (StructTypeRow.id (StructTypeEntry.data entry)) curr offset prefix))) ->
  forall ms offset prefix entry,
    Forall
      (fun m =>
         match StructMemberRow.nested m with
         | None => True
         | Some nid =>
             nid <> 0 /\
             exists nested, entry_by_id !! nid = Some nested /\
                            nests_within entry_by_id fuel nested
         end) ms ->
    flatten_members rr rp entry_by_id (FlattenedLayout rr rp entry_by_id fuel)
      ms offset prefix entry =
    Returned (append_rows entry
                (expected_members rr rp entry_by_id
                   (fun nested =>
                      expected_layout rr rp entry_by_id fuel
                        (StructTypeRow.id (StructTypeEntry.data entry)) nested 0
                        (StructTypeRow.name (StructTypeEntry.data nested)))
                   (StructTypeRow.id (StructTypeEntry.data entry)) ms offset prefix)).
Proof.
  intros Hrec ms. induction ms as [|m ms IH]; intros offset prefix entry Hms.
  - cbn. rewrite append_rows_nil. reflexivity.
  - inversion Hms as [|? ? Hm Hms']; subst.
    cbn [flatten_members expected_members].
    change (read_has_imprecise _ entry) with entry.
    destruct (StructMemberRow.nested m) as [nid|].
    + destruct Hm as (Hnz & nested & Hn & Hdeep).
      apply Z.eqb_neq in Hnz. rewrite Hnz, Hn.
      rewrite (store_unscanned nid nested Hn). cbn [empty merge_nested].
      rewrite (Hrec nested 0 _ entry Hdeep).
      rewrite push_back_append, append_rows_app.
      rewrite IH by exact Hms'. rewrite append_rows_app, append_rows_id.
      rewrite <- !app_assoc. reflexivity.
    + rewrite push_back_append. rewrite IH by exact Hms'.
      rewrite append_rows_app, append_rows_id. reflexivity.
Qed.

Lemma FlattenedLayout_complete fuel curr offset prefix entry :
  nests_within entry_by_id fuel curr ->
  FlattenedLayout rr rp entry_by_id fuel curr offset prefix entry =
  Returned (append_rows entry
              (expected_layout rr rp entry_by_id fuel
                 (StructTypeRow.id (StructTypeEntry.data entry)) curr offset prefix)).
Proof.
  revert curr offset prefix entry.
  induction fuel as [|fuel IH]; intros curr offset prefix entry H; [destruct H|].
  cbn [FlattenedLayout expected_layout nests_within] in *.
  apply flatten_members_complete; assumption.
Qed.

Lemma flatten_members_sound fuel :
  (forall curr offset prefix entry e',
     FlattenedLayout rr rp entry_by_id fuel curr offset prefix entry = Returned e' ->
     nests_within entry_by_id fuel curr) ->
  forall ms offset prefix entry e',
    flatten_members rr rp entry_by_id (FlattenedLayout rr rp entry_by_id fuel)
      ms offset prefix entry = Returned e' ->
    Forall
      (fun m =>
         match StructMemberRow.nested m with
         | None => True
         | Some nid =>
             nid <> 0 /\
             exists nested, entry_by_id !! nid = Some nested /\
                            nests_within entry_by_id fuel nested
         end) ms.
Proof.
  intros Hrec ms. induction ms as [|m ms IH]; intros offset prefix entry e' H.
  - constructor.
  - cbn [flatten_members] in H.
    change (read_has_imprecise _ entry) with entry in H.
    destruct (StructMemberRow.nested m) as [nid|] eqn:Hnid.
    + destruct (nid =? 0)%Z eqn:Hnz; [discriminate|]. apply Z.eqb_neq in Hnz.
      destruct (entry_by_id !! nid) as [nested|] eqn:Hn; [|discriminate].
      rewrite (store_unscanned nid nested Hn) in H. cbn [empty merge_nested] in H.
      destruct (FlattenedLayout _ _ _ _ nested 0 _ entry) as [e1| | |] eqn:Hr;
        try discriminate.
      apply Hrec in Hr. apply IH in H.
      constructor; [|exact H]. rewrite Hnid. split; [exact Hnz|].
      exists nested. split; [exact Hn|exact Hr].
    + apply IH in H. constructor; [|exact H]. rewrite Hnid. exact I.
Qed.

Lemma FlattenedLayout_sound fuel curr offset prefix entry e' :
  FlattenedLayout rr rp entry_by_id fuel curr offset prefix entry = Returned e' ->
  nests_within entry_by_id fuel curr.
Proof.
  revert curr offset prefix entry e'.
  induction fuel as [|fuel IH]; intros curr offset prefix entry e' H; [discriminate|].
  cbn [FlattenedLayout nests_within] in *.
  eapply flatten_members_sound; eauto.
Qed.

(** X10. When no entry has been flattened before, [FindSubobjectCapabilities]
    returns exactly when every nested id reachable from the entry is
    non-zero and resolves in [entry_by_id] and the nesting is less than the
    budget deep; what it returns is the entry with, appended, for each
    member in declaration order the rows of its nested type (computed at
    offset 0 under the nested type's name) followed by the member's own
    row. *)
Theorem FindSubobjectCapabilities_closed_form fuel entry e' :
  StructTypeEntry.flattened_layout entry = [] ->
  (FindSubobjectCapabilities rr rp entry_by_id fuel entry = Returned e' <->
   nests_within entry_by_id fuel entry /\
   e' = append_rows entry
          (expected_layout rr rp entry_by_id fuel
             (StructTypeRow.id (StructTypeEntry.data entry)) entry 0
             (StructTypeRow.name (StructTypeEntry.data entry)))).
Proof.
  intros Hfresh. unfold FindSubobjectCapabilities. rewrite Hfresh. cbn [empty negb].
  split.
  - intros H. pose proof (FlattenedLayout_sound _ _ _ _ _ _ H) as Hn.
    split; [exact Hn|].
    rewrite (FlattenedLayout_complete _ _ _ _ _ Hn) in H. inversion H. reflexivity.
  - intros [Hn ->]. apply FlattenedLayout_complete. exact Hn.
Qed.

Lemma expected_members_owner nested_rows owner ms offset prefix :
  (forall nested, Forall (fun r => MemberBoundsRow.owner r = owner) (nested_rows nested)) ->
  Forall (fun r => MemberBoundsRow.owner r = owner)
         (expected_members rr rp entry_by_id nested_rows owner ms offset prefix).
Proof.
  intros Hn. induction ms as [|m ms IH]; cbn [expected_members]; [constructor|].
  apply Forall_app_2.
  - destruct (StructMemberRow.nested m) as [nid|]; [|constructor].
    destruct (entry_by_id !! nid); [apply Hn|constructor].
  - constructor; [reflexivity|exact IH].
Qed.

Lemma expected_layout_owner fuel owner curr offset prefix :
  Forall (fun r => MemberBoundsRow.owner r = owner)
         (expected_layout rr rp entry_by_id fuel owner curr offset prefix).
Proof.
  revert curr offset prefix. induction fuel as [|fuel IH]; intros; cbn [expected_layout].
  - constructor.
  - apply expected_members_owner. intros nested. apply IH.
Qed.

(** X12. When no entry has been flattened before, every row of the layout
    [FindSubobjectCapabilities] returns, the rows of nested types
    included, has the id of the top-level entry as its owner. *)
Theorem flattened_rows_owned_by_entry fuel entry e' :
  StructTypeEntry.flattened_layout entry = [] ->
  FindSubobjectCapabilities rr rp entry_by_id fuel entry = Returned e' ->
  Forall (fun r => MemberBoundsRow.owner r = StructTypeRow.id (StructTypeEntry.data entry))
         (StructTypeEntry.flattened_layout e').
Proof.
  intros Hfresh H. unfold FindSubobjectCapabilities in H.
  rewrite Hfresh in H. cbn [empty negb] in H.
  pose proof (FlattenedLayout_sound _ _ _ _ _ _ H) as Hn.
  rewrite (FlattenedLayout_complete _ _ _ _ _ Hn) in H. inversion H.
  cbn. rewrite Hfresh. cbn. apply expected_layout_owner.
Qed.

End ExpectedLayout.

(** A loop over members that returns has passed each member with a nested
    type; where the nested entry has no stored layout, the recursive call
    on it has returned. *)
Lemma flatten_members_calls rr rp entry_by_id f nid e m ms offset prefix entry e' :
  entry_by_id !! nid = Some e ->
  StructTypeEntry.flattened_layout e = [] ->
  In m ms ->
  StructMemberRow.nested m = Some nid ->
  flatten_members rr rp entry_by_id f ms offset prefix entry = Returned e' ->
  exists entry0 e1, f e 0 (StructTypeRow.name (StructTypeEntry.data e)) entry0 = Returned e1.
Proof.
  intros He Hfresh Hm Hnested. revert entry.
  induction ms as [|m0 ms IH]; intros entry H; [destruct Hm|].
  cbn [flatten_members] in H. change (read_has_imprecise _ entry) with entry in H.
  destruct Hm as [->|Hm].
  - rewrite Hnested in H. destruct (nid =? 0)%Z; [discriminate|].
    rewrite He, Hfresh in H. cbn [empty] in H.
    destruct (f e 0 _ entry) as [e1| | |] eqn:Hcall; try discriminate.
    exists entry, e1. exact Hcall.
  - destruct (StructMemberRow.nested m0) as [nid0|].
    + destruct (nid0 =? 0)%Z; [discriminate|].
      destruct (entry_by_id !! nid0) as [nested|]; [|discriminate].
      destruct (if empty _ then _ else _) as [e1| | |]; try discriminate.
      destruct (merge_nested _ _ _ _ _) as [e2| | |]; try discriminate.
      exact (IH Hm _ H).
    + exact (IH Hm _ H).
Qed.

(** X11. A record that contains itself: if the entry filed under [nid] has
    no stored layout and one of its members names [nid] as its nested type,
    flattening that entry never returns, whatever the budget: the recursion
    of the lambda has no end. *)
Theorem self_nested_entry_never_flattens rr rp entry_by_id fuel nid e m offset prefix
  entry e' :
  entry_by_id !! nid = Some e ->
  StructTypeEntry.flattened_layout e = [] ->
  In m (StructTypeEntry.members e) ->
  StructMemberRow.nested m = Some nid ->
  FlattenedLayout rr rp entry_by_id fuel e offset prefix entry <> Returned e'.
Proof.
  intros He Hfresh Hm Hnested. revert offset prefix entry e'.
  induction fuel as [|fuel IH]; intros offset prefix entry e' H; [discriminate H|].
  cbn [FlattenedLayout] in H.
  destruct (flatten_members_calls _ _ _ _ _ _ _ _ _ _ _ _ He Hfresh Hm Hnested H)
    as (entry0 & e1 & Hcall).
  exact (IH _ _ _ _ Hcall).
Qed.

(* ===================================================================== *)
(** * Further properties of the logger and of the visitors *)
(* ===================================================================== *)

(** X13. One use of [LOG(level) << text] through the default logger of a
    fresh process writes one line, [[THR id][LEVEL] text], for [kError] (to
    standard error), [kWarn] and [kInfo] (to standard output) and nothing
    for [kDebug] and [kTrace]; once [SetLevel(kTrace)] has been called it
    writes one line at every level, those of [kDebug] and [kTrace] to
    standard error. *)
Theorem default_logger_lines (thr text : string) (lvl : Log.LogLevel) :
  let line := "[THR " ++ thr ++ "]" ++ Log.level_tag lvl ++ " " ++ text in
  log_lines thr (Log.Default None) lvl text =
    match lvl with
    | Log.kError => [(Log.Cerr, line)]
    | Log.kWarn | Log.kInfo => [(Log.Cout, line)]
    | Log.kDebug | Log.kTrace => []
    end /\
  log_lines thr (Log.SetLevel (Log.Default None) Log.kTrace) lvl text =
    match lvl with
    | Log.kWarn | Log.kInfo => [(Log.Cout, line)]
    | _ => [(Log.Cerr, line)]
    end.
Proof. destruct lvl; split; reflexivity. Qed.

(** X14. [Default] attaches the console sink only when it creates the
    logger. If [Get] ran first, as it does on the first use of [LOG], the
    logger [Default] returns is the blank one: nothing is ever written, at
    any level, whatever [SetLevel] is called with, until a sink is added by
    hand. *)
Theorem default_after_get_is_silent (thr text : string) (lvl filter : Log.LogLevel) :
  let logger := Log.Default (Some (Log.Get None)) in
  Log.sinks_ logger = [] /\
  log_lines thr logger lvl text = [] /\
  log_lines thr (Log.SetLevel logger filter) lvl text = [] /\
  log_lines thr (Log.AddSink logger Log.ConsoleLogSink) Log.kInfo text =
    [(Log.Cout, "[THR " ++ thr ++ "]" ++ "[INFO]" ++ " " ++ text)].
Proof. destruct lvl, filter; repeat split; reflexivity. Qed.

(** [BeginUnit] does not touch [struct_type_map_] or the id counters
    and always logs exactly one message; it returns when the unit has a
    name that is a string, logging it at [kDebug], and otherwise logs at
    [kError] and throws. *)
Theorem BeginUnit_outcome (at_name : NameAttr) (s : Scraper) :
  let r := BeginUnit at_name s in
  struct_type_map_ (snd r) = struct_type_map_ s /\
  struct_id (snd r) = struct_id s /\
  member_id (snd r) = member_id s /\
  match at_name with
  | NameString unit_name =>
      fst r = Returned tt /\
      emitted (snd r) =
        (emitted s ++ [Log.mkLogMessage Log.kDebug ("Enter compilation unit " ++ unit_name)])%list
  | _ =>
      fst r = Thrown "Invalid compliation unit" /\
      exists text, emitted (snd r) = (emitted s ++ [Log.mkLogMessage Log.kError text])%list
  end.
Proof.
  destruct at_name; cbn; repeat split; eexists; reflexivity.
Qed.

(** X16. The offsets [VisitMember] stores. Without [DW_AT_data_bit_offset]
    and [DW_AT_bit_offset] there is no bit offset and the byte offset is the
    member location (0 when absent). With either of them the bit offset is
    present, below 8, and the byte offset is below 2^61: the pair splits a
    64-bit bit position. *)
Theorem stored_offsets_bounds (le : bool) (die : DIE) (member : StructMemberRow.t) :
  let stored := VisitMember_offsets le die member in
  match DW_AT_data_bit_offset die, DW_AT_bit_offset die with
  | None, None =>
      StructMemberRow.bit_offset stored = None /\
      StructMemberRow.byte_offset stored = value_or (DW_AT_data_member_location die) 0
  | _, _ =>
      exists bit, StructMemberRow.bit_offset stored = Some bit /\
                  0 <= bit < 8 /\
                  0 <= StructMemberRow.byte_offset stored < 2 ^ 61
  end.
Proof.
  assert (Hsplit : forall P, 0 <= P < U64.modulus ->
            0 <= U64.rem P 8 < 8 /\ 0 <= U64.div P 8 < 2 ^ 61).
  { intros P HP. unfold U64.rem, U64.div, U64.modulus in *. split.
    - apply Z.mod_pos_bound. lia.
    - split; [apply Z.div_pos; lia|].
      apply Z.div_lt_upper_bound; [lia|]. change (8 * 2 ^ 61) with (2 ^ 64). lia. }
  assert (Hwrap : forall z, 0 <= U64.wrap z < U64.modulus)
    by (intros z; apply Z.mod_pos_bound; reflexivity).
  cbn zeta. unfold VisitMember_offsets.
  cbn [StructMemberRow.bit_offset StructMemberRow.byte_offset].
  destruct (DW_AT_data_bit_offset die) as [dbo|], (DW_AT_bit_offset die) as [old|].
  - destruct le; eexists; (split; [reflexivity|]); apply Hsplit; apply Hwrap.
  - eexists; (split; [reflexivity|]); apply Hsplit; apply Hwrap.
  - destruct le; eexists; (split; [reflexivity|]); apply Hsplit; apply Hwrap.
  - split; reflexivity.
Qed.

(** X17. In a union, two members without [DW_AT_name] get the same
    synthetic name only if they have the same member index. *)
Theorem union_anonymous_names_distinct (die1 die2 : DIE) (row : StructTypeRow.t)
  (i j : Z) (m1 m2 : StructMemberRow.t) :
  Flags.test (StructTypeRow.flags row) Flags.kTypeIsUnion = true ->
  DW_AT_name die1 = None ->
  DW_AT_name die2 = None ->
  VisitMember_name die1 row i m1 = VisitMember_name die2 row j m2 ->
  i = j.
Proof.
  intros Hunion H1 H2. unfold VisitMember_name. rewrite Hunion, H1, H2. cbn [value_or].
  intros H. apply String.app_inj in H. apply pretty_Z_inj in H. exact H.
Qed.

Lemma union_anonymous_names_distinct_witness :
  VisitMember_name More.anonymous_member_die (StructTypeEntry.data Sample.V_entry) 1
    StructMemberRow.default = "<anon>@1" /\
  1 = 1.
Proof.
  split; [reflexivity|].
  apply (union_anonymous_names_distinct More.anonymous_member_die
           More.anonymous_member_die (StructTypeEntry.data Sample.V_entry) 1 1
           StructMemberRow.default StructMemberRow.default);
    reflexivity.
Defined.

(* ===================================================================== *)
(** * Properties of the store operations *)
(* ===================================================================== *)

Lemma struct_type_conflict_iff (old r : StructTypeRow.t) :
  Sql.struct_type_conflict old r = true <->
  StructTypeRow.id old = StructTypeRow.id r \/ row_key old = row_key r.
Proof.
  unfold Sql.struct_type_conflict, row_key.
  rewrite orb_true_iff, !andb_true_iff, Z.eqb_eq, !String.eqb_eq, Z.eqb_eq.
  split; intros [H|H]; auto.
  - right. destruct H as [[-> ->] ->]. reflexivity.
  - right. inversion H. auto.
Qed.

Lemma existsb_false_forall {A} (f : A -> bool) (l : list A) :
  existsb f l = false -> forall x, In x l -> f x = false.
Proof.
  induction l as [|a l IH]; cbn; intros H x Hx; [destruct Hx|].
  apply orb_false_iff in H. destruct H as [Ha Hl].
  destruct Hx as [<-|Hx]; auto.
Qed.

Lemma set_id_fold_key (found : list StructTypeRow.t) (r : StructTypeRow.t) :
  row_key (fold_left (fun r f => Sql.set_id r (StructTypeRow.id f)) found r) = row_key r.
Proof.
  revert r. induction found as [|f found IH]; intros r; [reflexivity|].
  cbn [fold_left]. rewrite IH. reflexivity.
Qed.

Lemma select_struct_key (db : Sql.Db) (r x : StructTypeRow.t) :
  In x (Sql.select_struct db (StructTypeRow.file r) (StructTypeRow.line r)
          (StructTypeRow.name r)) <->
  In x (Sql.struct_type db) /\ row_key x = row_key r.
Proof.
  unfold Sql.select_struct, row_key. rewrite filter_In.
  rewrite !andb_true_iff, !String.eqb_eq, Z.eqb_eq.
  split; intros [Hin H]; (split; [exact Hin|]).
  - destruct H as [[-> ->] ->]. reflexivity.
  - inversion H. auto.
Qed.

(** With unique keys, all the rows the fallback [SELECT] yields have one
    id, which the row ends up with. *)
Lemma select_struct_id (db : Sql.Db) (r x : StructTypeRow.t) :
  NoDup (map row_key (Sql.struct_type db)) ->
  In x (Sql.struct_type db) -> row_key x = row_key r ->
  StructTypeRow.id
    (fold_left (fun r f => Sql.set_id r (StructTypeRow.id f))
       (Sql.select_struct db (StructTypeRow.file r) (StructTypeRow.line r)
          (StructTypeRow.name r)) r) = StructTypeRow.id x.
Proof.
  intros Hnd Hx Hk.
  assert (Hall : forall y,
            In y (Sql.select_struct db (StructTypeRow.file r) (StructTypeRow.line r)
                    (StructTypeRow.name r)) -> y = x).
  { intros y Hy. apply select_struct_key in Hy. destruct Hy as [Hy Hky].
    clear -Hnd Hx Hy Hk Hky.
    induction (Sql.struct_type db) as [|a l IH]; [destruct Hx|].
    cbn in Hnd. apply NoDup_cons in Hnd. destruct Hnd as [Ha Hl].
    destruct Hx as [->|Hx], Hy as [->|Hy]; auto.
    - exfalso. apply Ha. apply list_elem_of_In, in_map_iff. exists y. split; congruence.
    - exfalso. apply Ha. apply list_elem_of_In, in_map_iff. exists x. split; congruence. }
  assert (Hne : In x (Sql.select_struct db (StructTypeRow.file r) (StructTypeRow.line r)
                        (StructTypeRow.name r)))
    by (apply select_struct_key; auto).
  revert Hall Hne.
  generalize (Sql.select_struct db (StructTypeRow.file r) (StructTypeRow.line r)
                (StructTypeRow.name r)).
  intros found. revert r Hk. induction found as [|f found IH]; intros r Hk Hall Hne.
  - destruct Hne.
  - cbn [fold_left]. destruct found as [|g found'].
    + cbn. rewrite (Hall f (or_introl eq_refl)). reflexivity.
    + apply IH.
      * exact Hk.
      * intros y Hy. apply Hall. right. exact Hy.
      * left. apply Hall. right. left. reflexivity.
Qed.

Lemma set_id_same (r : StructTypeRow.t) : Sql.set_id r (StructTypeRow.id r) = r.
Proof. destruct r. reflexivity. Qed.

(** What one call of [InsertStructLayout] does to a table that satisfies
    its constraints. *)
Lemma InsertStructLayout_spec (db : Sql.Db) (r : StructTypeRow.t) :
  struct_type_wf (Sql.struct_type db) ->
  let res := Sql.InsertStructLayout db r in
  let new_entry := fst (fst res) in
  let r' := snd (fst res) in
  let db' := snd res in
  struct_type_wf (Sql.struct_type db') /\
  row_key r' = row_key r /\
  incl (Sql.struct_type db) (Sql.struct_type db') /\
  (forall x, In x (Sql.struct_type db') -> row_key x = row_key r ->
             StructTypeRow.id x = StructTypeRow.id r') /\
  (new_entry = true ->
   r' = r /\
   (forall old, In old (Sql.struct_type db) ->
                StructTypeRow.id old <> StructTypeRow.id r /\ row_key old <> row_key r) /\
   exists x, Sql.struct_type db' = (Sql.struct_type db ++ [x])%list /\
             StructTypeRow.id x = StructTypeRow.id r /\ row_key x = row_key r /\
             StructTypeRow.has_imprecise x = false) /\
  (new_entry = false ->
   db' = db /\
   exists old, In old (Sql.struct_type db) /\
               (StructTypeRow.id old = StructTypeRow.id r \/ row_key old = row_key r)).
Proof.
  intros [Hid Hkey]. cbn zeta. unfold Sql.InsertStructLayout.
  destruct (existsb _ _) eqn:Hex; cbn [fst snd].
  - split; [split; assumption|]. split; [apply set_id_fold_key|].
    split; [apply incl_refl|]. split.
    + intros x Hx Hk. symmetry. apply select_struct_id; assumption.
    + split; [discriminate|]. intros _. split; [reflexivity|].
      apply existsb_exists in Hex. destruct Hex as (old & Hold & Hc).
      exists old. split; [exact Hold|]. apply struct_type_conflict_iff. exact Hc.
  - pose proof (existsb_false_forall _ _ Hex) as Hnone. cbn beta in Hnone.
    assert (Hfree : forall old, In old (Sql.struct_type db) ->
              StructTypeRow.id old <> StructTypeRow.id r /\ row_key old <> row_key r).
    { intros old Hold. specialize (Hnone old Hold).
      split; intros Heq;
        (assert (Hc : Sql.struct_type_conflict old r = true)
           by (apply struct_type_conflict_iff; auto));
        congruence. }
    cbn [Sql.struct_type StructTypeRow.id].
    split.
    { split; rewrite map_app; apply NoDup_app; (split; [assumption|]);
        (split; [|cbn; apply NoDup_singleton]); intros y Hy Hy';
        apply list_elem_of_singleton in Hy'; apply list_elem_of_In, in_map_iff in Hy;
        destruct Hy as (old & Ho & Hold); destruct (Hfree old Hold) as [H1 H2];
        cbn in Hy'; unfold row_key in *; cbn in Hy'; congruence. }
    rewrite set_id_same.
    split; [reflexivity|]. split; [apply incl_appl, incl_refl|]. split.
    + intros x Hx Hk. apply in_app_or in Hx. destruct Hx as [Hx|[<-|[]]]; [|reflexivity].
      destruct (Hfree x Hx) as [_ H2]. contradiction.
    + split; [|discriminate]. intros _. split; [reflexivity|]. split; [exact Hfree|].
      eexists. split; [reflexivity|]. repeat split.
Qed.

(** X18. [InsertStructLayout] on a table with unique ids and unique keys:
    the table keeps both; afterwards any stored row with the key of the row
    passed in has the id the row now carries, be it newly inserted or found
    by the fallback [SELECT]; and when the insert is refused nothing is
    written. *)
Theorem InsertStructLayout_keeps_constraints (db : Sql.Db) (r : StructTypeRow.t) :
  struct_type_wf (Sql.struct_type db) ->
  let res := Sql.InsertStructLayout db r in
  struct_type_wf (Sql.struct_type (snd res)) /\
  (forall x, In x (Sql.struct_type (snd res)) -> row_key x = row_key r ->
             StructTypeRow.id x = StructTypeRow.id (snd (fst res))) /\
  (fst (fst res) = false -> snd res = db).
Proof.
  intros Hwf. destruct (InsertStructLayout_spec db r Hwf) as (H1 & _ & _ & H4 & _ & H6).
  cbn zeta. split; [exact H1|]. split; [exact H4|].
  intros Hnew. apply H6. exact Hnew.
Qed.

Lemma InsertStructLayout_keeps_constraints_witness :
  let res := Sql.InsertStructLayout More.one_type_db (More.S_row 7 "S") in
  struct_type_wf (Sql.struct_type More.one_type_db) /\
  fst res = (false, More.S_row 2 "S") /\
  struct_type_wf (Sql.struct_type (snd res)) /\
  (forall x, In x (Sql.struct_type (snd res)) -> row_key x = row_key (More.S_row 7 "S") ->
             StructTypeRow.id x = StructTypeRow.id (snd (fst res))) /\
  (fst (fst res) = false -> snd res = More.one_type_db).
Proof.
  assert (Hwf : struct_type_wf (Sql.struct_type More.one_type_db)).
  { split; cbn; apply NoDup_singleton. }
  cbn zeta. split; [exact Hwf|]. split; [reflexivity|].
  exact (InsertStructLayout_keeps_constraints More.one_type_db (More.S_row 7 "S") Hwf).
Defined.

(** X19. The [INSERT] carries the id drawn by the process, and [ON
    CONFLICT DO NOTHING] also covers the primary key. So a type whose
    local id is already the id of a stored row of another type, and whose
    key is not stored, is not written: the call reports a duplicate, the
    fallback [SELECT] finds nothing, and the row keeps its local id. *)
Theorem InsertStructLayout_id_collision (db : Sql.Db) (r old : StructTypeRow.t) :
  In old (Sql.struct_type db) ->
  StructTypeRow.id old = StructTypeRow.id r ->
  (forall x, In x (Sql.struct_type db) -> row_key x <> row_key r) ->
  Sql.InsertStructLayout db r = (false, r, db).
Proof.
  intros Hold Hid Hkeys. unfold Sql.InsertStructLayout.
  assert (Hex : existsb (fun o => Sql.struct_type_conflict o r) (Sql.struct_type db) = true).
  { apply existsb_exists. exists old. split; [exact Hold|].
    apply struct_type_conflict_iff. left. exact Hid. }
  rewrite Hex.
  assert (Hsel : Sql.select_struct db (StructTypeRow.file r) (StructTypeRow.line r)
                   (StructTypeRow.name r) = []).
  { destruct (Sql.select_struct _ _ _ _) as [|x l] eqn:Hs; [reflexivity|].
    assert (Hx : In x (Sql.select_struct db (StructTypeRow.file r) (StructTypeRow.line r)
                         (StructTypeRow.name r))) by (rewrite Hs; left; reflexivity).
    apply select_struct_key in Hx. destruct Hx as [Hx Hk].
    exfalso. exact (Hkeys x Hx Hk). }
  rewrite Hsel. reflexivity.
Qed.

Lemma InsertStructLayout_id_collision_witness :
  In (More.S_row 2 "S") (Sql.struct_type More.one_type_db) /\
  Sql.InsertStructLayout More.one_type_db (More.S_row 2 "T") =
    (false, More.S_row 2 "T", More.one_type_db).
Proof.
  split; [left; reflexivity|].
  apply (InsertStructLayout_id_collision More.one_type_db (More.S_row 2 "T")
           (More.S_row 2 "S")).
  - left. reflexivity.
  - reflexivity.
  - intros x [<-|[]]. discriminate.
Defined.

Lemma EndUnit_structs_entries ps acc res :
  struct_type_wf (Sql.struct_type (store acc)) ->
  NoDup (map (fun p => row_key (StructTypeEntry.data (snd p))) ps) ->
  EndUnit_structs ps acc = Returned res ->
  struct_type_wf (Sql.struct_type (store res)) /\
  incl (Sql.struct_type (store acc)) (Sql.struct_type (store res)) /\
  (forall x, In x (Sql.struct_type (store res)) ->
     In x (Sql.struct_type (store acc)) \/
     exists p, In p ps /\ row_key x = row_key (StructTypeEntry.data (snd p))) /\
  exists ps', entries res = (entries acc ++ ps')%list /\
              Forall2 (inserted_entry (Sql.struct_type (store res))) ps ps'.
Proof.
  revert acc. induction ps as [|[key entry] ps IH]; intros acc Hwf Hnd H.
  - cbn in H. inversion H; subst res. split; [exact Hwf|]. split; [apply incl_refl|].
    split; [auto|]. exists []. rewrite app_nil_r. split; [reflexivity|constructor].
  - cbn [EndUnit_structs] in H.
    destruct (_ =? 0)%Z; [discriminate|].
    pose proof (InsertStructLayout_spec (store acc) (StructTypeEntry.data entry) Hwf)
      as Hspec. cbn zeta in Hspec.
    destruct (Sql.InsertStructLayout (store acc) (StructTypeEntry.data entry))
      as [[new_entry data] db1]. cbn [fst snd] in Hspec.
    destruct Hspec as (Hwf1 & Hk & Hincl1 & Hids & Hnew & Hdup).
    destruct (_ =? 0)%Z; [discriminate|].
    cbn [map] in Hnd. apply NoDup_cons in Hnd. destruct Hnd as [Hhead Hnd].
    apply IH in H; [|exact Hwf1|exact Hnd]. cbn [store entries] in H.
    destruct H as (Hwfr & Hinclr & Horigin & ps' & Hentries & Hrest).
    split; [exact Hwfr|]. split; [eapply incl_tran; eassumption|]. split.
    { intros x Hx. destruct (Horigin x Hx) as [Hx1|(p & Hp & Hkp)].
      - destruct new_entry.
        + destruct (Hnew eq_refl) as (_ & _ & y & Hy & _ & Hky & _).
          rewrite Hy in Hx1. apply in_app_or in Hx1. destruct Hx1 as [Hx1|[<-|[]]].
          * left. exact Hx1.
          * right. exists (key, entry). split; [left; reflexivity|exact Hky].
        + destruct (Hdup eq_refl) as (-> & _). left. exact Hx1.
      - right. exists p. split; [right; exact Hp|exact Hkp]. }
    eexists. rewrite Hentries, <- app_assoc. split; [reflexivity|].
    constructor; [|exact Hrest].
    unfold inserted_entry. cbn [fst snd set_data_skip StructTypeEntry.members
      StructTypeEntry.data StructTypeEntry.skip_postprocess].
    split; [reflexivity|]. split; [reflexivity|]. split; [exact Hk|]. split.
    + intros x Hx Hkx. destruct (Horigin x Hx) as [Hx1|(p & Hp & Hkp)].
      * apply Hids; assumption.
      * exfalso. apply Hhead. apply list_elem_of_In, in_map_iff.
        exists p. split; [cbn [snd] in Hkx |- *; congruence|exact Hp].
    + intros Hskip. destruct new_entry; [|discriminate].
      destruct (Hnew eq_refl) as (-> & _ & y & Hy & Hiy & Hky & _).
      split; [exact Hskip|]. split; [reflexivity|].
      exists y. split; [|split; assumption].
      apply Hinclr. rewrite Hy. apply in_or_app. right. left. reflexivity.
Qed.

(** X20. The first loop of [EndUnit], started on a table with unique ids
    and keys, over entries with pairwise distinct keys. When it completes
    the table still has unique ids and keys and has lost no row; every
    entry keeps its members and key; any stored row with an entry's key has
    the id the entry now carries; and an entry is left for post-processing
    only if it was so before, kept its local id, and its row is in the
    table under that id. *)
Theorem EndUnit_structs_fixes_ids ps db res :
  struct_type_wf (Sql.struct_type db) ->
  NoDup (map (fun p => row_key (StructTypeEntry.data (snd p))) ps) ->
  EndUnit_structs ps (mkInserted [] db ∅ ∅) = Returned res ->
  struct_type_wf (Sql.struct_type (store res)) /\
  incl (Sql.struct_type db) (Sql.struct_type (store res)) /\
  Forall2 (inserted_entry (Sql.struct_type (store res))) ps (entries res).
Proof.
  intros Hwf Hnd H.
  destruct (EndUnit_structs_entries ps (mkInserted [] db ∅ ∅) res Hwf Hnd H)
    as (H1 & H2 & _ & ps' & Hentries & Hrest).
  cbn [entries app] in Hentries. rewrite Hentries. auto.
Qed.

(** A unit that defines [S] again and a new type [T], against a table that
    holds [S] under id 2: [S] takes id 2 and is skipped, [T] is inserted. *)
Lemma EndUnit_structs_fixes_ids_witness :
  exists res,
    EndUnit_structs [More.S_again; More.T_new] (mkInserted [] More.one_type_db ∅ ∅)
      = Returned res /\
    map (fun p => (StructTypeRow.id (StructTypeEntry.data (snd p)),
                   StructTypeEntry.skip_postprocess (snd p))) (entries res)
      = [(2, true); (8, false)] /\
    remap_id res !! 7 = Some 2 /\
    struct_type_wf (Sql.struct_type (store res)) /\
    incl (Sql.struct_type More.one_type_db) (Sql.struct_type (store res)) /\
    Forall2 (inserted_entry (Sql.struct_type (store res)))
            [More.S_again; More.T_new] (entries res).
Proof.
  eexists. split; [vm_compute; reflexivity|]. split; [reflexivity|].
  split; [reflexivity|].
  apply (EndUnit_structs_fixes_ids [More.S_again; More.T_new] More.one_type_db).
  - split; cbn; apply NoDup_singleton.
  - cbn. apply NoDup_cons. split; [|apply NoDup_singleton].
    intros H. apply list_elem_of_singleton in H. discriminate H.
  - vm_compute. reflexivity.
Defined.




(** X22. Running [find_imprecise_alias_query_] again for the same owner,
    with [member_bounds] and [struct_member] as they were: if the first run
    inserted nothing the second returns and changes nothing; if it inserted
    a pair the second is refused by the primary key of [subobject_alias]. *)
Theorem find_imprecise_alias_rerun (db db' : Sql.Db) (owner_id : Z) :
  Sql.find_imprecise_alias db owner_id = Returned db' ->
  (Sql.subobject_alias db' = Sql.subobject_alias db ->
   Sql.find_imprecise_alias db' owner_id = Returned db') /\
  (Sql.subobject_alias db' <> Sql.subobject_alias db ->
   exists what, Sql.find_imprecise_alias db' owner_id = Thrown what).
Proof.
  unfold Sql.find_imprecise_alias at 1. unfold Sql.find_imprecise_alias_of.
  fold (Sql.alias_bounds db owner_id). intros H.
  destruct (Sql.alias_bounds db owner_id) as [selected| | |] eqn:Hsel; try discriminate.
  destruct (Sql.insert_alias _ _) as [table| | |] eqn:Hins; try discriminate.
  inversion H; subst db'; clear H.
  unfold Sql.find_imprecise_alias, Sql.find_imprecise_alias_of.
  change (Sql.alias_bounds_of _ owner_id) with (Sql.alias_bounds db owner_id).
  rewrite Hsel. cbn [Sql.member_bounds Sql.struct_member Sql.subobject_alias Sql.struct_type].
  destruct selected as [|r selected].
  - cbn in Hins |- *. inversion Hins; subst table. split.
    + intros _. reflexivity.
    + intros Hne. exfalso. apply Hne. reflexivity.
  - pose proof (insert_alias_elem _ _ _ Hins) as (Hiff & Hnew).
    set (p := (snd (fst r), snd r)) in *.
    assert (Hp : p ∈ table) by (apply Hiff; right; left; reflexivity).
    split.
    + intros Heq. exfalso. apply (Hnew p); [left; reflexivity|].
      rewrite <- Heq. exact Hp.
    + intros _. cbn [map Sql.insert_alias]. fold p.
      rewrite (bool_decide_eq_true_2 _ Hp). eexists. reflexivity.
Qed.

Lemma find_imprecise_alias_rerun_witness :
  exists db',
    Sql.find_imprecise_alias More.two_bounds_db 2 = Returned db' /\
    Sql.subobject_alias db' = {[ (2, 1); (1, 2) ]} /\
    (Sql.subobject_alias db' = Sql.subobject_alias More.two_bounds_db ->
     Sql.find_imprecise_alias db' 2 = Returned db') /\
    (Sql.subobject_alias db' <> Sql.subobject_alias More.two_bounds_db ->
     exists what, Sql.find_imprecise_alias db' 2 = Thrown what).
Proof.
  eexists. split; [vm_compute; reflexivity|]. split; [vm_compute; reflexivity|].
  apply (find_imprecise_alias_rerun More.two_bounds_db _ 2).
  vm_compute. reflexivity.
Defined.

(* ===================================================================== *)
(** * [LIKE] on names without wildcards, and completeness of the view *)
(* ===================================================================== *)

Lemma in_all_ascii (c : ascii) : In c all_ascii.
Proof.
  unfold all_ascii. apply in_map_iff. exists (nat_of_ascii c).
  split; [apply ascii_nat_embedding|].
  apply in_seq. pose proof (nat_ascii_bounded c). lia.
Qed.

Lemma plain_char_agrees_all (c d : ascii) : plain_char_agrees c d = true.
Proof.
  assert (H : forallb (fun c => forallb (plain_char_agrees c) all_ascii) all_ascii = true)
    by (vm_compute; reflexivity).
  rewrite forallb_forall in H. specialize (H c (in_all_ascii c)).
  rewrite forallb_forall in H. exact (H d (in_all_ascii d)).
Qed.

(** A character begun by a lead byte is never an ASCII character. *)
Lemma utf8_read_unfinished (c : Z) (z : string) :
  exists v rest, Sql.utf8_read (Some c) z = v :: rest /\ 128 <= v.
Proof.
  assert (Hv : forall u, 128 <= Sql.utf8_value u).
  { intros u. unfold Sql.utf8_value.
    destruct (u <? 128)%Z eqn:Hu; [cbn; lia|]. apply Z.ltb_ge in Hu.
    destruct (_ || _)%bool; lia. }
  revert c. induction z as [|b z IH]; intros c.
  - eexists _, _. split; [reflexivity|apply Hv].
  - cbn [Sql.utf8_read]. cbn zeta.
    destruct (Sql.is_continuation (Sql.byte b)); [apply IH|].
    eexists _, _. split; [reflexivity|apply Hv].
Qed.

Lemma matches_plain_above (c : ascii) (v : Z) :
  plain_char c = true -> 128 <= v -> Sql.matches (Sql.byte c) v = false.
Proof.
  unfold plain_char, Sql.matches. rewrite !andb_true_iff, !negb_true_iff.
  intros [[[_ H1] _] H3] Hv. apply Z.ltb_lt in H1. rewrite H3.
  destruct (Z.eqb_spec (Sql.byte c) v); [lia|].
  destruct (Z.ltb_spec v 128); [lia|]. rewrite andb_false_r. reflexivity.
Qed.

(** The pattern [p || '%'] for a plain [p] against any text: a match
    exactly when [p], in lower case, begins the text, in lower case. *)
Lemma patternCompare_plain_prefix (p s : string) :
  plain_name p = true ->
  (Sql.patternCompare (Sql.utf8_read None (p ++ "%")) (Sql.utf8_read None s) = true <->
   exists t, lower s = lower p ++ t).
Proof.
  revert s. induction p as [|c p IH]; intros s Hp.
  - change (Sql.utf8_read None ("" ++ "%")) with [37]. rewrite patternCompare_percent.
    split; [|reflexivity]. intros _. exists (lower s). reflexivity.
  - cbn [plain_name] in Hp. apply andb_true_iff in Hp. destruct Hp as [Hc Hp].
    change (String c p ++ "%") with (String c (p ++ "%")).
    assert (Hread : Sql.utf8_read None (String c (p ++ "%")) =
                    Sql.byte c :: Sql.utf8_read None (p ++ "%")).
    { cbn [Sql.utf8_read]. cbn zeta. unfold plain_char in Hc.
      rewrite !andb_true_iff in Hc. destruct Hc as [[[H0 H1] _] _].
      apply Z.ltb_lt in H0, H1.
      destruct (Z.eqb_spec (Sql.byte c) 0); [lia|].
      destruct (Z.ltb_spec (Sql.byte c) 192); [reflexivity|lia]. }
    rewrite Hread. cbn [Sql.patternCompare].
    assert (H37 : (Sql.byte c =? 37)%Z = false).
    { unfold plain_char in Hc. rewrite !andb_true_iff, !negb_true_iff in Hc. tauto. }
    rewrite H37.
    assert (Hlow : forall d s' t, lower (String d s') = lower (String c p) ++ t <->
                                  Sql.tolower c = Sql.tolower d /\ lower s' = lower p ++ t).
    { intros d s' t. cbn [lower].
      change (String (Sql.tolower c) (lower p) ++ t)
        with (String (Sql.tolower c) (lower p ++ t)).
      split; [intros H; inversion H; auto|intros [-> ->]; reflexivity]. }
    destruct s as [|d s].
    + cbn. split; [discriminate|]. intros [t Ht]. discriminate Ht.
    + pose proof (plain_char_agrees_all c d) as Hcd. unfold plain_char_agrees in Hcd.
      rewrite Hc in Hcd. cbn [Sql.utf8_read]. cbn zeta.
      destruct (Z.eqb_spec (Sql.byte d) 0) as [Hz|Hz].
      * cbn [orb] in Hcd. apply negb_true_iff, Ascii.eqb_neq in Hcd.
        split; [discriminate|]. intros [t Ht]. apply Hlow in Ht. tauto.
      * destruct (Z.ltb_spec (Sql.byte d) 192) as [Hd|Hd].
        -- destruct (Z.leb_spec 192 (Sql.byte d)); [lia|]. cbn [orb] in Hcd.
           apply eqb_prop in Hcd. rewrite andb_true_iff, Hcd, Ascii.eqb_eq, (IH s Hp).
           split.
           ++ intros [Heq [t Ht]]. exists t. apply Hlow. auto.
           ++ intros [t Ht]. apply Hlow in Ht. destruct Ht as [Heq Ht]. eauto.
        -- destruct (Z.leb_spec 192 (Sql.byte d)); [|lia]. cbn [orb] in Hcd.
           apply negb_true_iff, Ascii.eqb_neq in Hcd.
           destruct (utf8_read_unfinished (Sql.sqlite3Utf8Trans1 (Sql.byte d)) s)
             as (v & rest & -> & Hv).
           rewrite (matches_plain_above c v Hc Hv). cbn [andb].
           split; [discriminate|]. intros [t Ht]. apply Hlow in Ht. tauto.
Qed.

Lemma like_plain_prefix (p s : string) :
  plain p ->
  (Sql.like (p ++ "%") s = Some true <-> exists t, lower s = lower p ++ t) /\
  (Sql.like (p ++ "%") s = Some false <-> ~ exists t, lower s = lower p ++ t).
Proof.
  intros [Hp Hlen]. unfold Sql.like. rewrite string_length_app. cbn [String.length].
  destruct (_ <? _)%Z eqn:Hlong; [apply Z.ltb_lt in Hlong; lia|].
  pose proof (patternCompare_plain_prefix p s Hp) as Hiff.
  destruct (Sql.patternCompare _ _).
  - split; split; intros H; try discriminate; try reflexivity.
    + apply Hiff. reflexivity.
    + exfalso. apply H, Hiff. reflexivity.
  - split; split; intros H; try discriminate; try reflexivity.
    + apply Hiff in H. discriminate H.
    + intros Ht. apply Hiff in Ht. discriminate Ht.
Qed.

(** X23. For a plain name [prefix] (ASCII characters other than [%], [_]
    and zero, fewer than 50000 of them) and any text [name], the test [name
    LIKE prefix || '%'] of the view holds exactly when [prefix], in lower
    case, is a prefix of [name], in lower case. *)
Theorem like_is_prefix_ignoring_case (p s : string) :
  plain p ->
  (Sql.like (p ++ "%") s = Some true <-> is_prefix (lower p) (lower s)).
Proof. intros Hp. unfold is_prefix. apply like_plain_prefix. exact Hp. Qed.

Lemma like_is_prefix_ignoring_case_witness :
  plain "S::f" /\
  (Sql.like ("S::f" ++ "%") "s::F::g" = Some true <->
   is_prefix (lower "S::f") (lower "s::F::g")).
Proof.
  split; [split; reflexivity|].
  apply (like_is_prefix_ignoring_case "S::f" "s::F::g"). split; reflexivity.
Defined.

(** X24. What view [alias_bounds] does not miss. When the query for an
    owner completes, its result holds every pair of rows of [member_bounds]
    of that owner with distinct ids, the second with its [struct_member]
    row, whose ranges overlap as in the view and whose names are plain and
    are not prefixes of one another even when case is ignored. *)
Theorem alias_bounds_complete (db : Sql.Db) (subobj alias : Sql.MemberBounds)
  (m : StructMemberRow.t) (l : list (Z * Z * Z)) :
  Sql.alias_bounds db (MemberBoundsRow.owner (Sql.row subobj)) = Returned l ->
  In subobj (Sql.member_bounds db) ->
  In alias (Sql.member_bounds db) ->
  In m (Sql.struct_member db) ->
  StructMemberRow.id m = MemberBoundsRow.member (Sql.row alias) ->
  MemberBoundsRow.owner (Sql.row subobj) = MemberBoundsRow.owner (Sql.row alias) ->
  Sql.id subobj <> Sql.id alias ->
  Z.max (MemberBoundsRow.base (Sql.row subobj)) (MemberBoundsRow.offset (Sql.row alias)) <
  Z.min (MemberBoundsRow.top (Sql.row subobj))
        (MemberBoundsRow.offset (Sql.row alias) + StructMemberRow.byte_size m +
         (if (value_or (StructMemberRow.bit_size m) 0 =? 0)%Z then 0 else 1)) ->
  plain (MemberBoundsRow.name (Sql.row subobj)) ->
  plain (MemberBoundsRow.name (Sql.row alias)) ->
  ~ is_prefix (lower (MemberBoundsRow.name (Sql.row subobj)))
              (lower (MemberBoundsRow.name (Sql.row alias))) ->
  ~ is_prefix (lower (MemberBoundsRow.name (Sql.row alias)))
              (lower (MemberBoundsRow.name (Sql.row subobj))) ->
  In (MemberBoundsRow.owner (Sql.row subobj), Sql.id subobj, Sql.id alias) l.
Proof.
  intros Hl Hs Ha Hm Hid Howner Hne Hover Hps Hpa Hn1 Hn2.
  apply (alias_bounds_In db _ l _ _ _ Hl).
  eexists (Sql.mkImpl _ _ _ _ _ _ _ _ _). split; [|split; [|split; [|reflexivity]]].
  - apply impl_In. exists subobj, alias, m. repeat (split; [assumption|]). reflexivity.
  - reflexivity.
  - apply alias_where_true.
    cbn [Sql.check_base Sql.base Sql.check_top Sql.top Sql.name Sql.alias_name].
    split; [|split].
    + rewrite IIF_nonzero, Z.max_comm, Z.min_comm. exact Hover.
    + apply like_plain_prefix; assumption.
    + apply like_plain_prefix; assumption.
Qed.

Lemma alias_bounds_complete_witness :
  exists l,
    Sql.alias_bounds More.two_bounds_db 2 = Returned l /\ In (2, 1, 2) l.
Proof.
  eexists. split; [vm_compute; reflexivity|].
  apply (alias_bounds_complete More.two_bounds_db
           (Sql.mkMemberBounds 1 (Sample.bounds 2 2 "S::a" 0 0 8))
           (Sql.mkMemberBounds 2 (Sample.bounds 2 3 "S::b" 2 0 8))
           (Sample.member 3 2 None "b" "int" 4 2 0)).
  - vm_compute. reflexivity.
  - left. reflexivity.
  - right. left. reflexivity.
  - right. left. reflexivity.
  - reflexivity.
  - reflexivity.
  - discriminate.
  - reflexivity.
  - split; reflexivity.
  - split; reflexivity.
  - intros [t Ht]. discriminate Ht.
  - intros [t Ht]. discriminate Ht.
Defined.

(* ===================================================================== *)
(** * Properties of [Join] *)
(* ===================================================================== *)

Lemma string_app_assoc (a b c : string) : (a ++ b) ++ c = a ++ (b ++ c).
Proof.
  induction a as [|x a IH]; [reflexivity|].
  change (String x ((a ++ b) ++ c) = String x (a ++ (b ++ c))). f_equal. exact IH.
Qed.

Lemma string_app_nil_r (a : string) : a ++ "" = a.
Proof.
  induction a as [|x a IH]; [reflexivity|].
  change (String x (a ++ "") = String x a). f_equal. exact IH.
Qed.

Lemma Join_fold (S : ascii) (rest : list string) (acc tail : string) :
  fold_left (fun left right => left ++ String S right) rest acc ++ tail =
  acc ++ fold_right (fun right t => String S (right ++ t)) tail rest.
Proof.
  revert acc. induction rest as [|r rest IH]; intros acc; cbn [fold_left fold_right].
  - reflexivity.
  - rewrite IH. cbn beta. rewrite string_app_assoc. reflexivity.
Qed.

Lemma Join_acc (S : ascii) (rest : list string) (a b : string) :
  fold_left (fun left right => left ++ String S right) rest (a ++ b) =
  a ++ fold_left (fun left right => left ++ String S right) rest b.
Proof.
  revert b. induction rest as [|r rest IH]; intros b; cbn [fold_left]; [reflexivity|].
  rewrite string_app_assoc. apply IH.
Qed.

(** X25. [Join] of the empty vector is the empty string and of a
    one-element vector that element; joining two non-empty vectors end to
    end gives the two joins with one separator between them. *)
Theorem Join_app (S : ascii) (x y : string) (xs ys : list string) :
  Join S [] = "" /\
  Join S [x] = x /\
  Join S ((x :: xs) ++ (y :: ys)) = Join S (x :: xs) ++ String S (Join S (y :: ys)).
Proof.
  split; [reflexivity|]. split; [reflexivity|].
  cbn [Join app]. rewrite fold_left_app. cbn [fold_left].
  rewrite Join_acc. f_equal.
  exact (Join_acc S ys (String S "") y).
Qed.

Lemma split_on_no_separator (S : ascii) (x : string) :
  contains S x = false -> split_on S x = [x].
Proof.
  induction x as [|c x IH]; cbn; [reflexivity|].
  intros H. apply orb_false_iff in H. destruct H as [Hc Hx].
  rewrite Hc, (IH Hx). reflexivity.
Qed.

Lemma split_on_piece (S : ascii) (x rest : string) :
  contains S x = false ->
  split_on S (x ++ String S rest) = x :: split_on S rest.
Proof.
  induction x as [|c x IH].
  - intros _. change ("" ++ String S rest) with (String S rest).
    cbn [split_on]. rewrite Ascii.eqb_refl. reflexivity.
  - cbn [contains]. intros H. apply orb_false_iff in H. destruct H as [Hc Hx].
    change (String c x ++ String S rest) with (String c (x ++ String S rest)).
    cbn [split_on]. rewrite Hc, (IH Hx). reflexivity.
Qed.

(** X26. [Join] can be undone when no element holds the separator:
    splitting the joined text at the separators gives back a non-empty
    vector, element by element. The empty vector cannot be told from the
    vector holding one empty string: both join to the empty string. *)
Theorem Join_split (S : ascii) (x : string) (xs : list string) :
  Forall (fun e => contains S e = false) (x :: xs) ->
  split_on S (Join S (x :: xs)) = x :: xs /\
  Join S [] = Join S [""].
Proof.
  intros H. split; [|reflexivity].
  cbn [Join]. rewrite <- (string_app_nil_r (fold_left _ xs x)), Join_fold.
  revert x H. induction xs as [|y ys IH]; intros x H; cbn [fold_right].
  - rewrite string_app_nil_r. apply split_on_no_separator.
    inversion H; assumption.
  - inversion H as [|? ? Hx Hrest]; subst.
    rewrite split_on_piece by exact Hx. rewrite (IH y Hrest). reflexivity.
Qed.

Lemma Join_split_witness :
  Forall (fun e => contains "," e = false) ["a"; ""; "bc"] /\
  Join "," ["a"; ""; "bc"] = "a,,bc" /\
  split_on "," (Join "," ["a"; ""; "bc"]) = ["a"; ""; "bc"] /\
  Join "," [] = Join "," [""].
Proof.
  assert (H : Forall (fun e => contains "," e = false) ["a"; ""; "bc"])
    by (repeat constructor).
  split; [exact H|]. split; [reflexivity|].
  exact (Join_split "," "a" [""; "bc"] H).
Defined.

Lemma Join_unsigned_fold (S : ascii) (rest : list Z) (acc : string) :
  fold_left (fun left right => left ++ String S (pretty right)) rest acc =
  acc ++ fold_right (fun right t => String S (pretty right ++ t)) "" rest.
Proof.
  revert acc. induction rest as [|r rest IH]; intros acc; cbn [fold_left fold_right].
  - symmetry. apply string_app_nil_r.
  - rewrite IH. apply string_app_assoc.
Qed.

(** X27. [Join] over unsigned integers: whatever the first element, the
    text starts with the single character whose code is that element modulo
    256, not with its decimal digits; every later element follows a
    separator in decimal. *)
Theorem Join_unsigned_first_is_char (S : ascii) (first : Z) (rest : list Z) :
  Join_unsigned S (first :: rest) =
    String (ascii_of_N (Z.to_N (first mod 256)))
           (fold_right (fun right t => String S (pretty right ++ t)) "" rest) /\
  Join_unsigned "," [65; 66] = "A,66".
Proof.
  split; [|reflexivity]. cbn [Join_unsigned]. apply Join_unsigned_fold.
Qed.

(* ===================================================================== *)
(** * The properties above at sample inputs *)
(* ===================================================================== *)

(** The children of [Outer] in scenario D: two members are collected. *)
Lemma visit_children_collects_witness :
  exists members' s',
    visit_children true Sample.GetTypeInfo Sample.referenced_type (Sample.visit 1)
      (children Sample.Outer_die) (StructTypeEntry.data Sample.Outer_entry) 0 []
      Scraper_init = (Returned members', s') /\
    map StructMemberRow.name members' = ["inner"; "c"] /\
    exists rows,
      members' = ([] ++ rows)%list /\
      Forall2 (collected (StructTypeEntry.data Sample.Outer_entry))
              (List.filter is_member (children Sample.Outer_die)) rows.
Proof.
  eexists. eexists. split; [vm_compute; reflexivity|]. split; [reflexivity|].
  eapply (visit_children_collects true Sample.GetTypeInfo Sample.referenced_type
            (Sample.visit 1) (children Sample.Outer_die)
            (StructTypeEntry.data Sample.Outer_entry) 0 [] Scraper_init).
  vm_compute. reflexivity.
Defined.

(** Scenario D visited in a fresh process. *)
Lemma VisitCommon_only_adds_witness :
  record_kind Flags.kTypeIsStruct /\
  grows Scraper_init
    (snd (Sample.visit 2 Sample.Outer_die Flags.kTypeIsStruct Scraper_init)).
Proof.
  assert (Hk : record_kind Flags.kTypeIsStruct) by (left; reflexivity).
  split; [exact Hk|].
  exact (VisitCommon_only_adds true None (fun file _ => file) (fun _ _ => "<anon>")
           Sample.GetTypeInfo Sample.referenced_type 2 Sample.Outer_die
           Flags.kTypeIsStruct Scraper_init Hk).
Defined.

Lemma Scraper_init_wf : map_wf Scraper_init.
Proof. intros k e H. cbn in H. rewrite lookup_empty in H. discriminate H. Qed.

Lemma VisitCommon_keeps_map_wf_witness :
  record_kind Flags.kTypeIsStruct /\
  map_wf Scraper_init /\
  map_wf (snd (Sample.visit 2 Sample.Outer_die Flags.kTypeIsStruct Scraper_init)).
Proof.
  assert (Hk : record_kind Flags.kTypeIsStruct) by (left; reflexivity).
  split; [exact Hk|]. split; [exact Scraper_init_wf|].
  exact (VisitCommon_keeps_map_wf true None (fun file _ => file) (fun _ _ => "<anon>")
           Sample.GetTypeInfo Sample.referenced_type 2 Sample.Outer_die
           Flags.kTypeIsStruct Scraper_init Hk Scraper_init_wf).
Defined.

(** [Outer] visited, then visited again as a class: id 2 again, nothing
    changed. *)
Lemma VisitCommon_revisit_witness :
  let s' := snd (Sample.visit 2 Sample.Outer_die Flags.kTypeIsStruct Scraper_init) in
  fst (Sample.visit 2 Sample.Outer_die Flags.kTypeIsStruct Scraper_init)
    = Returned (Some 2) /\
  Sample.visit 1 Sample.Outer_die Flags.kTypeIsClass s' = (Returned (Some 2), s') /\
  exists e,
    struct_type_map_ s' !!
      die_key None (fun file _ => file) (fun _ _ => "<anon>") Sample.Outer_die = Some e /\
    forall n' kind',
      VisitCommon true None (fun file _ => file) (fun _ _ => "<anon>")
        Sample.GetTypeInfo Sample.referenced_type (S n') Sample.Outer_die kind' s'
      = (Returned (Some (StructTypeRow.id (StructTypeEntry.data e))), s').
Proof.
  cbn zeta. split; [vm_compute; reflexivity|]. split; [vm_compute; reflexivity|].
  apply (VisitCommon_revisit true None (fun file _ => file) (fun _ _ => "<anon>")
           Sample.GetTypeInfo Sample.referenced_type 1 Sample.Outer_die
           Flags.kTypeIsStruct 2 Scraper_init).
  vm_compute. reflexivity.
Defined.

(** Scenario D with the sample encoder. *)
Lemma FindSubobjectCapabilities_closed_form_witness :
  exists e',
    FindSubobjectCapabilities Sample.granule_range Sample.no_precision Sample.by_id_D 2
      Sample.Outer_entry = Returned e' /\
    unscanned Sample.by_id_D /\
    (FindSubobjectCapabilities Sample.granule_range Sample.no_precision Sample.by_id_D 2
       Sample.Outer_entry = Returned e' <->
     nests_within Sample.by_id_D 2 Sample.Outer_entry /\
     e' = append_rows Sample.Outer_entry
            (expected_layout Sample.granule_range Sample.no_precision Sample.by_id_D 2
               2 Sample.Outer_entry 0 "Outer")).
Proof.
  eexists. split; [vm_compute; reflexivity|]. split; [exact by_id_D_unscanned|].
  apply (FindSubobjectCapabilities_closed_form Sample.granule_range Sample.no_precision
           Sample.by_id_D by_id_D_unscanned 2 Sample.Outer_entry).
  reflexivity.
Defined.

(** [Loop] holds a member of type [Loop]: the flattening exhausts a budget
    of 50 nested calls, as it does any other. *)
Lemma self_nested_entry_never_flattens_witness :
  FlattenedLayout Sample.granule_range Sample.no_precision More.by_id_Loop 50
    More.Loop_entry 0 "Loop" More.Loop_entry = OutOfFuel /\
  FlattenedLayout Sample.granule_range Sample.no_precision More.by_id_Loop 50
    More.Loop_entry 0 "Loop" More.Loop_entry <> Returned More.Loop_entry.
Proof.
  split; [vm_compute; reflexivity|].
  apply (self_nested_entry_never_flattens Sample.granule_range Sample.no_precision
           More.by_id_Loop 50 2 More.Loop_entry
           (Sample.member 3 2 (Some 2) "self" "Loop" 8 0 Flags.kTypeIsStruct)).
  - reflexivity.
  - reflexivity.
  - right. left. reflexivity.
  - reflexivity.
Defined.

Lemma flattened_rows_owned_by_entry_witness :
  exists e',
    FindSubobjectCapabilities Sample.granule_range Sample.no_precision Sample.by_id_D 2
      Sample.Outer_entry = Returned e' /\
    map MemberBoundsRow.owner (StructTypeEntry.flattened_layout e') = [2; 2; 2; 2] /\
    Forall (fun r => MemberBoundsRow.owner r =
                     StructTypeRow.id (StructTypeEntry.data Sample.Outer_entry))
           (StructTypeEntry.flattened_layout e').
Proof.
  eexists. split; [vm_compute; reflexivity|]. split; [reflexivity|].
  apply (flattened_rows_owned_by_entry Sample.granule_range Sample.no_precision
           Sample.by_id_D by_id_D_unscanned 2 Sample.Outer_entry).
  - reflexivity.
  - vm_compute. reflexivity.
Defined.

(* ===================================================================== *)
(** * What [EndUnit] writes to [member_bounds] *)
(* ===================================================================== *)

Lemma EndUnit_flatten_returns_map rr rp entry_by_id fuel ps map_ map' :
  EndUnit_flatten rr rp entry_by_id fuel ps map_ = Returned map' -> map' = map_.
Proof.
  induction ps as [|p ps IH]; cbn [EndUnit_flatten]; intros H.
  - inversion H. reflexivity.
  - destruct (StructTypeEntry.skip_postprocess (snd p)); [exact (IH H)|].
    destruct (FindSubobjectCapabilities _ _ _ _ _); try discriminate. exact (IH H).
Qed.

Lemma EndUnit_bounds_no_rows (es : list StructTypeEntry.t) (db db' : Sql.Db) :
  Forall (fun e => StructTypeEntry.flattened_layout e = []) es ->
  Sql.EndUnit_bounds es db = Returned db' ->
  Sql.member_bounds db' = Sql.member_bounds db.
Proof.
  revert db. induction es as [|e es IH]; intros db Hes H; cbn [Sql.EndUnit_bounds] in H.
  - inversion H. reflexivity.
  - inversion Hes as [|? ? He Hes']; subst.
    destruct (StructTypeEntry.skip_postprocess e); [exact (IH _ Hes' H)|].
    rewrite He in H. cbn [fold_left] in H.
    destruct (Sql.find_imprecise_alias _ _) as [d1| | |] eqn:Hq; try discriminate.
    apply find_imprecise_alias_ok in Hq. destruct Hq as (Hmb & _).
    rewrite (IH _ Hes' H). exact Hmb.
Qed.

(** X15. From the flatten loop to the end of the second transaction: if
    the entries of [struct_type_map_] enter with empty flattened layouts, as
    [VisitCommon] records them, then whenever this part of [EndUnit]
    completes, [member_bounds] holds exactly the rows it held before. The
    layouts are computed in copies of the entries, so none is inserted. *)
Theorem EndUnit_writes_no_member_bounds rr rp entry_by_id fuel map_ db db' :
  (forall k e, map_ !! k = Some e -> StructTypeEntry.flattened_layout e = []) ->
  EndUnit_postprocess rr rp entry_by_id fuel map_ db = Returned db' ->
  Sql.member_bounds db' = Sql.member_bounds db.
Proof.
  intros Hfresh H. unfold EndUnit_postprocess in H.
  destruct (EndUnit_flatten _ _ _ _ _ _) as [map'| | |] eqn:Hf; try discriminate.
  apply EndUnit_flatten_returns_map in Hf. subst map'.
  eapply EndUnit_bounds_no_rows; [|exact H].
  apply Forall_forall. intros e He.
  apply list_elem_of_In, in_map_iff in He. destruct He as ([k e0] & <- & Hin).
  apply list_elem_of_In, elem_of_map_to_list in Hin. eapply Hfresh. exact Hin.
Qed.

(** Scenario D flattened and flushed into a store with no bounds yet. *)
Lemma EndUnit_writes_no_member_bounds_witness :
  exists db',
    EndUnit_postprocess Sample.granule_range Sample.no_precision Sample.by_id_D 2
      map_D Sample.V_db = Returned db' /\
    Sql.member_bounds db' = [] /\
    Sql.member_bounds db' = Sql.member_bounds Sample.V_db.
Proof.
  eexists. split; [vm_compute; reflexivity|]. split; [reflexivity|].
  apply (EndUnit_writes_no_member_bounds Sample.granule_range Sample.no_precision
           Sample.by_id_D 2 map_D Sample.V_db).
  - intros k e H. unfold map_D in H.
    apply lookup_insert_Some in H. destruct H as [[_ <-]|[_ H]]; [reflexivity|].
    apply lookup_insert_Some in H. destruct H as [[_ <-]|[_ H]]; [reflexivity|].
    rewrite lookup_empty in H. discriminate H.
  - vm_compute. reflexivity.
Defined.
